(** * Hexagonal city-growth simulation (genuary8/sketch.js)

    A shallow embedding of the diffusion-limited-aggregation city sketch:
    the hexagonal [Grid], its [Tile]s, the walking [Agent]s and the
    per-frame update of [draw].

    Conventions of the embedding.
    - JavaScript numbers that are always integers in the sketch (coordinates,
      states, levels, counters, cadences) are [Z]; the remaining numbers
      (probabilities, morph progress, clock readings, scores) are exact
      rationals [Q] standing for the doubles of the source.
    - A tile object is shared between [Grid.tiles] and the agents standing
      on it; a reference to a tile is its index in [Grid.tiles].
    - p5's seedable generator and its millisecond clock are not part of the
      sketch; they are the two fields of the [Host] class.
    - Rendering fields of a tile (size, x, y, z) play no role in the
      simulation and are left out. *)

From Stdlib Require Import ZArith QArith Qround Lia Lqa.
From stdpp Require Import base tactics option list numbers.

Local Open Scope Z_scope.

(** ** Static tables *)

Module STATE_SPACE.
Definition EMPTY : Z := 0.
Definition CANDIDATE : Z := 1.
Definition CRYSTALLIZED : Z := 2.
End STATE_SPACE.

Module LEVEL.
Definition EMPTY : Z := 0.
Definition HOUSE : Z := 1.
Definition SHOP : Z := 2.
Definition TOWER : Z := 3.
Definition FACTORY : Z := 4.
End LEVEL.

(** An entry of [EVOLUTION]. *)
Record Rule := mkRule { threshold : Z; next : Z }.

(** [EVOLUTION[level]]: [None] stands for both the [null] stored under
    FACTORY and the [undefined] of a key that is not in the table; the
    source only tests the entry with [!config]. *)
Definition EVOLUTION (level : Z) : option Rule :=
  if level =? LEVEL.HOUSE then Some (mkRule 2 LEVEL.SHOP)
  else if level =? LEVEL.SHOP then Some (mkRule 3 LEVEL.TOWER)
  else if level =? LEVEL.TOWER then Some (mkRule 4 LEVEL.FACTORY)
  else None.

(** [SERVICE_RANGE[level]]; [None] is the [undefined] of a missing key. *)
Definition SERVICE_RANGE (level : Z) : option Z :=
  if level =? LEVEL.EMPTY then Some 0
  else if level =? LEVEL.HOUSE then Some 1
  else if level =? LEVEL.SHOP then Some 2
  else if level =? LEVEL.TOWER then Some 3
  else if level =? LEVEL.FACTORY then Some 4
  else None.

(** The local table of [canDieFromCompetition]. *)
Definition MAX_COMPETITORS (level : Z) : option Z :=
  if level =? LEVEL.HOUSE then Some 4
  else if level =? LEVEL.SHOP then Some 2
  else if level =? LEVEL.TOWER then Some 1
  else if level =? LEVEL.FACTORY then Some 0
  else None.

(** Comparisons against a table entry: a comparison with [undefined] (or
    with the [NaN] computed from it) is false. *)
Definition leZ_opt (d : Z) (bound : option Z) : bool :=
  match bound with Some b => d <=? b | None => false end.

Definition gtZ_opt (n : Z) (bound : option Z) : bool :=
  match bound with Some b => n >? b | None => false end.

Definition leQ_opt (d : Z) (bound : option Q) : bool :=
  match bound with Some b => Qle_bool (inject_Z d) b | None => false end.

(** [controls]: the tunable parameters read by the simulation. *)
Record Controls := mkControls {
  spawnRate : Z;
  maxAgents : Z;
  stickingProb : Q;
  evolveRate : Z;
  shadowFactor : Q;
  biasedWalkChance : Q;
  paused : bool;
  decayRate : Z;
  decayProb : Q;
  seed : Z
}.

(** ** Tiles, agents and the grid *)

Module Tile.
Record t := mk {
  q : Z;
  r : Z;
  state : Z;
  level : Z;
  targetLevel : Z;
  morphProgress : Q;
  morphDuration : Q;
  morphStartTime : Q
}.
End Tile.

Module Agent.
(** [tile] is the index in [Grid.tiles] of the tile the agent stands on. *)
Record t := mk { tile : nat; alive : bool }.
End Agent.

Module Grid.
Record t := mk {
  nRows : Z;
  nCols : Z;
  tiles : list Tile.t;
  agents : list Agent.t
}.
End Grid.

(** The [Tile] constructor. *)
Definition newTile (q r : Z) : Tile.t :=
  Tile.mk q r 0 0 0 1%Q 1000%Q 0%Q.

(** Field assignments. *)
Definition set_state (v : Z) (t : Tile.t) : Tile.t :=
  Tile.mk (Tile.q t) (Tile.r t) v (Tile.level t) (Tile.targetLevel t)
    (Tile.morphProgress t) (Tile.morphDuration t) (Tile.morphStartTime t).

Definition set_level (v : Z) (t : Tile.t) : Tile.t :=
  Tile.mk (Tile.q t) (Tile.r t) (Tile.state t) v (Tile.targetLevel t)
    (Tile.morphProgress t) (Tile.morphDuration t) (Tile.morphStartTime t).

Definition set_morphProgress (v : Q) (t : Tile.t) : Tile.t :=
  Tile.mk (Tile.q t) (Tile.r t) (Tile.state t) (Tile.level t)
    (Tile.targetLevel t) v (Tile.morphDuration t) (Tile.morphStartTime t).

Definition set_tiles (ts : list Tile.t) (g : Grid.t) : Grid.t :=
  Grid.mk (Grid.nRows g) (Grid.nCols g) ts (Grid.agents g).

Definition set_agents (l : list Agent.t) (g : Grid.t) : Grid.t :=
  Grid.mk (Grid.nRows g) (Grid.nCols g) (Grid.tiles g) l.

(** [Grid._createTiles]: row-major, [r] outer and [q] inner. *)
Definition createTiles (nRows nCols : Z) : list Tile.t :=
  mjoin ((λ r, (λ q, newTile q r) <$> seqZ 0 nCols) <$> seqZ 0 nRows).

(** The [Grid] constructor. *)
Definition newGrid (nRows nCols : Z) : Grid.t :=
  Grid.mk nRows nCols (createTiles nRows nCols) [].

(** [Grid.getTile]: [None] is the [null] of the bounds check.  Inside the
    bounds the result is the reference [r * nCols + q] together with the
    tile stored there; the constructor fills [nRows * nCols] slots, so the
    slot exists ([wf_grid], [getTile_in_bounds]). *)
Definition getTile (g : Grid.t) (q r : Z) : option (nat * Tile.t) :=
  if (q <? 0) || (q >=? Grid.nCols g) || (r <? 0) || (r >=? Grid.nRows g)
  then None
  else
    let i := Z.to_nat (r * Grid.nCols g + q) in
    (λ t, (i, t)) <$> Grid.tiles g !! i.

(** The two direction tables of [Grid.getNeighbors]. *)
Definition oddDirections : list (Z * Z) :=
  [(1, 0); (1, 1); (0, 1); (-1, 1); (-1, 0); (0, -1)].

Definition evenDirections : list (Z * Z) :=
  [(1, -1); (1, 0); (0, 1); (-1, 0); (-1, -1); (0, -1)].

(** [q % 2 === 1]; [Z.rem] is the truncating remainder of JavaScript. *)
Definition isOddCol (q : Z) : bool := Z.rem q 2 =? 1.

Definition directions (q : Z) : list (Z * Z) :=
  if isOddCol q then oddDirections else evenDirections.

(** The [map] of [Grid.getNeighbors], before its [filter]. *)
Definition neighborSlots (g : Grid.t) (q r : Z) : list (option (nat * Tile.t)) :=
  (λ d, getTile g (q + d.1) (r + d.2)) <$> directions q.

(** [Grid.getNeighbors]: the slots that are not [null]. *)
Definition getNeighbors (g : Grid.t) (q r : Z) : list (nat * Tile.t) :=
  omap id (neighborSlots g q r).

Record Cube := mkCube { cx : Z; cy : Z; cz : Z }.

(** [Grid.offsetToCube].  [q - (q & 1)] is even, so the division is exact. *)
Definition offsetToCube (q r : Z) : Cube :=
  let x := q in
  let z := r - (q - Z.land q 1) / 2 in
  let y := - x - z in
  mkCube x y z.

(** [Grid.hexDistance]. *)
Definition hexDistance (tile1 tile2 : Tile.t) : Z :=
  let a := offsetToCube (Tile.q tile1) (Tile.r tile1) in
  let b := offsetToCube (Tile.q tile2) (Tile.r tile2) in
  Z.max (Z.max (Z.abs (cx a - cx b)) (Z.abs (cy a - cy b))) (Z.abs (cz a - cz b)).

(** The tiles of a grid paired with their references. *)
Definition indexed (g : Grid.t) : list (nat * Tile.t) :=
  imap (λ i t, (i, t)) (Grid.tiles g).

(** [Grid.getTilesInRange]; [range] may be the [undefined] of a table miss. *)
Definition getTilesInRange (g : Grid.t) (q r : Z) (range : option Z)
  : list (nat * Tile.t) :=
  match getTile g q r with
  | None => []
  | Some center =>
      filter (λ it, leZ_opt (hexDistance center.2 it.2) range = true) (indexed g)
  end.

(** The coordinate layout fixed by the constructor: the tile stored at
    [r * nCols + q] carries the coordinates [(q, r)]. *)
Definition coords (t : Tile.t) : Z * Z := (Tile.q t, Tile.r t).

Definition wf_grid (g : Grid.t) : Prop :=
  coords <$> Grid.tiles g = coords <$> createTiles (Grid.nRows g) (Grid.nCols g).

Definition in_bounds (g : Grid.t) (q r : Z) : Prop :=
  0 <= q < Grid.nCols g ∧ 0 <= r < Grid.nRows g.

(** The dimensions of a grid, fixed at its creation. *)
Definition dims (g : Grid.t) : Z * Z := (Grid.nRows g, Grid.nCols g).

(** ** The host: p5's generator and clock *)

(** [random] is one call of p5's [random()], a sample of the unit interval
    together with the advanced generator; [randomSeed] is the state
    installed by [randomSeed(seed)]; [millis] is one reading of the
    millisecond clock. *)
Class Host := {
  rng : Type;
  randomSeed : Z → rng;
  random : rng → Q * rng;
  clock : Type;
  millis : clock → Q * clock
}.

(** The contract of [random()]: every sample lies in [0, 1). *)
Definition UnitGenerator `{Host} : Prop :=
  ∀ s, (0 <= (random s).1)%Q ∧ ((random s).1 < 1)%Q.

Definition Qlt_bool (x y : Q) : bool := negb (Qle_bool y x).

(** [l[i]] for a JavaScript number [i]: [undefined] outside the array. *)
Definition lookupZ {A} (l : list A) (i : Z) : option A :=
  if i <? 0 then None else l !! Z.to_nat i.

(** p5's [random(array)]: [array[floor(random() * array.length)]]. *)
Definition randomChoice `{Host} {A} (l : list A) (s : rng) : option A * rng :=
  let '(u, s') := random s in
  (lookupZ l (Qfloor (u * inject_Z (Z.of_nat (length l)))), s').

(** ** Tile *)

(** The locals [lowerNeighbors], [shadowRadius] and [inShadow] of
    [Tile.canPromote]; [this] is the tile with its reference, so that
    [n !== this] compares references. *)
Definition lowerNeighbors (g : Grid.t) (this : nat * Tile.t) : list (nat * Tile.t) :=
  filter (λ n : nat * Tile.t,
            (Tile.state n.2 =? STATE_SPACE.CRYSTALLIZED)
            && (Tile.level n.2 <=? Tile.level this.2))
    (getNeighbors g (Tile.q this.2) (Tile.r this.2)).

Definition shadowRadius (c : Controls) (config : Rule) : option Q :=
  (λ range, inject_Z range * shadowFactor c)%Q <$> SERVICE_RANGE (next config).

Definition inShadow (c : Controls) (g : Grid.t) (this : nat * Tile.t)
  (config : Rule) : bool :=
  existsb (λ n : nat * Tile.t,
             negb (n.1 =? this.1)%nat
             && (Tile.state n.2 =? STATE_SPACE.CRYSTALLIZED)
             && leQ_opt (hexDistance this.2 n.2) (shadowRadius c config)
             && (Tile.level n.2 >=? next config)) (indexed g).

(** [Tile.canPromote]. *)
Definition canPromote (c : Controls) (g : Grid.t) (this : nat * Tile.t) : bool :=
  if negb (Tile.state this.2 =? STATE_SPACE.CRYSTALLIZED) then false
  else
    match EVOLUTION (Tile.level this.2) with
    | None => false
    | Some config =>
        let servedEnough :=
          Z.of_nat (length (lowerNeighbors g this)) >=? threshold config in
        servedEnough && negb (inShadow c g this config)
    end.

(** [Tile.setTargetLevel]; the clock is read only when a morph starts. *)
Definition setTargetLevel `{Host} (newLevel : Z) (t : Tile.t) (k : clock)
  : Tile.t * clock :=
  if newLevel =? Tile.level t then (t, k)
  else
    let '(now, k') := millis k in
    (Tile.mk (Tile.q t) (Tile.r t) (Tile.state t) (Tile.level t) newLevel
       0%Q (Tile.morphDuration t) now, k').

(** p5's [constrain(n, low, high)]: [max(min(n, high), low)]. *)
Definition constrain (n low high : Q) : Q :=
  let m := if Qle_bool n high then n else high in
  if Qle_bool low m then m else low.

(** The cubic ease-in-out of [updateMorphing]. *)
Definition ease (p : Q) : Q :=
  (if Qlt_bool p (1 # 2) then 4 * p * p * p else 1 - (-2 * p + 2) ^ 3 / 2)%Q.

(** [Tile.updateMorphing]; the clock is read only while a morph is active. *)
Definition updateMorphing `{Host} (t : Tile.t) (k : clock) : Tile.t * clock :=
  if Qle_bool 1 (Tile.morphProgress t) then (t, k)
  else
    let '(now, k') := millis k in
    let elapsed := (now - Tile.morphStartTime t)%Q in
    let p := ease (constrain (elapsed / Tile.morphDuration t) 0 1) in
    let t1 := set_morphProgress p t in
    if Qle_bool 1 p then
      let t2 := set_level (Tile.targetLevel t1) t1 in
      if Tile.targetLevel t2 =? LEVEL.EMPTY
      then (set_state STATE_SPACE.EMPTY t2, k')
      else (t2, k')
    else (t1, k').

(** ** Agent

    An agent's [tile] always denotes a tile of its grid; the [None]
    branches of the dereferences below are never taken. *)

(** [Agent.couldBeCandidate]. *)
Definition couldBeCandidate (g : Grid.t) (a : Agent.t) : bool :=
  match Grid.tiles g !! Agent.tile a with
  | None => false
  | Some t =>
      existsb (λ n : nat * Tile.t, Tile.state n.2 =? STATE_SPACE.CRYSTALLIZED)
        (getNeighbors g (Tile.q t) (Tile.r t))
  end.

(** [Agent.aggregate(rho)]: the grid (whose tile the agent mutates), the
    agent, the generator and the returned flag. *)
Definition aggregate `{Host} (rho : Q) (g : Grid.t) (a : Agent.t) (s : rng)
  : Grid.t * Agent.t * rng * bool :=
  if negb (Agent.alive a) then (g, a, s, false)
  else
    match Grid.tiles g !! Agent.tile a with
    | None => (g, a, s, false)
    | Some t =>
        if Tile.state t =? STATE_SPACE.CRYSTALLIZED then (g, a, s, false)
        else if couldBeCandidate g a then
          let t1 := set_state STATE_SPACE.CANDIDATE t in
          let g1 := set_tiles (<[Agent.tile a := t1]> (Grid.tiles g)) g in
          let '(u, s') := random s in
          if Qlt_bool u rho then
            let t2 := set_level LEVEL.HOUSE (set_state STATE_SPACE.CRYSTALLIZED t1) in
            (set_tiles (<[Agent.tile a := t2]> (Grid.tiles g1)) g1,
             Agent.mk (Agent.tile a) false, s', true)
          else (g1, a, s', false)
        else (g, a, s, false)
    end.

(** A service score: a double that may be [Infinity] ([1 / 0]). *)
Inductive Score := Finite (x : Q) | Infinity.

(** The accumulation loop of [Agent.getServiceScore]. *)
Definition serviceSum (g : Grid.t) (tile : Tile.t) : Z :=
  foldl (λ score other,
           if negb (Tile.state other =? STATE_SPACE.CRYSTALLIZED) then score
           else if Tile.level other <? LEVEL.HOUSE then score
           else
             let dist := hexDistance tile other in
             match SERVICE_RANGE (Tile.level other) with
             | Some range => if dist <=? range then score + (range - dist + 1) else score
             | None => score
             end) 0 (Grid.tiles g).

(** [Agent.getServiceScore].  A grid that holds [tile] has a centre tile,
    so the [None] branch is never taken. *)
Definition getServiceScore (g : Grid.t) (tile : Tile.t) : Score :=
  let score := serviceSum g tile in
  if score =? 0 then
    match getTile g (Grid.nCols g / 2) (Grid.nRows g / 2) with
    | Some centerTile =>
        let d := hexDistance tile centerTile.2 in
        if d =? 0 then Infinity else Finite (1 / inject_Z d)
    | None => Finite 0
    end
  else Finite (inject_Z score).

(** The sign test [compare(a, b) > 0] of the comparator
    [(a, b) => b.score - a.score]; [Infinity - Infinity] is [NaN], which
    [sort] reads as [0]. *)
Definition scoreAfter (a b : Score) : bool :=
  match a, b with
  | Finite x, Finite y => Qlt_bool x y
  | Finite _, Infinity => true
  | Infinity, _ => false
  end.

(** [Array.prototype.sort] is stable; for a consistent comparator it
    returns the one stable ordering, computed here by insertion. *)
Fixpoint insertBy {A} (after : A → A → bool) (x : A) (l : list A) : list A :=
  match l with
  | [] => [x]
  | y :: l' => if after x y then y :: insertBy after x l' else x :: l
  end.

Definition sortBy {A} (after : A → A → bool) (l : list A) : list A :=
  foldr (insertBy after) [] l.

(** [Agent.walk]. *)
Definition walk `{Host} (c : Controls) (g : Grid.t) (a : Agent.t) (s : rng)
  : Agent.t * rng :=
  if negb (Agent.alive a) then (a, s)
  else
    match Grid.tiles g !! Agent.tile a with
    | None => (a, s)
    | Some t =>
        let neighbors := getNeighbors g (Tile.q t) (Tile.r t) in
        if (length neighbors =? 0)%nat then (a, s)
        else
          let '(u, s1) := random s in
          if Qlt_bool u (biasedWalkChance c) then
            let scored := (λ n : nat * Tile.t, (n, getServiceScore g n.2)) <$> neighbors in
            match sortBy (λ x y, scoreAfter x.2 y.2) scored with
            | best :: _ => (Agent.mk best.1.1 (Agent.alive a), s1)
            | [] => (a, s1)
            end
          else
            match randomChoice neighbors s1 with
            | (Some n, s2) => (Agent.mk n.1 (Agent.alive a), s2)
            | (None, s2) => (a, s2)
            end
    end.

(** ** Grid *)

(** The pushes of [Grid._getRandomEdgeTile], before its [filter]. *)
Definition edgeSlots (g : Grid.t) : list (option (nat * Tile.t)) :=
  (seqZ 0 (Grid.nCols g) ≫= λ q, [getTile g q 0; getTile g q (Grid.nRows g - 1)])
  ++ (seqZ 1 (Grid.nRows g - 2) ≫= λ r, [getTile g 0 r; getTile g (Grid.nCols g - 1) r]).

Definition edgeTiles (g : Grid.t) : list (nat * Tile.t) := omap id (edgeSlots g).

(** [Grid._getRandomEdgeTile]. *)
Definition _getRandomEdgeTile `{Host} (g : Grid.t) (s : rng)
  : option (nat * Tile.t) * rng :=
  randomChoice (edgeTiles g) s.

(** [Grid.spawnAgent]: the grid, the returned agent (or [null]) and the
    generator. *)
Definition spawnAgent `{Host} (g : Grid.t) (s : rng)
  : Grid.t * option Agent.t * rng :=
  let '(edge, s') := _getRandomEdgeTile g s in
  match edge with
  | Some e =>
      if negb (Tile.state e.2 =? STATE_SPACE.CRYSTALLIZED) then
        let agent := Agent.mk e.1 true in
        (set_agents (Grid.agents g ++ [agent]) g, Some agent, s')
      else (g, None, s')
  | None => (g, None, s')
  end.

(** [Grid.seedCenter]. *)
Definition seedCenter (g : Grid.t) : Grid.t :=
  match getTile g (Grid.nCols g / 2) (Grid.nRows g / 2) with
  | Some centerTile =>
      set_tiles
        (<[centerTile.1 :=
             set_level LEVEL.HOUSE (set_state STATE_SPACE.CRYSTALLIZED centerTile.2)]>
           (Grid.tiles g)) g
  | None => g
  end.

(** One iteration of the apply loops of [evolveAll] and [decayPass]:
    [tile.setTargetLevel(target(tile))] on the tile behind reference [i]. *)
Definition retarget `{Host} (target : Tile.t → option Z)
  (acc : Grid.t * clock) (i : nat) : Grid.t * clock :=
  match Grid.tiles acc.1 !! i with
  | Some tile =>
      match target tile with
      | Some newLevel =>
          let '(tile', k') := setTargetLevel newLevel tile acc.2 in
          (set_tiles (<[i := tile']> (Grid.tiles acc.1)) acc.1, k')
      | None => acc
      end
  | None => acc
  end.

(** [EVOLUTION[tile.level].next]. *)
Definition promoteTarget (tile : Tile.t) : option Z :=
  next <$> EVOLUTION (Tile.level tile).

(** The [filter] of [Grid.evolveAll]. *)
Definition toEvolve (c : Controls) (g : Grid.t) : list (nat * Tile.t) :=
  filter (λ t : nat * Tile.t, Qle_bool 1 (Tile.morphProgress t.2) && canPromote c g t)
    (indexed g).

(** [Grid.evolveAll]: the grid, the clock and the count [evolved]. *)
Definition evolveAll `{Host} (c : Controls) (g : Grid.t) (k : clock)
  : Grid.t * clock * Z :=
  let l := toEvolve c g in
  (foldl (retarget promoteTarget) (g, k) (fst <$> l), Z.of_nat (length l)).

(** [Grid.canDieFromCompetition(tile, grid)]. *)
Definition canDieFromCompetition (g : Grid.t) (tile : nat * Tile.t) : bool :=
  let range := SERVICE_RANGE (Tile.level tile.2) in
  let competitors :=
    filter (λ t : nat * Tile.t,
              negb (t.1 =? tile.1)%nat && (Tile.level t.2 =? Tile.level tile.2))
      (getTilesInRange g (Tile.q tile.2) (Tile.r tile.2) range) in
  gtZ_opt (Z.of_nat (length competitors)) (MAX_COMPETITORS (Tile.level tile.2)).

(** [Grid.isServedBy]. *)
Definition isServedBy (g : Grid.t) (tile : nat * Tile.t) : bool :=
  if Tile.level tile.2 >=? LEVEL.FACTORY then negb (canDieFromCompetition g tile)
  else
    existsb (λ other : nat * Tile.t,
               negb (other.1 =? tile.1)%nat
               && (Tile.state other.2 =? STATE_SPACE.CRYSTALLIZED)
               && negb (Tile.level other.2 <=? Tile.level tile.2)
               && leZ_opt (hexDistance tile.2 other.2)
                    (SERVICE_RANGE (Tile.level other.2))) (indexed g).

(** The number of tiles whose state is not EMPTY. *)
Definition nonEmptyCount (g : Grid.t) : Z :=
  Z.of_nat (length (filter (λ t, negb (Tile.state t =? STATE_SPACE.EMPTY)) (Grid.tiles g))).

(** One iteration of the collecting loop of [decayPass]. *)
Definition decayScan `{Host} (c : Controls) (g : Grid.t)
  (acc : list nat * rng) (tile : nat * Tile.t) : list nat * rng :=
  if negb (Tile.state tile.2 =? STATE_SPACE.CRYSTALLIZED) then acc
  else if Qlt_bool (Tile.morphProgress tile.2) 1 then acc
  else if negb (isServedBy g tile) then
    let '(u, s') := random acc.2 in
    if Qlt_bool u (decayProb c) then (acc.1 ++ [tile.1], s') else (acc.1, s')
  else acc.

(** The level a demoted tile morphs to. *)
Definition demoteTarget (tile : Tile.t) : option Z :=
  let newLevel := Tile.level tile - 1 in
  if newLevel <? LEVEL.HOUSE then Some LEVEL.EMPTY else Some newLevel.

(** The body of [Grid.decayPass] after its early return. *)
Definition decayBody `{Host} (c : Controls) (g : Grid.t) (s : rng) (k : clock)
  : Grid.t * rng * clock * option Z :=
  let '(toDemote, s') := foldl (decayScan c g) ([], s) (indexed g) in
  let '(g', k') := foldl (retarget demoteTarget) (g, k) toDemote in
  (g', s', k', Some (Z.of_nat (length toDemote))).

(** [Grid.decayPass]; the result [None] is the [undefined] of the early
    return. *)
Definition decayPass `{Host} (c : Controls) (g : Grid.t) (s : rng) (k : clock)
  : Grid.t * rng * clock * option Z :=
  if nonEmptyCount g <=? 10 then (g, s, k, None)
  else decayBody c g s k.

(** ** The frame loop *)

(** A loop over a list that threads a state through its iterations. *)
Fixpoint forEach {S A B} (f : A → S → B * S) (l : list A) (s : S) : list B * S :=
  match l with
  | [] => ([], s)
  | x :: l' =>
      let '(y, s1) := f x s in
      let '(ys, s2) := forEach f l' s1 in
      (y :: ys, s2)
  end.

(** What [draw] reads and writes: the grid, the generator, the clock and
    p5's [frameCount]. *)
Record World `{Host} := mkWorld {
  grid : Grid.t;
  gen : rng;
  clk : clock;
  frameCount : Z
}.
Arguments mkWorld {_} _ _ _ _.

(** [frameCount % rate === 0]; a zero [rate] gives [NaN], which is not [0]. *)
Definition cadence (frameCount rate : Z) : bool :=
  if rate =? 0 then false else Z.rem frameCount rate =? 0.

(** The body of the agent loop of [draw]: [walk] then [aggregate]. *)
Definition agentStep `{Host} (c : Controls) (agent : Agent.t) (st : Grid.t * rng)
  : Agent.t * (Grid.t * rng) :=
  let '(a1, s1) := walk c st.1 agent st.2 in
  let '(g2, a2, s2, _) := aggregate (stickingProb c) st.1 a1 s1 in
  (a2, (g2, s2)).

Definition updateAgents `{Host} (c : Controls) (g : Grid.t) (s : rng) : Grid.t * rng :=
  let '(agents', (g', s')) := forEach (agentStep c) (Grid.agents g) (g, s) in
  (set_agents agents' g', s').

(** [grid.agents = grid.agents.filter((a) => a.alive)]. *)
Definition removeDead (g : Grid.t) : Grid.t :=
  set_agents (filter (λ a, Agent.alive a) (Grid.agents g)) g.

(** The loop [for (const tile of grid.tiles) tile.updateMorphing()]. *)
Definition updateAllMorphing `{Host} (g : Grid.t) (k : clock) : Grid.t * clock :=
  let '(ts, k') := forEach updateMorphing (Grid.tiles g) k in
  (set_tiles ts g, k').

(** The spawn step of [draw]. *)
Definition spawnPhase `{Host} (c : Controls) (fc : Z) (g : Grid.t) (s : rng)
  : Grid.t * rng :=
  if cadence fc (spawnRate c) && (Z.of_nat (length (Grid.agents g)) <? maxAgents c)
  then let '(g', _, s') := spawnAgent g s in (g', s')
  else (g, s).

(** The evolution step of [draw]. *)
Definition evolvePhase `{Host} (c : Controls) (fc : Z) (g : Grid.t) (k : clock)
  : Grid.t * clock :=
  if cadence fc (evolveRate c) then (evolveAll c g k).1 else (g, k).

(** The decay step of [draw]. *)
Definition decayPhase `{Host} (c : Controls) (fc : Z) (g : Grid.t) (s : rng)
  (k : clock) : Grid.t * rng * clock :=
  if cadence fc (decayRate c) then (decayPass c g s k).1 else (g, s, k).

(** The simulation part of [draw]. *)
Definition draw `{Host} (c : Controls) (w : World) : World :=
  if paused c then w
  else
    let fc := frameCount w in
    let '(g1, s1) := spawnPhase c fc (grid w) (gen w) in
    let '(g2, s2) := updateAgents c g1 s1 in
    let g3 := removeDead g2 in
    let '(g4, k4) := evolvePhase c fc g3 (clk w) in
    let '(g5, s5, k5) := decayPhase c fc g4 s2 k4 in
    let '(g6, k6) := updateAllMorphing g5 k5 in
    mkWorld g6 s5 k6 fc.

(** One frame of the host: p5 increments [frameCount], then calls [draw]. *)
Definition frame `{Host} (c : Controls) (w : World) : World :=
  draw c (mkWorld (grid w) (gen w) (clk w) (frameCount w + 1)).

Fixpoint run `{Host} (c : Controls) (n : nat) (w : World) : World :=
  match n with
  | O => w
  | S n' => run c n' (frame c w)
  end.

(** The Reset handler for the seed [newSeed]: it re-seeds the generator and
    rebuilds the grid from the globals [rows] and [cols]; the frame counter
    and the clock keep running. *)
Definition reset `{Host} (rows cols : Z) (newSeed : Z) (w : World) : World :=
  mkWorld (seedCenter (newGrid rows cols)) (randomSeed newSeed) (clk w) (frameCount w).

(** What a tile shows to an observer of the simulation. *)
Definition tileSnapshot (t : Tile.t) : Z * Z * Z * Q :=
  (Tile.state t, Tile.level t, Tile.targetLevel t, Tile.morphProgress t).

Definition snapshot (g : Grid.t) : list (Z * Z * Z * Q) :=
  tileSnapshot <$> Grid.tiles g.

(** ** Engine operations, one at a time *)

Inductive Op :=
| OpSeedCenter
| OpSpawn
| OpWalk (i : nat)
| OpAggregate (i : nat)
| OpEvolve
| OpDecay
| OpMorph.

(** [OpWalk i] and [OpAggregate i] act on the [i]-th active agent. *)
Definition applyOp `{Host} (c : Controls) (op : Op) (w : World) : World :=
  let g := grid w in
  match op with
  | OpSeedCenter => mkWorld (seedCenter g) (gen w) (clk w) (frameCount w)
  | OpSpawn =>
      let '(g', _, s') := spawnAgent g (gen w) in
      mkWorld g' s' (clk w) (frameCount w)
  | OpWalk i =>
      match Grid.agents g !! i with
      | Some a =>
          let '(a', s') := walk c g a (gen w) in
          mkWorld (set_agents (<[i := a']> (Grid.agents g)) g) s' (clk w) (frameCount w)
      | None => w
      end
  | OpAggregate i =>
      match Grid.agents g !! i with
      | Some a =>
          let '(g', a', s', _) := aggregate (stickingProb c) g a (gen w) in
          mkWorld (set_agents (<[i := a']> (Grid.agents g')) g') s' (clk w) (frameCount w)
      | None => w
      end
  | OpEvolve =>
      let '(g', k', _) := evolveAll c g (clk w) in
      mkWorld g' (gen w) k' (frameCount w)
  | OpDecay =>
      let '(g', s', k', _) := decayPass c g (gen w) (clk w) in
      mkWorld g' s' k' (frameCount w)
  | OpMorph =>
      let '(g', k') := updateAllMorphing g (clk w) in
      mkWorld g' (gen w) k' (frameCount w)
  end.

(** A sequence of engine operations. *)
Definition runOps `{Host} (c : Controls) (ops : list Op) (w : World) : World :=
  foldl (λ w op, applyOp c op w) w ops.

(** ** A concrete host

    The linear congruential generator documented by p5 (modulus 2^32,
    multiplier 1664525, increment 1013904223) and a clock that advances
    by a fixed step at every reading; a clock state is the pair of the
    current time and the step. *)

Definition lcgNext (z : Z) : Z := (1664525 * z + 1013904223) mod 4294967296.

Definition lcgRandom (z : Z) : Q * Z :=
  let z' := lcgNext z in (z' # 4294967296, z').

Definition stepMillis (k : Q * Q) : Q * (Q * Q) :=
  (k.1, (Qred (k.1 + k.2), k.2)).

#[export] Instance lcgHost : Host := {|
  rng := Z;
  randomSeed := λ seed, seed mod 4294967296;
  random := lcgRandom;
  clock := Q * Q;
  millis := stepMillis
|}.

(** [setup]: seed the generator from [controls.seed], build the grid and
    seed its centre; p5 starts [frameCount] at 0. *)
Definition setup `{Host} (c : Controls) (rows cols : Z) (k : clock) : World :=
  mkWorld (seedCenter (newGrid rows cols)) (randomSeed (seed c)) k 0.

(** ** What an operation may do to one tile *)

(** The domain of a tile: level and morph target between EMPTY and FACTORY,
    state between EMPTY and CRYSTALLIZED. *)
Definition tile_dom (t : Tile.t) : Prop :=
  LEVEL.EMPTY <= Tile.level t <= LEVEL.FACTORY
  ∧ LEVEL.EMPTY <= Tile.targetLevel t <= LEVEL.FACTORY
  ∧ STATE_SPACE.EMPTY <= Tile.state t <= STATE_SPACE.CRYSTALLIZED.

Definition grid_dom (g : Grid.t) : Prop := Forall tile_dom (Grid.tiles g).

(** The tile a morph leaves when it starts: [targetLevel], a zero
    [morphProgress] and the clock reading [now]. *)
Definition morphTo (newLevel : Z) (now : Q) (t : Tile.t) : Tile.t :=
  Tile.mk (Tile.q t) (Tile.r t) (Tile.state t) (Tile.level t) newLevel
    0%Q (Tile.morphDuration t) now.

(** [tile_step op t t']: operation [op] may turn tile [t] into [t']. *)
Inductive tile_step : Op → Tile.t → Tile.t → Prop :=
| step_same op t : tile_step op t t
| step_seed t :
    tile_step OpSeedCenter t
      (set_level LEVEL.HOUSE (set_state STATE_SPACE.CRYSTALLIZED t))
| step_candidate i t :
    Tile.state t ≠ STATE_SPACE.CRYSTALLIZED →
    tile_step (OpAggregate i) t (set_state STATE_SPACE.CANDIDATE t)
| step_stick i t :
    Tile.state t ≠ STATE_SPACE.CRYSTALLIZED →
    tile_step (OpAggregate i) t
      (set_level LEVEL.HOUSE (set_state STATE_SPACE.CRYSTALLIZED t))
| step_promote t config now :
    EVOLUTION (Tile.level t) = Some config →
    tile_step OpEvolve t (morphTo (next config) now t)
| step_demote t newLevel now :
    demoteTarget t = Some newLevel →
    tile_step OpDecay t (morphTo newLevel now t)
| step_advance t p :
    ¬ (1 <= Tile.morphProgress t)%Q → ¬ (1 <= p)%Q →
    tile_step OpMorph t (set_morphProgress p t)
| step_complete t p :
    ¬ (1 <= Tile.morphProgress t)%Q → (1 <= p)%Q →
    Tile.targetLevel t ≠ LEVEL.EMPTY →
    tile_step OpMorph t (set_level (Tile.targetLevel t) (set_morphProgress p t))
| step_vanish t p :
    ¬ (1 <= Tile.morphProgress t)%Q → (1 <= p)%Q →
    Tile.targetLevel t = LEVEL.EMPTY →
    tile_step OpMorph t
      (set_state STATE_SPACE.EMPTY
         (set_level (Tile.targetLevel t) (set_morphProgress p t))).

(** The test of the collecting loop of [decayPass]: a Crystallized tile
    that is not morphing and is not served. *)
Definition starving (g : Grid.t) (tile : nat * Tile.t) : bool :=
  (Tile.state tile.2 =? STATE_SPACE.CRYSTALLIZED)
  && negb (Qlt_bool (Tile.morphProgress tile.2) 1)
  && negb (isServedBy g tile).

(** [same_readings R]: two clocks related by [R] give the same reading and
    stay related, so they give the same readings for ever. *)
Definition same_readings `{Host} (R : clock → clock → Prop) : Prop :=
  ∀ k1 k2, R k1 k2 →
           (millis k1).1 = (millis k2).1 ∧ R (millis k1).2 (millis k2).2.

(** ** Example inputs *)

(** The initial value of the global [controls]. *)
Definition controls : Controls :=
  mkControls 2 50 (7 # 10) 15 (1 # 2) (3 # 10) false 20 (505 # 1000) 42.

(** A grid on which the tile behind reference [i] has been crystallized
    into a house, as a successful [aggregate] leaves it. *)
Definition houseAt (i : nat) (g : Grid.t) : Grid.t :=
  match Grid.tiles g !! i with
  | Some t =>
      set_tiles
        (<[i := set_level LEVEL.HOUSE (set_state STATE_SPACE.CRYSTALLIZED t)]>
           (Grid.tiles g)) g
  | None => g
  end.

(** A 3x3 grid whose centre house has two neighbouring houses. *)
Definition threeHouses : Grid.t := houseAt 3 (houseAt 1 (seedCenter (newGrid 3 3))).

(** A 4x4 grid whose first [n] tiles are houses. *)
Definition houses (n : nat) : Grid.t := foldr houseAt (newGrid 4 4) (seq 0 n).

(** The sketch started on a 3x3 grid with a clock that advances by [step]
    milliseconds per reading. *)
Definition startWorld (step : Q) : World :=
  @setup lcgHost controls 3 3 (0%Q, step).

(** The same sketch reset with seed 42. *)
Definition smallWorld (step : Q) : World := reset 3 3 42 (startWorld step).

(** The 3x3 sketch nine frames after its reset. *)
Definition stuckWorld : World := run controls 9 (smallWorld 16).

(** A live agent standing next to the seeded centre of a 3x3 grid. *)
Definition arrivalWorld : World :=
  mkWorld (set_agents [Agent.mk 1 true] (seedCenter (newGrid 3 3)))
    (randomSeed 42) (0%Q, 16%Q) 0.

(** The 3x3 sketch reset with seed 42 one frame after [setup]: the frame
    counter is 1 at the reset, the clock has not been read. *)
Definition lateWorld (step : Q) : World :=
  reset 3 3 42 (frame controls (startWorld step)).

(** ** Code without a caller *)

(** [Agent.promote] (no caller in the sketch): the grid and the returned
    value; [None] is the [undefined] of falling off the end. *)
Definition promote (c : Controls) (g : Grid.t) (a : Agent.t)
  : Grid.t * option bool :=
  if negb (Agent.alive a) then (g, Some false)
  else
    match Grid.tiles g !! Agent.tile a with
    | None => (g, Some false)
    | Some t =>
        if negb (Tile.state t =? STATE_SPACE.CRYSTALLIZED) then (g, Some false)
        else if canPromote c g (Agent.tile a, t) then
          match EVOLUTION (Tile.level t) with
          | Some config =>
              (set_tiles (<[Agent.tile a := set_level (next config) t]> (Grid.tiles g)) g,
               None)
          | None => (g, None)
          end
        else (g, None)
    end.

(** JavaScript's [n | 0] on a number: truncate toward zero, then wrap to a
    signed 32-bit integer. *)
Definition toInt32 (x : Q) : Z :=
  let n := if Qle_bool 0 x then Qfloor x else Qceiling x in
  (n + 2147483648) mod 4294967296 - 2147483648.

(** [Tile.init]: [this.state = int(random(2))], where p5's [random(max)]
    is [random() * max] and [int] of a number is [n | 0]. *)
Definition initTile `{Host} (t : Tile.t) (s : rng) : Tile.t * rng :=
  let '(u, s') := random s in (set_state (toInt32 (u * 2)) t, s').

(** [Grid.init] (no caller in the sketch). *)
Definition init `{Host} (g : Grid.t) (s : rng) : Grid.t * rng :=
  let '(ts, s') := forEach initTile (Grid.tiles g) s in (set_tiles ts g, s').

(** ** Vocabulary of the further properties *)

(** The centre tile as [seedCenter] leaves it. *)
Definition seeded (t : Tile.t) : Tile.t :=
  set_level LEVEL.HOUSE (set_state STATE_SPACE.CRYSTALLIZED t).

(** [other] contributes to the service score of [tile]: the test of the
    loop of [getServiceScore]. *)
Definition serves (tile other : Tile.t) : Prop :=
  Tile.state other = STATE_SPACE.CRYSTALLIZED
  ∧ LEVEL.HOUSE <= Tile.level other
  ∧ ∃ ρ, SERVICE_RANGE (Tile.level other) = Some ρ ∧ hexDistance tile other <= ρ.

(** A tile is coherent when its fields agree with one another: the level
    and the morph target are levels, a tile holds a building exactly when
    it is Crystallized, only a Crystallized tile morphs, and the morph
    duration is the constructor's. *)
Definition coherent (t : Tile.t) : Prop :=
  tile_dom t
  ∧ (Tile.state t = STATE_SPACE.CRYSTALLIZED ↔ LEVEL.HOUSE <= Tile.level t)
  ∧ (¬ (1 <= Tile.morphProgress t)%Q → Tile.state t = STATE_SPACE.CRYSTALLIZED)
  ∧ Tile.morphDuration t = 1000%Q.

(** Two tiles show the same building: same coordinates, state and level.
    [canPromote] reads nothing else of a tile. *)
Definition same_building (t t' : Tile.t) : Prop :=
  coords t = coords t' ∧ Tile.state t = Tile.state t' ∧ Tile.level t = Tile.level t'.

(** Two grids show the same buildings tile by tile. *)
Definition same_buildings (g g' : Grid.t) : Prop :=
  dims g = dims g' ∧ Forall2 same_building (Grid.tiles g) (Grid.tiles g').

(** The agent's [tile] denotes a tile of the grid. *)
Definition agent_ok (g : Grid.t) (a : Agent.t) : Prop :=
  (Agent.tile a < length (Grid.tiles g))%nat.

(** The agent list between two frames: every agent is alive and stands on
    a tile of the grid, and the list is no longer than
    [controls.maxAgents]. *)
Definition agents_ok (c : Controls) (g : Grid.t) : Prop :=
  Forall (λ a, Agent.alive a = true ∧ agent_ok g a) (Grid.agents g)
  ∧ Z.of_nat (length (Grid.agents g)) <= Z.max 0 (maxAgents c).

(** A grid on which the tile behind reference [i] is a Crystallized
    factory. *)
Definition factoryAt (i : nat) (g : Grid.t) : Grid.t :=
  match Grid.tiles g !! i with
  | Some t =>
      set_tiles
        (<[i := set_level LEVEL.FACTORY (set_state STATE_SPACE.CRYSTALLIZED t)]>
           (Grid.tiles g)) g
  | None => g
  end.

(** A 3x3 grid with factories in two opposite corners. *)
Definition twoFactories : Grid.t := factoryAt 8 (factoryAt 0 (newGrid 3 3)).

(** A 3x3 sketch whose centre house is at the start of a morph to SHOP. *)
Definition morphingWorld : World :=
  @mkWorld lcgHost
    (set_tiles (<[4%nat := morphTo 2 0 (seeded (newTile 1 1))]>
                  (Grid.tiles (newGrid 3 3))) (newGrid 3 3))
    42 (0%Q, 16%Q) 0.

(** * Properties *)

(** ** Geometry *)

Lemma land_1_mod q : Z.land q 1 = q mod 2.
Proof. change 1 with (Z.ones 1). rewrite Z.land_ones by lia. reflexivity. Qed.

Lemma offsetToCube_z q r : cz (offsetToCube q r) = r - q / 2.
Proof.
  unfold offsetToCube; simpl. rewrite land_1_mod.
  replace (q - q mod 2) with (q / 2 * 2)
    by (pose proof (Z.div_mod q 2 ltac:(lia)); lia).
  by rewrite Z.div_mul.
Qed.

Lemma createTiles_lookup nRows nCols q r :
  0 <= q < nCols → 0 <= r < nRows →
  createTiles nRows nCols !! Z.to_nat (r * nCols + q) = Some (newTile q r).
Proof.
  intros Hq Hr. unfold createTiles.
  replace (Z.to_nat (r * nCols + q))
    with (Z.to_nat r * Z.to_nat nCols + Z.to_nat q)%nat by lia.
  apply join_lookup_Some_same_length'.
  - apply Forall_fmap, Forall_forall. intros x _. simpl.
    by rewrite length_fmap, length_seqZ.
  - lia.
  - eexists. split.
    + rewrite list_lookup_fmap, lookup_seqZ_lt by lia. simpl. reflexivity.
    + rewrite list_lookup_fmap, lookup_seqZ_lt by lia. simpl.
      f_equal. f_equal; lia.
Qed.

Lemma wf_lookup g q r :
  wf_grid g → in_bounds g q r →
  ∃ t, Grid.tiles g !! Z.to_nat (r * Grid.nCols g + q) = Some t
       ∧ Tile.q t = q ∧ Tile.r t = r.
Proof.
  intros Hwf [Hq Hr]. unfold wf_grid in Hwf.
  pose proof (f_equal (λ l, l !! Z.to_nat (r * Grid.nCols g + q)) Hwf) as E.
  simpl in E. rewrite !list_lookup_fmap, createTiles_lookup in E by done.
  destruct (Grid.tiles g !! _) as [t|]; [|done].
  exists t. simpl in E. injection E as E1 E2. done.
Qed.

Lemma getTile_None g q r : ¬ in_bounds g q r → getTile g q r = None.
Proof.
  unfold in_bounds, getTile. intros Hn.
  destruct (_ || _) eqn:E; [done|].
  exfalso. apply Hn. 
  apply orb_false_iff in E as [E E4]. apply orb_false_iff in E as [E E3].
  apply orb_false_iff in E as [E1 E2]. lia.
Qed.

Lemma getTile_Some_inv g q r it :
  getTile g q r = Some it →
  in_bounds g q r ∧ it.1 = Z.to_nat (r * Grid.nCols g + q)
  ∧ Grid.tiles g !! it.1 = Some it.2.
Proof.
  unfold getTile, in_bounds. destruct (_ || _) eqn:E; [done|].
  apply orb_false_iff in E as [E E4]. apply orb_false_iff in E as [E E3].
  apply orb_false_iff in E as [E1 E2].
  destruct (Grid.tiles g !! _) as [t|] eqn:Ht; [|done].
  simpl. intros [= <-]. simpl. split; [lia|done].
Qed.

Lemma getTile_in_bounds g q r :
  wf_grid g → in_bounds g q r →
  ∃ t, getTile g q r = Some (Z.to_nat (r * Grid.nCols g + q), t)
       ∧ Grid.tiles g !! Z.to_nat (r * Grid.nCols g + q) = Some t
       ∧ Tile.q t = q ∧ Tile.r t = r.
Proof.
  intros Hwf Hb. destruct (wf_lookup g q r Hwf Hb) as (t & Ht & Hq & Hr).
  exists t. split_and!; try done.
  unfold getTile. destruct Hb as [Hb1 Hb2].
  destruct (_ || _) eqn:E.
  - repeat (apply orb_true_iff in E as [E|E]); lia.
  - by rewrite Ht.
Qed.

Lemma getTile_coords g q r it :
  wf_grid g → getTile g q r = Some it → Tile.q it.2 = q ∧ Tile.r it.2 = r.
Proof.
  intros Hwf H. pose proof H as H'. apply getTile_Some_inv in H' as (Hb & _ & _).
  destruct (getTile_in_bounds g q r Hwf Hb) as (t & Ht & _ & ? & ?).
  rewrite Ht in H. by injection H as <-.
Qed.

Lemma offsetToCube_eq q r :
  offsetToCube q r = mkCube q (- q - (r - q / 2)) (r - q / 2).
Proof.
  pose proof (offsetToCube_z q r) as Hz.
  unfold offsetToCube in *. simpl in *. by rewrite Hz.
Qed.

Lemma hexDistance_eq a b :
  hexDistance a b =
  Z.max (Z.max (Z.abs (Tile.q a - Tile.q b))
               (Z.abs ((- Tile.q a - (Tile.r a - Tile.q a / 2))
                       - (- Tile.q b - (Tile.r b - Tile.q b / 2)))))
        (Z.abs ((Tile.r a - Tile.q a / 2) - (Tile.r b - Tile.q b / 2))).
Proof. unfold hexDistance. by rewrite !offsetToCube_eq. Qed.

Lemma hexDistance_refl a : hexDistance a a = 0.
Proof. rewrite hexDistance_eq. lia. Qed.

Lemma hexDistance_sym a b : hexDistance a b = hexDistance b a.
Proof. rewrite !hexDistance_eq. lia. Qed.

Lemma hexDistance_triangle a b c :
  hexDistance a c <= hexDistance a b + hexDistance b c.
Proof.
  rewrite !hexDistance_eq.
  generalize (Tile.r a - Tile.q a / 2); intros za.
  generalize (Tile.r b - Tile.q b / 2); intros zb.
  generalize (Tile.r c - Tile.q c / 2); intros zc.
  generalize (Tile.q a) (Tile.q b) (Tile.q c); intros xa xb xc.
  set (dab := Z.max (Z.max (Z.abs (xa - xb)) _) _).
  set (dbc := Z.max (Z.max (Z.abs (xb - xc)) _) _).
  assert (Z.abs (xa - xb) <= dab ∧ Z.abs (- xa - za - (- xb - zb)) <= dab
          ∧ Z.abs (za - zb) <= dab) as (? & ? & ?) by (unfold dab; lia).
  assert (Z.abs (xb - xc) <= dbc ∧ Z.abs (- xb - zb - (- xc - zc)) <= dbc
          ∧ Z.abs (zb - zc) <= dbc) as (? & ? & ?) by (unfold dbc; lia).
  clearbody dab dbc.
  repeat apply Z.max_lub; lia.
Qed.

Lemma isOddCol_mod q : 0 <= q → isOddCol q = (q mod 2 =? 1).
Proof. intros. unfold isOddCol. by rewrite Z.rem_mod_nonneg by lia. Qed.

Lemma direction_distance a b d :
  0 <= Tile.q a → d ∈ directions (Tile.q a) →
  Tile.q b = Tile.q a + d.1 → Tile.r b = Tile.r a + d.2 →
  hexDistance a b = 1.
Proof.
  intros Hq Hd Hbq Hbr. rewrite hexDistance_eq, Hbq, Hbr.
  unfold directions in Hd. rewrite isOddCol_mod in Hd by done.
  destruct (Z.eqb_spec (Tile.q a mod 2) 1) as [Ho|He];
    unfold oddDirections, evenDirections in Hd;
    repeat (apply elem_of_cons in Hd as [->|Hd]); try (by apply elem_of_nil in Hd);
    simpl; Z.to_euclidean_division_equations; lia.
Qed.

Lemma isOddCol_odd q : 0 <= q → isOddCol q = Z.odd q.
Proof.
  intros. rewrite isOddCol_mod by done. rewrite Zmod_odd.
  by destruct (Z.odd q).
Qed.

Lemma omap_id_filter {A} (l : list (option A)) :
  Some <$> omap id l = filter is_Some l.
Proof.
  induction l as [|[x|] l IH]; csimpl; [done| |].
  - rewrite filter_cons_True by (by eexists). by rewrite <- IH.
  - rewrite filter_cons_False by (by intros [? ?]). done.
Qed.

Lemma getNeighbors_elem g q r n :
  n ∈ getNeighbors g q r →
  ∃ d, d ∈ directions q ∧ getTile g (q + d.1) (r + d.2) = Some n.
Proof.
  unfold getNeighbors, neighborSlots. rewrite list_elem_of_omap.
  intros (o & Ho & Heq). unfold id in Heq. subst o.
  apply list_elem_of_fmap in Ho as (d & Hg & Hd). eauto.
Qed.

Lemma omap_id_length {A} (l : list (option A)) :
  (length (omap id l) <= length l)%nat.
Proof. induction l as [|[x|] l IH]; csimpl; lia. Qed.

Lemma getNeighbors_length g q r : (length (getNeighbors g q r) <= 6)%nat.
Proof.
  unfold getNeighbors. etrans; [apply omap_id_length|].
  unfold neighborSlots, directions. rewrite length_fmap.
  by destruct (isOddCol q).
Qed.

(** ** The claims about the grid *)

(** C8: [hexDistance], the Chebyshev distance of the cube coordinates
    [x = q], [z = r - (q - (q & 1)) / 2], [y = -x - z], is zero from a tile
    to itself, symmetric, and satisfies the triangle inequality. *)
Theorem hexDistance_metric (a b c : Tile.t) :
  hexDistance a a = 0
  ∧ hexDistance a b = hexDistance b a
  ∧ hexDistance a c <= hexDistance a b + hexDistance b c.
Proof.
  split_and!.
  - apply hexDistance_refl.
  - apply hexDistance_sym.
  - apply hexDistance_triangle.
Qed.

(** C7: for an in-bounds coordinate [(q, r)], [getNeighbors] returns at most
    six tiles; each of them lies inside the grid, is obtained from [(q, r)]
    by a direction of the table chosen by the parity of [q], and is at hex
    distance exactly 1 from the tile at [(q, r)]. *)
Theorem getNeighbors_adjacent (g : Grid.t) (q r : Z) :
  wf_grid g → in_bounds g q r →
  ∃ center, getTile g q r = Some center
  ∧ (length (getNeighbors g q r) <= 6)%nat
  ∧ directions q = (if Z.odd q then oddDirections else evenDirections)
  ∧ ∀ n, n ∈ getNeighbors g q r →
      in_bounds g (Tile.q n.2) (Tile.r n.2)
      ∧ (∃ d, d ∈ directions q ∧ Tile.q n.2 = q + d.1 ∧ Tile.r n.2 = r + d.2)
      ∧ hexDistance center.2 n.2 = 1.
Proof.
  intros Hwf Hb.
  destruct (getTile_in_bounds g q r Hwf Hb) as (t & Ht & _ & Hq & Hr).
  eexists. split; [exact Ht|]. split; [apply getNeighbors_length|].
  split.
  { unfold directions. rewrite isOddCol_odd; [done|]. destruct Hb; lia. }
  intros n Hn. apply getNeighbors_elem in Hn as (d & Hd & Hg).
  destruct (getTile_coords _ _ _ _ Hwf Hg) as [Hnq Hnr].
  apply getTile_Some_inv in Hg as (Hnb & _ & _).
  split; [by rewrite Hnq, Hnr|]. split; [by eauto|].
  simpl. apply (direction_distance t n.2 d).
  - rewrite Hq. destruct Hb; lia.
  - by rewrite Hq.
  - by rewrite Hq.
  - by rewrite Hr.
Qed.

Lemma getNeighbors_adjacent_witness :
  wf_grid (newGrid 3 3) ∧ in_bounds (newGrid 3 3) 1 1
  ∧ ∃ center, getTile (newGrid 3 3) 1 1 = Some center
    ∧ (length (getNeighbors (newGrid 3 3) 1 1) <= 6)%nat
    ∧ directions 1 = (if Z.odd 1 then oddDirections else evenDirections)
    ∧ ∀ n, n ∈ getNeighbors (newGrid 3 3) 1 1 →
        in_bounds (newGrid 3 3) (Tile.q n.2) (Tile.r n.2)
        ∧ (∃ d, d ∈ directions 1 ∧ Tile.q n.2 = 1 + d.1 ∧ Tile.r n.2 = 1 + d.2)
        ∧ hexDistance center.2 n.2 = 1.
Proof.
  assert (wf_grid (newGrid 3 3)) as Hwf by reflexivity.
  assert (in_bounds (newGrid 3 3) 1 1) as Hb by (unfold in_bounds; simpl; lia).
  split; [exact Hwf|]. split; [exact Hb|].
  exact (getNeighbors_adjacent (newGrid 3 3) 1 1 Hwf Hb).
Defined.

(** C9: [getTile] is total: inside the bounds it returns the tile whose
    coordinates are [(q, r)], outside it returns the absent value; the
    neighbour list is the list of the present lookups and each of its
    entries is a tile of the grid. *)
Theorem getTile_total (g : Grid.t) (q r : Z) :
  wf_grid g →
  (in_bounds g q r →
     ∃ i t, getTile g q r = Some (i, t) ∧ Grid.tiles g !! i = Some t
            ∧ Tile.q t = q ∧ Tile.r t = r)
  ∧ (¬ in_bounds g q r → getTile g q r = None)
  ∧ Some <$> getNeighbors g q r = filter is_Some (neighborSlots g q r)
  ∧ (∀ n, n ∈ getNeighbors g q r → Grid.tiles g !! n.1 = Some n.2).
Proof.
  intros Hwf. split_and!.
  - intros Hb. destruct (getTile_in_bounds g q r Hwf Hb) as (t & ? & ? & ? & ?).
    eauto 10.
  - apply getTile_None.
  - apply omap_id_filter.
  - intros n Hn. apply getNeighbors_elem in Hn as (d & _ & Hg).
    by apply getTile_Some_inv in Hg as (_ & _ & ?).
Qed.

Lemma getTile_total_witness :
  wf_grid (newGrid 2 3)
  ∧ (in_bounds (newGrid 2 3) 2 1 →
       ∃ i t, getTile (newGrid 2 3) 2 1 = Some (i, t)
              ∧ Grid.tiles (newGrid 2 3) !! i = Some t
              ∧ Tile.q t = 2 ∧ Tile.r t = 1)
  ∧ (¬ in_bounds (newGrid 2 3) 2 1 → getTile (newGrid 2 3) 2 1 = None)
  ∧ Some <$> getNeighbors (newGrid 2 3) 2 1
    = filter is_Some (neighborSlots (newGrid 2 3) 2 1)
  ∧ (∀ n, n ∈ getNeighbors (newGrid 2 3) 2 1 →
       Grid.tiles (newGrid 2 3) !! n.1 = Some n.2).
Proof.
  assert (wf_grid (newGrid 2 3)) as Hwf by reflexivity.
  split; [exact Hwf|].
  exact (getTile_total (newGrid 2 3) 2 1 Hwf).
Defined.

(** ** Promotion eligibility *)

Lemma existsb_false_iff {A} (f : A → bool) (l : list A) :
  existsb f l = false ↔ ∀ x, x ∈ l → f x = false.
Proof.
  induction l as [|y l IH]; simpl.
  - split; [|done]. intros _ x Hx. by apply elem_of_nil in Hx.
  - rewrite orb_false_iff, IH. split.
    + intros [Hy Hl] x Hx. apply elem_of_cons in Hx as [->|Hx]; auto.
    + intros Hall. split; [apply Hall; left|intros x Hx; apply Hall; by right].
Qed.

Lemma existsb_true_iff {A} (f : A → bool) (l : list A) :
  existsb f l = true ↔ ∃ x, x ∈ l ∧ f x = true.
Proof.
  rewrite existsb_exists. by setoid_rewrite list_elem_of_In.
Qed.

Lemma EVOLUTION_Some level rule :
  EVOLUTION level = Some rule →
  LEVEL.HOUSE <= level <= LEVEL.TOWER ∧ next rule = level + 1
  ∧ threshold rule = level + 1.
Proof.
  unfold EVOLUTION, LEVEL.HOUSE, LEVEL.SHOP, LEVEL.TOWER, LEVEL.FACTORY.
  repeat case_match; intros [= <-]; simpl; lia.
Qed.

Lemma elem_of_indexed g n :
  n ∈ indexed g ↔ Grid.tiles g !! n.1 = Some n.2.
Proof.
  unfold indexed. rewrite list_elem_of_lookup. split.
  - intros (i & Hi). rewrite list_lookup_imap in Hi.
    destruct (Grid.tiles g !! i) as [t|] eqn:Ht; [|done].
    simpl in Hi. by injection Hi as <-.
  - intros Hn. exists n.1. rewrite list_lookup_imap, Hn. by destruct n.
Qed.

Lemma inShadow_false c g this config :
  Grid.tiles g !! this.1 = Some this.2 →
  Tile.level this.2 < next config →
  inShadow c g this config = false ↔
  ∀ n, n ∈ indexed g → Tile.state n.2 = STATE_SPACE.CRYSTALLIZED →
       next config <= Tile.level n.2 →
       leQ_opt (hexDistance this.2 n.2) (shadowRadius c config) = false.
Proof.
  intros Hthis Hlt. unfold inShadow. rewrite existsb_false_iff. split.
  - intros Hall n Hn Hs Hl. specialize (Hall n Hn).
    destruct (leQ_opt _ _); [|done].
    rewrite Hs, Z.eqb_refl in Hall.
    replace (Tile.level n.2 >=? next config) with true in Hall by lia.
    destruct (Nat.eqb_spec n.1 this.1) as [He|Hne]; [|done].
    apply elem_of_indexed in Hn. rewrite He, Hthis in Hn.
    injection Hn as Hn. rewrite <- Hn in Hl. lia.
  - intros Hall n Hn.
    destruct (Z.eqb_spec (Tile.state n.2) STATE_SPACE.CRYSTALLIZED) as [Hs|];
      [|by rewrite andb_false_r].
    destruct (Z.geb_spec (Tile.level n.2) (next config)) as [Hl|];
      [|by rewrite andb_false_r].
    rewrite (Hall n Hn Hs) by lia. by rewrite andb_false_r.
Qed.

Lemma canPromote_iff c g this :
  Grid.tiles g !! this.1 = Some this.2 →
  canPromote c g this = true ↔
  Tile.state this.2 = STATE_SPACE.CRYSTALLIZED
  ∧ ∃ config, EVOLUTION (Tile.level this.2) = Some config
      ∧ threshold config <= Z.of_nat (length (lowerNeighbors g this))
      ∧ ∀ n, n ∈ indexed g → Tile.state n.2 = STATE_SPACE.CRYSTALLIZED →
             next config <= Tile.level n.2 →
             leQ_opt (hexDistance this.2 n.2) (shadowRadius c config) = false.
Proof.
  intros Hthis. unfold canPromote.
  destruct (Z.eqb_spec (Tile.state this.2) STATE_SPACE.CRYSTALLIZED) as [Hs|Hs];
    simpl; [|split; [done|by intros [? _]]].
  destruct (EVOLUTION (Tile.level this.2)) as [config|] eqn:Hcfg;
    [|split; [done|by intros (_ & ? & ? & _)]].
  pose proof (EVOLUTION_Some _ _ Hcfg) as (_ & Hnext & _).
  rewrite andb_true_iff, negb_true_iff, inShadow_false by (done || lia).
  split.
  - intros [H1 H2]. split; [done|]. exists config. split_and!; [done|lia|done].
  - intros (_ & config' & [= <-] & H1 & H2). split; [lia|done].
Qed.

Lemma elem_of_lowerNeighbors g this n :
  n ∈ lowerNeighbors g this ↔
  n ∈ getNeighbors g (Tile.q this.2) (Tile.r this.2)
  ∧ Tile.state n.2 = STATE_SPACE.CRYSTALLIZED
  ∧ Tile.level n.2 <= Tile.level this.2.
Proof.
  unfold lowerNeighbors. rewrite list_elem_of_filter.
  rewrite andb_True, !Is_true_true, Z.eqb_eq, Z.leb_le. tauto.
Qed.

Lemma leQ_opt_false d range sf :
  leQ_opt d (Some (inject_Z range * sf)%Q) = false ↔
  ¬ (inject_Z d <= inject_Z range * sf)%Q.
Proof.
  unfold leQ_opt. rewrite <- Qle_bool_iff. by destruct (Qle_bool _ _).
Qed.

(** C5: [canPromote] returns true only for a Crystallized tile whose
    level has a promotion rule, with at least [threshold] Crystallized
    neighbours of lower or equal level, and with no Crystallized tile of the
    target level or higher within [SERVICE_RANGE[next] * shadowFactor]; a
    Crystallized House with exactly two such neighbours and no Shop or
    higher within the shadow radius is promotable. *)
Theorem canPromote_sound (c : Controls) (g : Grid.t) (this : nat * Tile.t) :
  Grid.tiles g !! this.1 = Some this.2 →
  (∀ n, n ∈ lowerNeighbors g this ↔
        n ∈ getNeighbors g (Tile.q this.2) (Tile.r this.2)
        ∧ Tile.state n.2 = STATE_SPACE.CRYSTALLIZED
        ∧ Tile.level n.2 <= Tile.level this.2)
  ∧ (canPromote c g this = true →
       Tile.state this.2 = STATE_SPACE.CRYSTALLIZED
       ∧ ∃ config range,
           EVOLUTION (Tile.level this.2) = Some config
           ∧ threshold config <= Z.of_nat (length (lowerNeighbors g this))
           ∧ SERVICE_RANGE (next config) = Some range
           ∧ ∀ n, n ∈ indexed g →
                  Tile.state n.2 = STATE_SPACE.CRYSTALLIZED →
                  next config <= Tile.level n.2 →
                  ¬ (inject_Z (hexDistance this.2 n.2)
                     <= inject_Z range * shadowFactor c)%Q)
  ∧ (Tile.state this.2 = STATE_SPACE.CRYSTALLIZED →
     Tile.level this.2 = LEVEL.HOUSE →
     length (lowerNeighbors g this) = 2%nat →
     (∀ n, n ∈ indexed g →
           Tile.state n.2 = STATE_SPACE.CRYSTALLIZED →
           LEVEL.SHOP <= Tile.level n.2 →
           ¬ (inject_Z (hexDistance this.2 n.2) <= inject_Z 2 * shadowFactor c)%Q) →
     canPromote c g this = true).
Proof.
  intros Hthis. split; [intros n; apply elem_of_lowerNeighbors|]. split.
  - intros Hp. apply canPromote_iff in Hp as (Hs & config & Hcfg & Hthr & Hsh); [|done].
    split; [done|].
    pose proof (EVOLUTION_Some _ _ Hcfg) as (Hlv & Hnext & _).
    assert (∃ range, SERVICE_RANGE (next config) = Some range) as [range Hr].
    { unfold SERVICE_RANGE, LEVEL.EMPTY, LEVEL.HOUSE, LEVEL.SHOP, LEVEL.TOWER,
        LEVEL.FACTORY in *. repeat case_match; eauto; lia. }
    exists config, range. split_and!; try done.
    intros n Hn Hns Hnl. specialize (Hsh n Hn Hns Hnl).
    unfold shadowRadius in Hsh. rewrite Hr in Hsh. simpl in Hsh.
    by apply leQ_opt_false.
  - intros Hs Hl Hlen Hsh. apply canPromote_iff; [done|]. split; [done|].
    rewrite Hl. eexists. split; [reflexivity|]. simpl. split; [lia|].
    intros n Hn Hns Hnl. unfold shadowRadius. simpl.
    apply leQ_opt_false. by apply Hsh.
Qed.

Lemma canPromote_sound_witness :
  Grid.tiles threeHouses !! 4%nat = Some (set_level 1 (set_state 2 (newTile 1 1)))
  ∧ canPromote controls threeHouses (4%nat, set_level 1 (set_state 2 (newTile 1 1)))
    = true.
Proof.
  split; [reflexivity|].
  apply (canPromote_sound controls threeHouses
           (4%nat, set_level 1 (set_state 2 (newTile 1 1)))).
  - reflexivity.
  - reflexivity.
  - reflexivity.
  - reflexivity.
  - intros n Hn Hs Hl. exfalso.
    apply elem_of_indexed in Hn. destruct n as [i t]. simpl in *.
    vm_compute in Hn.
    do 9 (destruct i as [|i];
          [injection Hn as <-; vm_compute in Hs, Hl;
           first [discriminate Hs | exact (Hl eq_refl)]|]).
    discriminate Hn.
Defined.

(** ** Aggregation *)

Lemma Qlt_bool_iff x y : Qlt_bool x y = true ↔ (x < y)%Q.
Proof.
  unfold Qlt_bool. rewrite negb_true_iff. split.
  - intros Hb. apply Qnot_le_lt. intros Hle.
    apply Qle_bool_iff in Hle. congruence.
  - intros Hlt. destruct (Qle_bool y x) eqn:E; [|done].
    apply Qle_bool_iff in E. by apply Qlt_not_le in Hlt.
Qed.

Lemma Qlt_bool_false x y : Qlt_bool x y = false ↔ ¬ (x < y)%Q.
Proof. rewrite <- Qlt_bool_iff. by destruct (Qlt_bool x y). Qed.

Section Aggregate.
Context `{Host}.

Lemma couldBeCandidate_iff g a t :
  Grid.tiles g !! Agent.tile a = Some t →
  couldBeCandidate g a = true ↔
  ∃ n, n ∈ getNeighbors g (Tile.q t) (Tile.r t)
       ∧ Tile.state n.2 = STATE_SPACE.CRYSTALLIZED.
Proof.
  intros Ht. unfold couldBeCandidate. rewrite Ht, existsb_true_iff.
  by setoid_rewrite Z.eqb_eq.
Qed.

(** C6: [aggregate] changes nothing and reports no success for a dead
    agent or on a Crystallized tile (and when no neighbour is Crystallized);
    otherwise, with a Crystallized neighbour, it draws one sample: below
    [rho] the tile becomes a Crystallized House, the agent dies and success
    is reported; otherwise the tile is left Candidate, the agent stays
    alive and no success is reported. *)
Theorem aggregate_spec (rho : Q) (g : Grid.t) (a : Agent.t) (s : rng) (t : Tile.t) :
  Grid.tiles g !! Agent.tile a = Some t →
  (couldBeCandidate g a = true ↔
     ∃ n, n ∈ getNeighbors g (Tile.q t) (Tile.r t)
          ∧ Tile.state n.2 = STATE_SPACE.CRYSTALLIZED)
  ∧ (Agent.alive a = false ∨ Tile.state t = STATE_SPACE.CRYSTALLIZED →
       aggregate rho g a s = (g, a, s, false))
  ∧ (Agent.alive a = true → Tile.state t ≠ STATE_SPACE.CRYSTALLIZED →
     couldBeCandidate g a = false →
       aggregate rho g a s = (g, a, s, false))
  ∧ (Agent.alive a = true → Tile.state t ≠ STATE_SPACE.CRYSTALLIZED →
     couldBeCandidate g a = true →
       ((random s).1 < rho)%Q →
       aggregate rho g a s =
         (set_tiles (<[Agent.tile a :=
                        set_level LEVEL.HOUSE
                          (set_state STATE_SPACE.CRYSTALLIZED t)]> (Grid.tiles g)) g,
          Agent.mk (Agent.tile a) false, (random s).2, true))
  ∧ (Agent.alive a = true → Tile.state t ≠ STATE_SPACE.CRYSTALLIZED →
     couldBeCandidate g a = true →
       ¬ ((random s).1 < rho)%Q →
       aggregate rho g a s =
         (set_tiles (<[Agent.tile a := set_state STATE_SPACE.CANDIDATE t]>
                       (Grid.tiles g)) g,
          a, (random s).2, false)).
Proof.
  intros Ht. split; [by apply couldBeCandidate_iff|].
  unfold aggregate. rewrite Ht. split_and!.
  - intros [Ha|Hs].
    + by rewrite Ha.
    + destruct (Agent.alive a); simpl; [|done].
      by rewrite Hs, Z.eqb_refl.
  - intros -> Hs ->. simpl.
    by destruct (Z.eqb_spec (Tile.state t) STATE_SPACE.CRYSTALLIZED).
  - intros -> Hs -> Hu. simpl.
    destruct (Z.eqb_spec (Tile.state t) STATE_SPACE.CRYSTALLIZED); [done|].
    destruct (random s) as [u s'] eqn:Hr. simpl in *.
    apply Qlt_bool_iff in Hu. rewrite Hu.
    by rewrite list_insert_insert_eq.
  - intros -> Hs -> Hu. simpl.
    destruct (Z.eqb_spec (Tile.state t) STATE_SPACE.CRYSTALLIZED); [done|].
    destruct (random s) as [u s'] eqn:Hr. simpl in *.
    apply Qlt_bool_false in Hu. by rewrite Hu.
Qed.
End Aggregate.

Lemma aggregate_spec_witness :
  Grid.tiles (seedCenter (newGrid 3 3)) !! 1%nat = Some (newTile 1 0)
  ∧ aggregate (7 # 10) (seedCenter (newGrid 3 3)) (Agent.mk 1 true) (randomSeed 42)
    = (houseAt 1 (seedCenter (newGrid 3 3)), Agent.mk 1 false, 1083814273, true).
Proof.
  split; [reflexivity|].
  destruct (aggregate_spec (7 # 10) (seedCenter (newGrid 3 3)) (Agent.mk 1 true)
              (randomSeed 42) (newTile 1 0) eq_refl) as (_ & _ & _ & Hstick & _).
  rewrite Hstick; [reflexivity|reflexivity|discriminate|reflexivity|].
  vm_compute. reflexivity.
Defined.

(** ** Spawning *)

Section Spawn.
Context `{Host}.

Lemma Qfloor_unit_range (u : Q) (n : nat) :
  (0 <= u)%Q → (u < 1)%Q → (0 < n)%nat →
  0 <= Qfloor (u * inject_Z (Z.of_nat n)) < Z.of_nat n.
Proof.
  intros H0 H1 Hn.
  assert (0 < inject_Z (Z.of_nat n))%Q as Hpos.
  { change 0%Q with (inject_Z 0). rewrite <- Zlt_Qlt. lia. }
  split.
  - change 0 with (Qfloor 0). apply Qfloor_resp_le.
    apply Qmult_le_0_compat; [done|by apply Qlt_le_weak].
  - rewrite Zlt_Qlt. eapply Qle_lt_trans; [apply Qfloor_le|].
    rewrite <- (Qmult_1_l (inject_Z (Z.of_nat n))) at 2.
    by apply Qmult_lt_compat_r.
Qed.

Lemma randomChoice_unit {A} (l : list A) (s : rng) :
  UnitGenerator → l ≠ [] → ∃ x, (randomChoice l s).1 = Some x ∧ x ∈ l.
Proof.
  intros Hu Hl. unfold randomChoice. destruct (Hu s) as [H0 H1].
  destruct (random s) as [u s']. cbn [fst] in *.
  assert (0 < length l)%nat as Hn by (destruct l; [done|simpl; lia]).
  pose proof (Qfloor_unit_range u (length l) H0 H1 Hn) as [Hf0 Hf1].
  set (i := Qfloor (u * inject_Z (Z.of_nat (length l)))) in *.
  unfold lookupZ. destruct (Z.ltb_spec i 0); [lia|].
  destruct (lookup_lt_is_Some_2 l (Z.to_nat i)) as [x Hx]; [lia|].
  exists x. split; [done|]. by eapply list_elem_of_lookup_2.
Qed.

Lemma edgeTiles_boundary g e :
  wf_grid g → e ∈ edgeTiles g →
  Grid.tiles g !! e.1 = Some e.2
  ∧ (Tile.q e.2 = 0 ∨ Tile.q e.2 = Grid.nCols g - 1
     ∨ Tile.r e.2 = 0 ∨ Tile.r e.2 = Grid.nRows g - 1).
Proof.
  intros Hwf. unfold edgeTiles, edgeSlots. rewrite list_elem_of_omap.
  intros (o & Ho & Heq). unfold id in Heq. subst o.
  assert (∃ q r, getTile g q r = Some e
                 ∧ (q = 0 ∨ q = Grid.nCols g - 1 ∨ r = 0 ∨ r = Grid.nRows g - 1))
    as (q & r & Hg & Hqr).
  { apply elem_of_app in Ho as [Ho|Ho];
      apply list_elem_of_bind in Ho as (x & Ho & _);
      repeat (apply elem_of_cons in Ho as [Ho|Ho]);
      try (by apply elem_of_nil in Ho); eauto 10. }
  destruct (getTile_coords _ _ _ _ Hwf Hg) as [-> ->].
  by apply getTile_Some_inv in Hg as (_ & _ & ?).
Qed.

(** C4, amended: on a spawn tick with fewer active agents than [maxAgents],
    one sample selects the entry [floor(u * length)] of the edge-tile list;
    a new agent is created on that tile when it is not Crystallized, and no
    agent is created when it is.  For a generator with samples in [0, 1) and
    a non-empty list an edge tile is always selected, and every edge tile
    lies on the boundary of the grid. *)
Theorem spawnPhase_spec (c : Controls) (fc : Z) (g : Grid.t) (s : rng) :
  cadence fc (spawnRate c) = true →
  Z.of_nat (length (Grid.agents g)) < maxAgents c →
  _getRandomEdgeTile g s =
    (lookupZ (edgeTiles g)
       (Qfloor ((random s).1 * inject_Z (Z.of_nat (length (edgeTiles g))))),
     (random s).2)
  ∧ (∀ e, (_getRandomEdgeTile g s).1 = Some e →
          Tile.state e.2 ≠ STATE_SPACE.CRYSTALLIZED →
          spawnPhase c fc g s =
            (set_agents (Grid.agents g ++ [Agent.mk e.1 true]) g, (random s).2))
  ∧ (∀ e, (_getRandomEdgeTile g s).1 = Some e →
          Tile.state e.2 = STATE_SPACE.CRYSTALLIZED →
          spawnPhase c fc g s = (g, (random s).2))
  ∧ ((_getRandomEdgeTile g s).1 = None → spawnPhase c fc g s = (g, (random s).2))
  ∧ (UnitGenerator → edgeTiles g ≠ [] →
       ∃ e, (_getRandomEdgeTile g s).1 = Some e ∧ e ∈ edgeTiles g)
  ∧ (wf_grid g → ∀ e, e ∈ edgeTiles g →
       Grid.tiles g !! e.1 = Some e.2
       ∧ (Tile.q e.2 = 0 ∨ Tile.q e.2 = Grid.nCols g - 1
          ∨ Tile.r e.2 = 0 ∨ Tile.r e.2 = Grid.nRows g - 1)).
Proof.
  intros Hc Hn.
  assert (spawnPhase c fc g s = (let '(g', _, s') := spawnAgent g s in (g', s'))) as ->.
  { unfold spawnPhase. rewrite Hc. simpl.
    by destruct (Z.ltb_spec (Z.of_nat (length (Grid.agents g))) (maxAgents c)); [|lia]. }
  unfold spawnAgent, _getRandomEdgeTile.
  pose proof (randomChoice_unit (edgeTiles g) s) as Hunit.
  unfold randomChoice in *.
  destruct (random s) as [u s']. cbn [fst snd] in *.
  split_and!.
  - done.
  - intros e -> Hs. by destruct (Z.eqb_spec (Tile.state e.2) STATE_SPACE.CRYSTALLIZED).
  - intros e -> Hs. by rewrite Hs.
  - by intros ->.
  - done.
  - intros Hwf e. by apply edgeTiles_boundary.
Qed.
End Spawn.

Lemma lcg_unit : @UnitGenerator lcgHost.
Proof.
  intros s. simpl. unfold lcgRandom, lcgNext. simpl.
  pose proof (Z.mod_pos_bound (1664525 * s + 1013904223) 4294967296 ltac:(lia)).
  unfold Qle, Qlt. simpl. split; lia.
Qed.

Lemma spawnPhase_spec_witness :
  cadence 2 (spawnRate controls) = true
  ∧ Z.of_nat (length (Grid.agents (seedCenter (newGrid 3 3)))) < maxAgents controls
  ∧ spawnPhase controls 2 (seedCenter (newGrid 3 3)) (randomSeed 42)
    = (set_agents [Agent.mk 1 true] (seedCenter (newGrid 3 3)), 1083814273).
Proof.
  assert (cadence 2 (spawnRate controls) = true) as Hc by reflexivity.
  assert (Z.of_nat (length (Grid.agents (seedCenter (newGrid 3 3))))
          < maxAgents controls) as Hn by (vm_compute; reflexivity).
  split; [exact Hc|]. split; [exact Hn|].
  destruct (spawnPhase_spec controls 2 (seedCenter (newGrid 3 3)) (randomSeed 42)
              Hc Hn) as (_ & Hspawn & _).
  rewrite (Hspawn (1%nat, newTile 1 0)); [reflexivity|reflexivity|discriminate].
Defined.

(** A spawn tick that creates no agent.  On the 3x3 grid with houses at
    the centre and at (1, 0), no agent yet, the first sample of seed 42 is
    1083814273 / 2^32, which selects entry 2 of the eight edge tiles: the
    house at (1, 0); [spawnAgent] returns [null] although seven edge tiles
    are Empty.  The same happens in the running sketch: after nine frames
    from its reset, frame 10 is a spawn tick with one active agent, and the
    sample selects a Crystallized edge tile. *)
Lemma spawn_tick_without_agent :
  cadence 2 (spawnRate controls) = true
  ∧ Z.of_nat (length (Grid.agents (houseAt 1 (seedCenter (newGrid 3 3)))))
    < maxAgents controls
  ∧ (@random lcgHost (randomSeed 42)).1 = (1083814273 # 4294967296)%Q
  ∧ (Tile.state <$> (snd <$> edgeTiles (houseAt 1 (seedCenter (newGrid 3 3)))))
    = [0; 0; 2; 0; 0; 0; 0; 0]
  ∧ spawnAgent (houseAt 1 (seedCenter (newGrid 3 3))) (randomSeed 42)
    = (houseAt 1 (seedCenter (newGrid 3 3)), None, 1083814273)
  ∧ spawnPhase controls 2 (houseAt 1 (seedCenter (newGrid 3 3))) (randomSeed 42)
    = (houseAt 1 (seedCenter (newGrid 3 3)), 1083814273)
  ∧ cadence (frameCount stuckWorld + 1) (spawnRate controls) = true
  ∧ Z.of_nat (length (Grid.agents (grid stuckWorld))) < maxAgents controls
  ∧ (Tile.state <$> (snd <$> edgeTiles (grid stuckWorld)))
    = [0; 0; 1; 0; 0; 2; 2; 2]
  ∧ (_getRandomEdgeTile (grid stuckWorld) (gen stuckWorld)).1
    = Some (5%nat, Tile.mk 2 1 STATE_SPACE.CRYSTALLIZED LEVEL.HOUSE LEVEL.EMPTY 1 1000 0)
  ∧ spawnAgent (grid stuckWorld) (gen stuckWorld)
    = (grid stuckWorld, None, (random (gen stuckWorld)).2)
  ∧ (spawnPhase controls (frameCount stuckWorld + 1) (grid stuckWorld)
       (gen stuckWorld)).1 = grid stuckWorld.
Proof.
  split_and!; by vm_compute.
Qed.

(** ** Tile-wise effect of the operations *)

Lemma Forall2_steps_refl op l : Forall2 (tile_step op) l l.
Proof. apply Forall_Forall2_diag, Forall_forall. intros; constructor. Qed.

Lemma Forall2_insert_r {A} (R : A → A → Prop) l k i x y :
  Forall2 R l k → l !! i = Some x → R x y → Forall2 R l (<[i:=y]> k).
Proof.
  intros Hlk Hx Hxy. rewrite <- (list_insert_id l i x) by done.
  by apply Forall2_insert.
Qed.

Lemma Qle_bool_false x y : Qle_bool x y = false ↔ ¬ (x <= y)%Q.
Proof. rewrite <- Qle_bool_iff. by destruct (Qle_bool x y). Qed.

Lemma tile_step_trans op t1 t2 t3 :
  tile_step op t1 t2 → tile_step op t2 t3 → tile_step op t1 t3.
Proof.
  intros H12 H23.
  destruct H12 as [op t|t|i t Hs|i t Hs|t config now He|t newLevel now Hd
                  |t p Hp Hq|t p Hp Hq Ht|t p Hp Hq Ht];
    [done|..]; inversion H23; subst; try (by constructor); simpl in *; try done;
    first [ exact (step_seed t)
          | refine (step_candidate _ t _); eassumption
          | refine (step_stick _ t _); eassumption
          | refine (step_promote t _ _ _); eassumption
          | refine (step_demote t _ _ _); eassumption
          | refine (step_advance t _ _ _); eassumption
          | refine (step_complete t _ _ _ _); eassumption
          | refine (step_vanish t _ _ _ _); eassumption ].
Qed.

Lemma Forall2_steps_trans op l1 l2 l3 :
  Forall2 (tile_step op) l1 l2 → Forall2 (tile_step op) l2 l3 →
  Forall2 (tile_step op) l1 l3.
Proof. apply Forall2_trans. apply tile_step_trans. Qed.

Lemma tile_step_coords op t t' : tile_step op t t' → coords t' = coords t.
Proof. by destruct 1. Qed.

Lemma steps_coords op l k :
  Forall2 (tile_step op) l k → coords <$> k = coords <$> l.
Proof.
  induction 1 as [|t t' l k Hs _ IH]; [done|]. csimpl.
  by rewrite IH, (tile_step_coords _ _ _ Hs).
Qed.

Lemma wf_grid_steps op g g' :
  dims g' = dims g → Forall2 (tile_step op) (Grid.tiles g) (Grid.tiles g') →
  wf_grid g → wf_grid g'.
Proof.
  unfold wf_grid, dims. intros [= -> ->] Hs Hwf.
  by rewrite (steps_coords _ _ _ Hs).
Qed.

Section Steps.
Context `{Host}.

Lemma setTargetLevel_cases newLevel t k :
  (setTargetLevel newLevel t k).1 = t
  ∨ ∃ now, (setTargetLevel newLevel t k).1 = morphTo newLevel now t.
Proof.
  unfold setTargetLevel. destruct (newLevel =? Tile.level t); [by left|].
  destruct (millis k) as [now k']. right. by exists now.
Qed.

Lemma updateMorphing_step t k : tile_step OpMorph t (updateMorphing t k).1.
Proof.
  unfold updateMorphing.
  destruct (Qle_bool 1 (Tile.morphProgress t)) eqn:Hp; [constructor|].
  apply Qle_bool_false in Hp.
  destruct (millis k) as [now k']. simpl.
  set (p := ease _).
  destruct (Qle_bool 1 p) eqn:Hp'.
  - apply Qle_bool_iff in Hp'.
    destruct (Z.eqb_spec (Tile.targetLevel t) LEVEL.EMPTY) as [He|Hne]; simpl.
    + by apply step_vanish.
    + by apply step_complete.
  - apply Qle_bool_false in Hp'. simpl. by apply step_advance.
Qed.

Lemma forEach_updateMorphing_steps l k :
  Forall2 (tile_step OpMorph) l (forEach updateMorphing l k).1.
Proof.
  revert k. induction l as [|t l IH]; intros k; simpl; [constructor|].
  pose proof (updateMorphing_step t k) as Hs.
  destruct (updateMorphing t k) as [t' k1].
  specialize (IH k1). destruct (forEach updateMorphing l k1) as [ts k2].
  simpl in *. by constructor.
Qed.

Lemma updateAllMorphing_steps g k :
  Forall2 (tile_step OpMorph) (Grid.tiles g) (Grid.tiles (updateAllMorphing g k).1).
Proof.
  unfold updateAllMorphing.
  pose proof (forEach_updateMorphing_steps (Grid.tiles g) k) as Hs.
  by destruct (forEach updateMorphing (Grid.tiles g) k) as [ts k'].
Qed.

Lemma retarget_steps op target acc i :
  (∀ t newLevel now, target t = Some newLevel →
                     tile_step op t (morphTo newLevel now t)) →
  Forall2 (tile_step op) (Grid.tiles acc.1) (Grid.tiles (retarget target acc i).1).
Proof.
  intros Hstep. unfold retarget.
  destruct (Grid.tiles acc.1 !! i) as [tile|] eqn:Ht; [|apply Forall2_steps_refl].
  destruct (target tile) as [newLevel|] eqn:Hn; [|apply Forall2_steps_refl].
  pose proof (setTargetLevel_cases newLevel tile acc.2) as Hc.
  destruct (setTargetLevel newLevel tile acc.2) as [tile' k']. simpl in *.
  eapply Forall2_insert_r; [apply Forall2_steps_refl|done|].
  destruct Hc as [->|[now ->]]; [constructor|by apply Hstep].
Qed.

Lemma foldl_retarget_steps op target l acc :
  (∀ t newLevel now, target t = Some newLevel →
                     tile_step op t (morphTo newLevel now t)) →
  Forall2 (tile_step op) (Grid.tiles acc.1)
    (Grid.tiles (foldl (retarget target) acc l).1).
Proof.
  intros Hstep. revert acc. induction l as [|i l IH]; intros acc; simpl.
  - apply Forall2_steps_refl.
  - eapply Forall2_steps_trans; [by apply retarget_steps|apply IH].
Qed.

Lemma evolveAll_steps c g k :
  Forall2 (tile_step OpEvolve) (Grid.tiles g) (Grid.tiles (evolveAll c g k).1.1).
Proof.
  unfold evolveAll. simpl.
  apply (foldl_retarget_steps OpEvolve promoteTarget _ (g, k)).
  intros t newLevel now. unfold promoteTarget.
  destruct (EVOLUTION (Tile.level t)) as [config|] eqn:He; [|done].
  intros [= <-]. by apply step_promote.
Qed.

Lemma decayPass_steps c g s k :
  Forall2 (tile_step OpDecay) (Grid.tiles g) (Grid.tiles (decayPass c g s k).1.1.1).
Proof.
  unfold decayPass. destruct (nonEmptyCount g <=? 10); [apply Forall2_steps_refl|].
  unfold decayBody.
  destruct (foldl (decayScan c g) ([], s) (indexed g)) as [toDemote s'].
  pose proof (foldl_retarget_steps OpDecay demoteTarget toDemote (g, k)) as Hs.
  destruct (foldl (retarget demoteTarget) (g, k) toDemote) as [g' k']. simpl in *.
  apply Hs. intros t newLevel now Hd. by apply step_demote.
Qed.

Lemma aggregate_steps i rho g a s :
  Forall2 (tile_step (OpAggregate i)) (Grid.tiles g)
    (Grid.tiles (aggregate rho g a s).1.1.1).
Proof.
  unfold aggregate.
  destruct (Agent.alive a); simpl; [|apply Forall2_steps_refl].
  destruct (Grid.tiles g !! Agent.tile a) as [t|] eqn:Ht; [|apply Forall2_steps_refl].
  destruct (Z.eqb_spec (Tile.state t) STATE_SPACE.CRYSTALLIZED) as [Hs|Hs];
    [apply Forall2_steps_refl|].
  destruct (couldBeCandidate g a); [|apply Forall2_steps_refl].
  destruct (random s) as [u s'].
  destruct (Qlt_bool u rho); simpl.
  - rewrite list_insert_insert_eq.
    eapply Forall2_insert_r; [apply Forall2_steps_refl|done|].
    exact (step_stick i t Hs).
  - eapply Forall2_insert_r; [apply Forall2_steps_refl|done|].
    exact (step_candidate i t Hs).
Qed.

Lemma seedCenter_steps g :
  Forall2 (tile_step OpSeedCenter) (Grid.tiles g) (Grid.tiles (seedCenter g)).
Proof.
  unfold seedCenter.
  destruct (getTile g _ _) as [centerTile|] eqn:Hc; [|apply Forall2_steps_refl].
  simpl. apply getTile_Some_inv in Hc as (_ & _ & Hc).
  eapply Forall2_insert_r; [apply Forall2_steps_refl|done|constructor].
Qed.

Lemma spawnAgent_tiles g s : Grid.tiles (spawnAgent g s).1.1 = Grid.tiles g.
Proof.
  unfold spawnAgent. destruct (_getRandomEdgeTile g s) as [[e|] s']; [|done].
  by destruct (negb _).
Qed.

Lemma applyOp_steps c op w :
  Forall2 (tile_step op) (Grid.tiles (grid w)) (Grid.tiles (grid (applyOp c op w))).
Proof.
  destruct op; unfold applyOp; cbv beta iota zeta.
  - apply seedCenter_steps.
  - pose proof (spawnAgent_tiles (grid w) (gen w)) as Hs.
    destruct (spawnAgent (grid w) (gen w)) as [[g' a] s']. simpl in *.
    rewrite Hs. apply Forall2_steps_refl.
  - destruct (Grid.agents (grid w) !! i); [|apply Forall2_steps_refl].
    destruct (walk c (grid w) t (gen w)). simpl. apply Forall2_steps_refl.
  - destruct (Grid.agents (grid w) !! i) as [a|]; [|apply Forall2_steps_refl].
    pose proof (aggregate_steps i (stickingProb c) (grid w) a (gen w)) as Hs.
    destruct (aggregate _ _ _ _) as [[[g' a'] s'] b]. exact Hs.
  - pose proof (evolveAll_steps c (grid w) (clk w)) as Hs.
    destruct (evolveAll _ _ _) as [[g' k'] n]. exact Hs.
  - pose proof (decayPass_steps c (grid w) (gen w) (clk w)) as Hs.
    destruct (decayPass _ _ _ _) as [[[g' s'] k'] n]. exact Hs.
  - pose proof (updateAllMorphing_steps (grid w) (clk w)) as Hs.
    destruct (updateAllMorphing _ _) as [g' k']. exact Hs.
Qed.

Lemma walk_agentStep_steps c a g s :
  Forall2 (tile_step (OpAggregate 0)) (Grid.tiles g)
    (Grid.tiles (agentStep c a (g, s)).2.1).
Proof.
  unfold agentStep. simpl. destruct (walk c g a s) as [a1 s1].
  pose proof (aggregate_steps 0 (stickingProb c) g a1 s1) as Hs.
  destruct (aggregate _ _ _ _) as [[[g2 a2] s2] b]. exact Hs.
Qed.

Lemma forEach_agentStep_steps c l st :
  Forall2 (tile_step (OpAggregate 0)) (Grid.tiles st.1)
    (Grid.tiles (forEach (agentStep c) l st).2.1).
Proof.
  revert st. induction l as [|a l IH]; intros [g s]; simpl;
    [apply Forall2_steps_refl|].
  pose proof (walk_agentStep_steps c a g s) as Hs.
  destruct (agentStep c a (g, s)) as [a' st1].
  specialize (IH st1). destruct (forEach (agentStep c) l st1) as [l' st2].
  simpl in *. by eapply Forall2_steps_trans.
Qed.

Lemma updateAgents_steps c g s :
  Forall2 (tile_step (OpAggregate 0)) (Grid.tiles g)
    (Grid.tiles (updateAgents c g s).1).
Proof.
  unfold updateAgents.
  pose proof (forEach_agentStep_steps c (Grid.agents g) (g, s)) as Hs.
  destruct (forEach (agentStep c) (Grid.agents g) (g, s)) as [l' [g' s']].
  exact Hs.
Qed.

Lemma tile_step_dom op t t' : tile_dom t → tile_step op t t' → tile_dom t'.
Proof.
  unfold tile_dom, LEVEL.EMPTY, LEVEL.FACTORY, STATE_SPACE.EMPTY,
    STATE_SPACE.CRYSTALLIZED.
  intros (Hl & Ht & Hs) Hstep.
  destruct Hstep as [op t|t|i t Hn|i t Hn|t config now He|t newLevel now Hd
                    |t p Hp Hq|t p Hp Hq Hne|t p Hp Hq He]; simpl;
    unfold LEVEL.HOUSE, STATE_SPACE.CANDIDATE, STATE_SPACE.CRYSTALLIZED,
      STATE_SPACE.EMPTY; try lia.
  - apply EVOLUTION_Some in He as (He & -> & _).
    unfold LEVEL.HOUSE, LEVEL.TOWER in He. lia.
  - unfold demoteTarget, LEVEL.HOUSE, LEVEL.EMPTY in Hd.
    destruct (Tile.level t - 1 <? 1) eqn:E; injection Hd as <-; lia.
Qed.

Lemma steps_dom op l k :
  Forall2 (tile_step op) l k → Forall tile_dom l → Forall tile_dom k.
Proof.
  intros Hs Hl. eapply Forall2_Forall_r; [exact Hs|].
  rewrite Forall_forall in Hl. apply Forall_forall. intros t Ht t' Hstep.
  eapply tile_step_dom; [by apply Hl|done].
Qed.

Lemma aggregate_dims rho g a s : dims (aggregate rho g a s).1.1.1 = dims g.
Proof.
  unfold aggregate. destruct (Agent.alive a); simpl; [|done].
  destruct (Grid.tiles g !! Agent.tile a); [|done].
  destruct (Tile.state t =? _); [done|].
  destruct (couldBeCandidate g a); [|done].
  destruct (random s) as [u s']. by destruct (Qlt_bool u rho).
Qed.

Lemma spawnAgent_dims g s : dims (spawnAgent g s).1.1 = dims g.
Proof.
  unfold spawnAgent. destruct (_getRandomEdgeTile g s) as [[e|] s']; [|done].
  by destruct (negb _).
Qed.

Lemma seedCenter_dims g : dims (seedCenter g) = dims g.
Proof. unfold seedCenter. by destruct (getTile g _ _). Qed.

Lemma foldl_retarget_dims target l acc :
  dims (foldl (retarget target) acc l).1 = dims acc.1.
Proof.
  revert acc. induction l as [|i l IH]; intros acc; simpl; [done|].
  rewrite IH. unfold retarget.
  destruct (Grid.tiles acc.1 !! i) as [tile|]; [|done].
  destruct (target tile) as [newLevel|]; [|done].
  by destruct (setTargetLevel newLevel tile acc.2).
Qed.

Lemma evolveAll_dims c g k : dims (evolveAll c g k).1.1 = dims g.
Proof. unfold evolveAll. simpl. apply foldl_retarget_dims. Qed.

Lemma decayPass_dims c g s k : dims (decayPass c g s k).1.1.1 = dims g.
Proof.
  unfold decayPass. destruct (nonEmptyCount g <=? 10); [done|].
  unfold decayBody.
  destruct (foldl (decayScan c g) ([], s) (indexed g)) as [toDemote s'].
  pose proof (foldl_retarget_dims demoteTarget toDemote (g, k)) as Hd.
  by destruct (foldl (retarget demoteTarget) (g, k) toDemote) as [g' k'].
Qed.

Lemma updateAllMorphing_dims g k : dims (updateAllMorphing g k).1 = dims g.
Proof.
  unfold updateAllMorphing.
  by destruct (forEach updateMorphing (Grid.tiles g) k) as [ts k'].
Qed.

Lemma forEach_agentStep_dims c l st :
  dims (forEach (agentStep c) l st).2.1 = dims st.1.
Proof.
  revert st. induction l as [|a l IH]; intros [g s]; simpl; [done|].
  assert (dims (agentStep c a (g, s)).2.1 = dims g) as Hd.
  { unfold agentStep. simpl. destruct (walk c g a s) as [a1 s1].
    pose proof (aggregate_dims (stickingProb c) g a1 s1) as Hd.
    by destruct (aggregate _ _ _ _) as [[[g2 a2] s2] b]. }
  destruct (agentStep c a (g, s)) as [a' st1].
  specialize (IH st1). destruct (forEach (agentStep c) l st1) as [l' st2].
  simpl in *. congruence.
Qed.

Lemma updateAgents_dims c g s : dims (updateAgents c g s).1 = dims g.
Proof.
  unfold updateAgents.
  pose proof (forEach_agentStep_dims c (Grid.agents g) (g, s)) as Hd.
  by destruct (forEach (agentStep c) (Grid.agents g) (g, s)) as [l' [g' s']].
Qed.

(** A property of grids that every tile-wise step preserves is preserved by
    a whole frame. *)
Lemma draw_invariant (P : Grid.t → Prop) c w :
  (∀ op g g', dims g' = dims g →
              Forall2 (tile_step op) (Grid.tiles g) (Grid.tiles g') → P g → P g') →
  P (grid w) → P (grid (draw c w)).
Proof.
  intros HP Hw. unfold draw. destruct (paused c); [done|].
  unfold spawnPhase.
  assert (∃ g1 s1, (if cadence (frameCount w) (spawnRate c)
                       && (Z.of_nat (length (Grid.agents (grid w))) <? maxAgents c)
                    then let '(g', _, s') := spawnAgent (grid w) (gen w) in (g', s')
                    else (grid w, gen w)) = (g1, s1)
                   ∧ P g1) as (g1 & s1 & -> & H1).
  { destruct (_ && _); [|by eauto].
    pose proof (spawnAgent_tiles (grid w) (gen w)) as Ht.
    pose proof (spawnAgent_dims (grid w) (gen w)) as Hd.
    destruct (spawnAgent (grid w) (gen w)) as [[g' a] s']. simpl in Ht, Hd.
    exists g', s'. split; [done|].
    apply (HP OpSpawn (grid w)); [done| |done].
    rewrite Ht. apply Forall2_steps_refl. }
  pose proof (HP _ _ _ (updateAgents_dims c g1 s1) (updateAgents_steps c g1 s1) H1)
    as H2.
  destruct (updateAgents c g1 s1) as [g2 s2]. simpl in H2.
  assert (P (removeDead g2)) as H3.
  { apply (HP OpSpawn g2); [done|apply Forall2_steps_refl|done]. }
  unfold evolvePhase.
  assert (∃ g4 k4, (if cadence (frameCount w) (evolveRate c)
                    then (evolveAll c (removeDead g2) (clk w)).1
                    else (removeDead g2, clk w)) = (g4, k4)
                   ∧ P g4) as (g4 & k4 & -> & H4).
  { destruct (cadence _ (evolveRate c)); [|by eauto].
    pose proof (HP _ _ _ (evolveAll_dims c (removeDead g2) (clk w))
                  (evolveAll_steps c (removeDead g2) (clk w)) H3) as Ht.
    destruct (evolveAll _ _ _) as [[g' k'] n]. by eauto. }
  unfold decayPhase.
  assert (∃ g5 s5 k5, (if cadence (frameCount w) (decayRate c)
                       then (decayPass c g4 s2 k4).1 else (g4, s2, k4)) = (g5, s5, k5)
                      ∧ P g5) as (g5 & s5 & k5 & -> & H5).
  { destruct (cadence _ (decayRate c)); [|by eauto 10].
    pose proof (HP _ _ _ (decayPass_dims c g4 s2 k4)
                  (decayPass_steps c g4 s2 k4) H4) as Ht.
    destruct (decayPass _ _ _ _) as [[[g' s'] k'] n]. by eauto 10. }
  pose proof (HP _ _ _ (updateAllMorphing_dims g5 k5)
                (updateAllMorphing_steps g5 k5) H5) as H6.
  by destruct (updateAllMorphing g5 k5) as [g6 k6].
Qed.

Lemma run_invariant (P : Grid.t → Prop) c n w :
  (∀ op g g', dims g' = dims g →
              Forall2 (tile_step op) (Grid.tiles g) (Grid.tiles g') → P g → P g') →
  P (grid w) → P (grid (run c n w)).
Proof.
  intros HP. revert w. induction n as [|n IH]; intros w Hw; simpl; [done|].
  apply IH. unfold frame. by apply (draw_invariant P).
Qed.

Lemma applyOp_dims c op w : dims (grid (applyOp c op w)) = dims (grid w).
Proof.
  destruct op; unfold applyOp; cbv beta iota zeta.
  - apply seedCenter_dims.
  - pose proof (spawnAgent_dims (grid w) (gen w)) as Hd.
    by destruct (spawnAgent (grid w) (gen w)) as [[g' a] s'].
  - destruct (Grid.agents (grid w) !! i); [|done].
    by destruct (walk c (grid w) t (gen w)).
  - destruct (Grid.agents (grid w) !! i) as [a|]; [|done].
    pose proof (aggregate_dims (stickingProb c) (grid w) a (gen w)) as Hd.
    by destruct (aggregate _ _ _ _) as [[[g' a'] s'] b].
  - pose proof (evolveAll_dims c (grid w) (clk w)) as Hd.
    by destruct (evolveAll _ _ _) as [[g' k'] n].
  - pose proof (decayPass_dims c (grid w) (gen w) (clk w)) as Hd.
    by destruct (decayPass _ _ _ _) as [[[g' s'] k'] n].
  - pose proof (updateAllMorphing_dims (grid w) (clk w)) as Hd.
    by destruct (updateAllMorphing _ _) as [g' k'].
Qed.

Lemma runOps_invariant (P : Grid.t → Prop) c ops w :
  (∀ op g g', dims g' = dims g →
              Forall2 (tile_step op) (Grid.tiles g) (Grid.tiles g') → P g → P g') →
  P (grid w) → P (grid (runOps c ops w)).
Proof.
  intros HP. unfold runOps. revert w.
  induction ops as [|op ops IH]; intros w Hw; simpl; [done|].
  apply IH. eapply HP; [apply applyOp_dims|apply applyOp_steps|done].
Qed.

Lemma draw_dom c w : grid_dom (grid w) → grid_dom (grid (draw c w)).
Proof.
  apply (draw_invariant grid_dom). intros op g g' _. apply steps_dom.
Qed.

(** Every grid reached from a reset keeps the coordinate layout of the
    constructor. *)
Lemma run_wf c n rows cols newSeed w :
  wf_grid (grid (run c n (reset rows cols newSeed w))).
Proof.
  apply (run_invariant wf_grid); [apply wf_grid_steps|].
  unfold reset. simpl.
  apply (wf_grid_steps OpSeedCenter (newGrid rows cols));
    [apply seedCenter_dims|apply seedCenter_steps|reflexivity].
Qed.

Lemma runOps_wf c ops rows cols newSeed w :
  wf_grid (grid (runOps c ops (reset rows cols newSeed w))).
Proof.
  apply (runOps_invariant wf_grid); [apply wf_grid_steps|].
  apply (run_wf c 0).
Qed.

Lemma newGrid_dom rows cols : grid_dom (newGrid rows cols).
Proof.
  unfold grid_dom, newGrid, createTiles. simpl.
  apply Forall_forall. intros t Ht. rewrite <- list_elem_of_In in Ht.
  apply list_elem_of_join in Ht as (l & Ht & Hl).
  apply list_elem_of_fmap in Hl as (r & -> & _).
  apply list_elem_of_fmap in Ht as (q & -> & _).
  unfold tile_dom, LEVEL.EMPTY, LEVEL.FACTORY, STATE_SPACE.EMPTY,
    STATE_SPACE.CRYSTALLIZED. simpl. lia.
Qed.

Lemma reset_dom rows cols newSeed w : grid_dom (grid (reset rows cols newSeed w)).
Proof.
  unfold reset, grid_dom. simpl.
  eapply steps_dom; [apply seedCenter_steps|apply newGrid_dom].
Qed.

Lemma run_dom c n w : grid_dom (grid w) → grid_dom (grid (run c n w)).
Proof.
  apply (run_invariant grid_dom). intros op g g' _. apply steps_dom.
Qed.

Lemma tile_step_target op t t' :
  tile_step op t t' →
  Tile.targetLevel t' = Tile.targetLevel t
  ∨ (op = OpEvolve ∧ LEVEL.HOUSE <= Tile.level t < LEVEL.FACTORY
     ∧ Tile.targetLevel t' = Tile.level t + 1 ∧ Tile.level t' = Tile.level t)
  ∨ (op = OpDecay ∧ Tile.targetLevel t' = Z.max LEVEL.EMPTY (Tile.level t - 1)
     ∧ Tile.level t' = Tile.level t).
Proof.
  intros Hstep.
  destruct Hstep as [op t|t|i t Hn|i t Hn|t config now He|t newLevel now Hd
                    |t p Hp Hq|t p Hp Hq Hne|t p Hp Hq He]; simpl; auto.
  - right; left. apply EVOLUTION_Some in He as (He & -> & _).
    unfold LEVEL.HOUSE, LEVEL.TOWER, LEVEL.FACTORY in *. split_and!; (done || lia).
  - right; right. unfold demoteTarget, LEVEL.HOUSE, LEVEL.EMPTY in *.
    destruct (Tile.level t - 1 <? 1) eqn:E; injection Hd as <-;
      split_and!; (done || lia).
Qed.

(** C10: every engine operation and a whole frame of [draw], and therefore
    every state reached from a reset by frames or by any sequence of
    operations, keeps each tile's level and morph target between EMPTY and
    FACTORY and its state between EMPTY and CRYSTALLIZED.  An operation
    changes a morph target only in two ways: the evolution pass sets it to
    the next level of a tile between HOUSE and TOWER, and the decay pass
    sets it to one level less, or to EMPTY (never a negative level) from
    HOUSE or below. *)
Theorem domain_preserved (c : Controls) :
  (∀ op w, grid_dom (grid w) → grid_dom (grid (applyOp c op w)))
  ∧ (∀ w, grid_dom (grid w) → grid_dom (grid (draw c w)))
  ∧ (∀ n rows cols newSeed w,
       grid_dom (grid (run c n (reset rows cols newSeed w))))
  ∧ (∀ ops rows cols newSeed w,
       grid_dom (grid (runOps c ops (reset rows cols newSeed w))))
  ∧ (∀ op w i t t',
       Grid.tiles (grid w) !! i = Some t →
       Grid.tiles (grid (applyOp c op w)) !! i = Some t' →
       Tile.targetLevel t' = Tile.targetLevel t
       ∨ (op = OpEvolve ∧ LEVEL.HOUSE <= Tile.level t < LEVEL.FACTORY
          ∧ Tile.targetLevel t' = Tile.level t + 1 ∧ Tile.level t' = Tile.level t)
       ∨ (op = OpDecay ∧ Tile.targetLevel t' = Z.max LEVEL.EMPTY (Tile.level t - 1)
          ∧ Tile.level t' = Tile.level t)).
Proof.
  split_and!.
  - intros op w. apply (steps_dom op), applyOp_steps.
  - intros w. apply draw_dom.
  - intros n rows cols newSeed w. apply run_dom, reset_dom.
  - intros ops rows cols newSeed w.
    apply (runOps_invariant grid_dom); [|apply reset_dom].
    intros op g g' _. apply steps_dom.
  - intros op w i t t' Ht Ht'. apply tile_step_target.
    eapply Forall2_lookup_lr; [apply (applyOp_steps c op w)|done|done].
Qed.

Lemma tile_step_level op t t' :
  tile_step op t t' → Tile.level t' ≠ Tile.level t →
  (op = OpMorph ∧ ¬ (1 <= Tile.morphProgress t)%Q
   ∧ (1 <= Tile.morphProgress t')%Q ∧ Tile.level t' = Tile.targetLevel t)
  ∨ ((∃ j, op = OpAggregate j)
     ∧ Tile.state t ≠ STATE_SPACE.CRYSTALLIZED
     ∧ Tile.state t' = STATE_SPACE.CRYSTALLIZED ∧ Tile.level t' = LEVEL.HOUSE)
  ∨ (op = OpSeedCenter
     ∧ Tile.state t' = STATE_SPACE.CRYSTALLIZED ∧ Tile.level t' = LEVEL.HOUSE).
Proof.
  intros Hstep.
  destruct Hstep as [op t|t|i t Hn|i t Hn|t config now He|t newLevel now Hd
                    |t p Hp Hq|t p Hp Hq Hne|t p Hp Hq He]; simpl; intros Hl;
    try done.
  - by right; right.
  - right; left. eauto.
  - by left.
  - by left.
Qed.

Lemma aggregate_lookup_other rho g a s j :
  j ≠ Agent.tile a →
  Grid.tiles (aggregate rho g a s).1.1.1 !! j = Grid.tiles g !! j.
Proof.
  intros Hj. unfold aggregate.
  destruct (Agent.alive a); simpl; [|done].
  destruct (Grid.tiles g !! Agent.tile a) as [t|]; [|done].
  destruct (Tile.state t =? STATE_SPACE.CRYSTALLIZED); [done|].
  destruct (couldBeCandidate g a); [|done].
  destruct (random s) as [u s']. destruct (Qlt_bool u rho); simpl;
    by rewrite ?list_lookup_insert_ne by done.
Qed.

Lemma aggregate_dead rho g a s :
  Agent.alive a = false → aggregate rho g a s = (g, a, s, false).
Proof. intros Ha. unfold aggregate. by rewrite Ha. Qed.

Lemma seedCenter_lookup_other g j :
  (∀ t, getTile g (Grid.nCols g / 2) (Grid.nRows g / 2) ≠ Some (j, t)) →
  Grid.tiles (seedCenter g) !! j = Grid.tiles g !! j.
Proof.
  intros Hj. unfold seedCenter.
  destruct (getTile g _ _) as [[i t]|] eqn:Hc; [|done]. simpl.
  apply list_lookup_insert_ne. intros ->. by eapply Hj.
Qed.

(** C2, amended: an engine operation changes the level of a tile only in
    three ways: the morph advance completes a morph of that tile
    ([morphProgress] reaches 1 and [level] becomes [targetLevel]);
    [aggregate] of a live agent standing on that tile crystallizes it and
    sets its level to HOUSE directly; [seedCenter] sets the level of the
    centre tile to HOUSE directly.  Spawning, walking, the evolution pass
    and the decay pass never change a level. *)
Theorem level_changes (c : Controls) (op : Op) (w : World) (i : nat)
  (t t' : Tile.t) :
  Grid.tiles (grid w) !! i = Some t →
  Grid.tiles (grid (applyOp c op w)) !! i = Some t' →
  Tile.level t' ≠ Tile.level t →
  (op = OpMorph ∧ ¬ (1 <= Tile.morphProgress t)%Q
   ∧ (1 <= Tile.morphProgress t')%Q ∧ Tile.level t' = Tile.targetLevel t)
  ∨ (∃ j a, op = OpAggregate j ∧ Grid.agents (grid w) !! j = Some a
            ∧ Agent.tile a = i ∧ Agent.alive a = true
            ∧ Tile.state t ≠ STATE_SPACE.CRYSTALLIZED
            ∧ Tile.state t' = STATE_SPACE.CRYSTALLIZED
            ∧ Tile.level t' = LEVEL.HOUSE)
  ∨ (op = OpSeedCenter
     ∧ getTile (grid w) (Grid.nCols (grid w) / 2) (Grid.nRows (grid w) / 2)
       = Some (i, t)
     ∧ Tile.state t' = STATE_SPACE.CRYSTALLIZED ∧ Tile.level t' = LEVEL.HOUSE).
Proof.
  intros Ht Ht' Hl.
  pose proof (Forall2_lookup_lr _ _ _ _ _ _ (applyOp_steps c op w) Ht Ht') as Hstep.
  destruct (tile_step_level _ _ _ Hstep Hl)
    as [Hm|[([j ->] & Hs & Hs' & Hh)|(-> & Hs' & Hh)]].
  - by left.
  - right; left. unfold applyOp in Ht'. cbv beta iota zeta in Ht'.
    destruct (Grid.agents (grid w) !! j) as [a|] eqn:Ha; [|congruence].
    exists j, a.
    assert (Agent.tile a = i) as Hi.
    { destruct (decide (i = Agent.tile a)) as [->|Hne]; [done|].
      pose proof (aggregate_lookup_other (stickingProb c) (grid w) a (gen w) i Hne) as Ho.
      destruct (aggregate _ _ _ _) as [[[g' a'] s'] b]. simpl in *. congruence. }
    assert (Agent.alive a = true) as Hal.
    { destruct (Agent.alive a) eqn:E; [done|].
      rewrite aggregate_dead in Ht' by done. simpl in Ht'. congruence. }
    by split_and!.
  - right; right. split; [done|]. split; [|done].
    unfold applyOp in Ht'. cbv beta iota zeta in Ht'. simpl in Ht'.
    destruct (getTile (grid w) _ _) as [[ic tc]|] eqn:Hc.
    + destruct (decide (i = ic)) as [->|Hne].
      * pose proof Hc as Hc'. apply getTile_Some_inv in Hc' as (_ & _ & Hc').
        simpl in Hc'. congruence.
      * rewrite seedCenter_lookup_other in Ht'; [congruence|].
        intros t0. rewrite Hc. congruence.
    + rewrite seedCenter_lookup_other in Ht'; [congruence|].
      intros t0. by rewrite Hc.
Qed.
End Steps.

Lemma level_changes_witness :
  Grid.tiles (grid arrivalWorld) !! 1%nat = Some (newTile 1 0)
  ∧ Grid.tiles (grid (applyOp controls (OpAggregate 0) arrivalWorld)) !! 1%nat
    = Some (set_level 1 (set_state 2 (newTile 1 0)))
  ∧ ((OpAggregate 0 = OpMorph ∧ ¬ (1 <= 1)%Q ∧ (1 <= 1)%Q ∧ 1 = 0)
     ∨ (∃ j a, OpAggregate 0 = OpAggregate j
               ∧ Grid.agents (grid arrivalWorld) !! j = Some a
               ∧ Agent.tile a = 1%nat ∧ Agent.alive a = true
               ∧ 0 ≠ STATE_SPACE.CRYSTALLIZED
               ∧ 2 = STATE_SPACE.CRYSTALLIZED ∧ 1 = LEVEL.HOUSE)
     ∨ (OpAggregate 0 = OpSeedCenter
        ∧ getTile (grid arrivalWorld) (3 / 2) (3 / 2) = Some (1%nat, newTile 1 0)
        ∧ 2 = STATE_SPACE.CRYSTALLIZED ∧ 1 = LEVEL.HOUSE)).
Proof.
  split; [reflexivity|]. split; [reflexivity|].
  exact (level_changes controls (OpAggregate 0) arrivalWorld 1
           (newTile 1 0) (set_level 1 (set_state 2 (newTile 1 0)))
           eq_refl eq_refl ltac:(discriminate)).
Defined.

(** [aggregate] and [seedCenter] assign the level HOUSE directly: the level
    changes although the operation is not a morph advance and the tile's
    morph fields (target EMPTY, progress 1) are untouched. *)
Lemma level_set_without_morph :
  Grid.tiles (grid arrivalWorld) !! 1%nat = Some (newTile 1 0)
  ∧ Grid.tiles (grid (applyOp controls (OpAggregate 0) arrivalWorld)) !! 1%nat
    = Some (Tile.mk 1 0 STATE_SPACE.CRYSTALLIZED LEVEL.HOUSE LEVEL.EMPTY 1 1000 0)
  ∧ Grid.tiles (newGrid 3 3) !! 4%nat = Some (newTile 1 1)
  ∧ Grid.tiles (seedCenter (newGrid 3 3)) !! 4%nat
    = Some (Tile.mk 1 1 STATE_SPACE.CRYSTALLIZED LEVEL.HOUSE LEVEL.EMPTY 1 1000 0)
  ∧ Tile.level (newTile 1 0) ≠ LEVEL.HOUSE
  ∧ OpAggregate 0 ≠ OpMorph ∧ OpSeedCenter ≠ OpMorph.
Proof. split_and!; (reflexivity || discriminate). Qed.

(** ** The decay pass *)

Section Decay.
Context `{Host}.

Lemma decayScan_idle c g acc tile :
  starving g tile = false → decayScan c g acc tile = acc.
Proof.
  unfold starving, decayScan.
  destruct (Tile.state tile.2 =? _); simpl; [|done].
  destruct (Qlt_bool _ 1); simpl; [done|].
  by destruct (isServedBy g tile).
Qed.

Lemma decayScan_draw c g acc tile :
  starving g tile = true →
  decayScan c g acc tile =
    (if Qlt_bool (random acc.2).1 (decayProb c) then acc.1 ++ [tile.1] else acc.1,
     (random acc.2).2).
Proof.
  unfold starving, decayScan.
  destruct (Tile.state tile.2 =? _); simpl; [|done].
  destruct (Qlt_bool _ 1); simpl; [done|].
  destruct (isServedBy g tile); simpl; [done|]. intros _.
  destruct (random acc.2) as [u s']. simpl. by destruct (Qlt_bool u _).
Qed.

Lemma scan_sound c g l acc i :
  i ∈ (foldl (decayScan c g) acc l).1 →
  i ∈ acc.1 ∨ ∃ t, (i, t) ∈ l ∧ starving g (i, t) = true.
Proof.
  revert acc. induction l as [|tile l IH]; intros acc; simpl; [by left|].
  intros Hi. apply IH in Hi as [Hi|(t & Ht & Hs)].
  - destruct (starving g tile) eqn:Hst.
    + rewrite decayScan_draw in Hi by done. simpl in Hi.
      destruct (Qlt_bool _ _); [|by left].
      apply elem_of_app in Hi as [Hi|Hi]; [by left|].
      apply list_elem_of_singleton in Hi as ->. right. exists tile.2.
      destruct tile. split; [left|done].
    + rewrite decayScan_idle in Hi by done. by left.
  - right. exists t. split; [by right|done].
Qed.

Lemma scan_keeps c g l acc i :
  i ∈ acc.1 → i ∈ (foldl (decayScan c g) acc l).1.
Proof.
  revert acc. induction l as [|tile l IH]; intros acc Hi; simpl; [done|].
  apply IH. destruct (starving g tile) eqn:Hst.
  - rewrite decayScan_draw by done. simpl.
    destruct (Qlt_bool _ _); [|done]. apply elem_of_app. by left.
  - by rewrite decayScan_idle.
Qed.

Lemma scan_complete c g l acc tile :
  (∀ s, ((random s).1 < decayProb c)%Q) →
  tile ∈ l → starving g tile = true →
  tile.1 ∈ (foldl (decayScan c g) acc l).1.
Proof.
  intros Hall. revert acc. induction l as [|x l IH]; intros acc Hin Hst.
  { by apply elem_of_nil in Hin. }
  simpl. apply elem_of_cons in Hin as [->|Hin]; [|by apply IH].
  apply scan_keeps. rewrite decayScan_draw by done. simpl.
  specialize (Hall acc.2). apply Qlt_bool_iff in Hall. rewrite Hall.
  apply elem_of_app. right. by left.
Qed.

Lemma foldl_retarget_other target l acc i :
  i ∉ l →
  Grid.tiles (foldl (retarget target) acc l).1 !! i = Grid.tiles acc.1 !! i.
Proof.
  revert acc. induction l as [|x l IH]; intros acc Hi; simpl; [done|].
  apply not_elem_of_cons in Hi as [Hne Hi]. rewrite IH by done.
  unfold retarget. destruct (Grid.tiles acc.1 !! x) as [tile|]; [|done].
  destruct (target tile) as [newLevel|]; [|done].
  destruct (setTargetLevel newLevel tile acc.2) as [tile' k']. simpl.
  by apply list_lookup_insert_ne.
Qed.

Lemma demoteTarget_eq t :
  demoteTarget t = Some (Z.max LEVEL.EMPTY (Tile.level t - 1)).
Proof.
  unfold demoteTarget, LEVEL.HOUSE, LEVEL.EMPTY.
  destruct (Z.ltb_spec (Tile.level t - 1) 1); f_equal; lia.
Qed.

Lemma foldl_demote_hit l acc i t :
  i ∈ l → Grid.tiles acc.1 !! i = Some t → LEVEL.HOUSE <= Tile.level t →
  ∃ t', Grid.tiles (foldl (retarget demoteTarget) acc l).1 !! i = Some t'
        ∧ Tile.targetLevel t' = Z.max LEVEL.EMPTY (Tile.level t - 1)
        ∧ Tile.level t' = Tile.level t ∧ Tile.state t' = Tile.state t
        ∧ Tile.morphProgress t' = 0%Q.
Proof.
  intros Hi Ht Hl. revert acc Ht Hi.
  induction l as [|x l IH]; intros acc Ht Hi; [by apply elem_of_nil in Hi|].
  simpl. destruct (decide (x = i)) as [->|Hne].
  - clear IH Hi.
    assert (∃ now, Grid.tiles (retarget demoteTarget acc i).1 !! i
                   = Some (morphTo (Z.max LEVEL.EMPTY (Tile.level t - 1)) now t))
      as [now Ht1].
    { unfold retarget. rewrite Ht, demoteTarget_eq. unfold setTargetLevel.
      destruct (Z.eqb_spec (Z.max LEVEL.EMPTY (Tile.level t - 1)) (Tile.level t)) as [He|_].
      { unfold LEVEL.EMPTY, LEVEL.HOUSE in *. lia. }
      destruct (millis acc.2) as [now k']. exists now. simpl.
      apply list_lookup_insert_eq. by eapply lookup_lt_Some. }
    pose proof (foldl_retarget_steps OpDecay demoteTarget l
                  (retarget demoteTarget acc i)
                  (λ t newLevel now Hd, step_demote t newLevel now Hd)) as Hs.
    destruct (Forall2_lookup_l _ _ _ _ _ Hs Ht1) as (t' & Ht' & Hstep).
    exists t'. split; [done|].
    inversion Hstep as [| | | | |t0 newLevel now' Hd| | |]; subst; simpl; [done|].
    rewrite demoteTarget_eq in Hd. injection Hd as <-. done.
  - apply elem_of_cons in Hi as [->|Hi]; [done|].
    apply IH; [|done].
    unfold retarget. destruct (Grid.tiles acc.1 !! x) as [tile|]; [|done].
    destruct (demoteTarget tile) as [newLevel|]; [|done].
    destruct (setTargetLevel newLevel tile acc.2) as [tile' k']. simpl.
    by rewrite list_lookup_insert_ne.
Qed.

Lemma decayBody_sound c g s k i t t' :
  Grid.tiles g !! i = Some t →
  Grid.tiles (decayBody c g s k).1.1.1 !! i = Some t' →
  t' ≠ t → starving g (i, t) = true.
Proof.
  intros Ht Ht' Hne. unfold decayBody in Ht'.
  pose proof (scan_sound c g (indexed g) ([], s) i) as Hsound.
  destruct (foldl (decayScan c g) ([], s) (indexed g)) as [toDemote s'].
  pose proof (foldl_retarget_other demoteTarget toDemote (g, k) i) as Hother.
  destruct (foldl (retarget demoteTarget) (g, k) toDemote) as [g' k'].
  simpl in *.
  destruct (decide (i ∈ toDemote)) as [Hin|Hnin].
  - destruct (Hsound Hin) as [Hnil|(t0 & Hin0 & Hst)].
    + by apply elem_of_nil in Hnil.
    + apply elem_of_indexed in Hin0. simpl in Hin0. congruence.
  - rewrite Hother in Ht' by done. congruence.
Qed.

Lemma decayBody_complete c g s k i t :
  (∀ s, ((random s).1 < decayProb c)%Q) →
  Grid.tiles g !! i = Some t → starving g (i, t) = true →
  LEVEL.HOUSE <= Tile.level t →
  ∃ t', Grid.tiles (decayBody c g s k).1.1.1 !! i = Some t'
        ∧ Tile.targetLevel t' = Z.max LEVEL.EMPTY (Tile.level t - 1)
        ∧ Tile.level t' = Tile.level t ∧ Tile.state t' = Tile.state t
        ∧ Tile.morphProgress t' = 0%Q.
Proof.
  intros Hall Ht Hst Hl. unfold decayBody.
  pose proof (scan_complete c g (indexed g) ([], s) (i, t) Hall) as Hc.
  destruct (foldl (decayScan c g) ([], s) (indexed g)) as [toDemote s'].
  pose proof (foldl_demote_hit toDemote (g, k) i t) as Hhit.
  destruct (foldl (retarget demoteTarget) (g, k) toDemote) as [g' k'].
  simpl in *. apply Hhit; [|done|done].
  apply Hc; [|done]. by apply elem_of_indexed.
Qed.
(** C3, amended: the decay pass is skipped entirely (no tile is touched, no
    sample is drawn, the clock is not read) exactly while at most 10 tiles
    are non-Empty.  With 11 or more non-Empty tiles the scan and the
    demotions run: only starving tiles (Crystallized, not morphing, not
    served) are touched, and when every sample falls below [decayProb]
    every starving building starts a morph one level down. *)
Theorem decayPass_grace (c : Controls) (g : Grid.t) (s : rng) (k : clock) :
  (nonEmptyCount g <= 10 → decayPass c g s k = (g, s, k, None))
  ∧ (10 < nonEmptyCount g →
     decayPass c g s k = decayBody c g s k
     ∧ (∀ i t t',
          Grid.tiles g !! i = Some t →
          Grid.tiles (decayPass c g s k).1.1.1 !! i = Some t' →
          t' ≠ t → starving g (i, t) = true)
     ∧ ((∀ s0, ((random s0).1 < decayProb c)%Q) →
        ∀ i t,
          Grid.tiles g !! i = Some t → starving g (i, t) = true →
          LEVEL.HOUSE <= Tile.level t →
          ∃ t', Grid.tiles (decayPass c g s k).1.1.1 !! i = Some t'
                ∧ Tile.targetLevel t' = Z.max LEVEL.EMPTY (Tile.level t - 1)
                ∧ Tile.level t' = Tile.level t ∧ Tile.state t' = Tile.state t
                ∧ Tile.morphProgress t' = 0%Q)).
Proof.
  unfold decayPass.
  destruct (Z.leb_spec (nonEmptyCount g) 10); split; try (done || lia).
  intros _. split_and!; [done| |].
  - apply decayBody_sound.
  - intros Hall i t. by apply decayBody_complete.
Qed.
End Decay.

(** With exactly 10 non-Empty tiles the pass is still skipped, although its
    scan would demote seven of the ten starving houses. *)
Lemma decayPass_skipped_at_ten :
  nonEmptyCount (houses 10) = 10
  ∧ decayPass controls (houses 10) (randomSeed 42) (0%Q, 16%Q)
    = (houses 10, randomSeed 42, (0%Q, 16%Q), None)
  ∧ (decayBody controls (houses 10) (randomSeed 42) (0%Q, 16%Q)).2 = Some 7.
Proof. split_and!; by vm_compute. Qed.

(** With 11 non-Empty tiles the same scan runs. *)
Lemma decayPass_runs_at_eleven :
  nonEmptyCount (houses 11) = 11
  ∧ (decayPass controls (houses 11) (randomSeed 42) (0%Q, 16%Q)).2 = Some 7.
Proof. split; by vm_compute. Qed.

(** ** Reproducibility *)

Section Determinism.
Context `{Host}.
Variable R : clock → clock → Prop.
Hypothesis HR : same_readings R.

Lemma setTargetLevel_readings newLevel t k1 k2 :
  R k1 k2 →
  (setTargetLevel newLevel t k1).1 = (setTargetLevel newLevel t k2).1
  ∧ R (setTargetLevel newLevel t k1).2 (setTargetLevel newLevel t k2).2.
Proof.
  intros Hk. unfold setTargetLevel. destruct (newLevel =? Tile.level t); [done|].
  destruct (HR _ _ Hk) as [Hn Hk'].
  destruct (millis k1) as [now1 k1'], (millis k2) as [now2 k2']. simpl in *.
  by subst.
Qed.

Lemma updateMorphing_readings t k1 k2 :
  R k1 k2 →
  (updateMorphing t k1).1 = (updateMorphing t k2).1
  ∧ R (updateMorphing t k1).2 (updateMorphing t k2).2.
Proof.
  intros Hk. unfold updateMorphing.
  destruct (Qle_bool 1 (Tile.morphProgress t)); [done|].
  destruct (HR _ _ Hk) as [Hn Hk'].
  destruct (millis k1) as [now1 k1'], (millis k2) as [now2 k2']. simpl in *.
  subst now2. destruct (Qle_bool 1 _); [|done].
  by destruct (Tile.targetLevel _ =? _).
Qed.

Lemma forEach_readings {A B} (f : A → clock → B * clock) l k1 k2 :
  (∀ x k1 k2, R k1 k2 → (f x k1).1 = (f x k2).1 ∧ R (f x k1).2 (f x k2).2) →
  R k1 k2 →
  (forEach f l k1).1 = (forEach f l k2).1
  ∧ R (forEach f l k1).2 (forEach f l k2).2.
Proof.
  intros Hf. revert k1 k2. induction l as [|x l IH]; intros k1 k2 Hk; simpl; [done|].
  destruct (Hf x _ _ Hk) as [Hy Hk'].
  destruct (f x k1) as [y1 k1'], (f x k2) as [y2 k2']. simpl in *. subst y2.
  destruct (IH _ _ Hk') as [Hys Hk''].
  destruct (forEach f l k1') as [ys1 k1''], (forEach f l k2') as [ys2 k2''].
  simpl in *. by subst.
Qed.

Lemma updateAllMorphing_readings g k1 k2 :
  R k1 k2 →
  (updateAllMorphing g k1).1 = (updateAllMorphing g k2).1
  ∧ R (updateAllMorphing g k1).2 (updateAllMorphing g k2).2.
Proof.
  intros Hk. unfold updateAllMorphing.
  destruct (forEach_readings updateMorphing (Grid.tiles g) k1 k2
              updateMorphing_readings Hk) as [Hts Hk'].
  destruct (forEach updateMorphing (Grid.tiles g) k1) as [ts1 k1'],
           (forEach updateMorphing (Grid.tiles g) k2) as [ts2 k2'].
  simpl in *. by subst.
Qed.

Lemma foldl_retarget_readings target l g k1 k2 :
  R k1 k2 →
  (foldl (retarget target) (g, k1) l).1 = (foldl (retarget target) (g, k2) l).1
  ∧ R (foldl (retarget target) (g, k1) l).2 (foldl (retarget target) (g, k2) l).2.
Proof.
  revert g k1 k2. induction l as [|i l IH]; intros g k1 k2 Hk; simpl; [done|].
  assert ((retarget target (g, k1) i).1 = (retarget target (g, k2) i).1
          ∧ R (retarget target (g, k1) i).2 (retarget target (g, k2) i).2)
    as [Hg Hk'].
  { unfold retarget. simpl.
    destruct (Grid.tiles g !! i) as [tile|]; [|done].
    destruct (target tile) as [newLevel|]; [|done].
    destruct (setTargetLevel_readings newLevel tile k1 k2 Hk) as [Ht Hk'].
    destruct (setTargetLevel newLevel tile k1) as [t1 k1'],
             (setTargetLevel newLevel tile k2) as [t2 k2'].
    simpl in *. by subst. }
  destruct (retarget target (g, k1) i) as [g1 k1'],
           (retarget target (g, k2) i) as [g2 k2']. simpl in *. subst g2.
  by apply IH.
Qed.

Lemma evolveAll_readings c g k1 k2 :
  R k1 k2 →
  (evolveAll c g k1).1.1 = (evolveAll c g k2).1.1
  ∧ R (evolveAll c g k1).1.2 (evolveAll c g k2).1.2.
Proof. intros Hk. unfold evolveAll. simpl. by apply foldl_retarget_readings. Qed.

Lemma decayPass_readings c g s k1 k2 :
  R k1 k2 →
  (decayPass c g s k1).1.1 = (decayPass c g s k2).1.1
  ∧ R (decayPass c g s k1).1.2 (decayPass c g s k2).1.2.
Proof.
  intros Hk. unfold decayPass. destruct (nonEmptyCount g <=? 10); [done|].
  unfold decayBody.
  destruct (foldl (decayScan c g) ([], s) (indexed g)) as [toDemote s'].
  destruct (foldl_retarget_readings demoteTarget toDemote g k1 k2 Hk) as [Hg Hk'].
  destruct (foldl (retarget demoteTarget) (g, k1) toDemote) as [g1 k1'],
           (foldl (retarget demoteTarget) (g, k2) toDemote) as [g2 k2'].
  simpl in *. by subst.
Qed.

Lemma draw_readings c w1 w2 :
  grid w1 = grid w2 → gen w1 = gen w2 → frameCount w1 = frameCount w2 →
  R (clk w1) (clk w2) →
  grid (draw c w1) = grid (draw c w2) ∧ gen (draw c w1) = gen (draw c w2)
  ∧ frameCount (draw c w1) = frameCount (draw c w2)
  ∧ R (clk (draw c w1)) (clk (draw c w2)).
Proof.
  intros Hg Hs Hf Hk. unfold draw. destruct (paused c); [done|].
  rewrite Hg, Hs, Hf.
  destruct (spawnPhase c (frameCount w2) (grid w2) (gen w2)) as [g1 s1].
  destruct (updateAgents c g1 s1) as [g2 s2].
  assert ((evolvePhase c (frameCount w2) (removeDead g2) (clk w1)).1
          = (evolvePhase c (frameCount w2) (removeDead g2) (clk w2)).1
          ∧ R (evolvePhase c (frameCount w2) (removeDead g2) (clk w1)).2
              (evolvePhase c (frameCount w2) (removeDead g2) (clk w2)).2)
    as [Hg4 Hk4].
  { unfold evolvePhase. destruct (cadence _ _); [|done].
    by apply evolveAll_readings. }
  destruct (evolvePhase c _ _ (clk w1)) as [g4 k4],
           (evolvePhase c _ _ (clk w2)) as [g4' k4']. simpl in *. subst g4'.
  assert ((decayPhase c (frameCount w2) g4 s2 k4).1
          = (decayPhase c (frameCount w2) g4 s2 k4').1
          ∧ R (decayPhase c (frameCount w2) g4 s2 k4).2
              (decayPhase c (frameCount w2) g4 s2 k4').2) as [Hg5 Hk5].
  { unfold decayPhase. destruct (cadence _ _); [|done].
    by apply decayPass_readings. }
  destruct (decayPhase c _ g4 s2 k4) as [[g5 s5] k5],
           (decayPhase c _ g4 s2 k4') as [[g5' s5'] k5']. simpl in *.
  injection Hg5 as -> ->.
  destruct (updateAllMorphing_readings g5' k5 k5' Hk5) as [Hg6 Hk6].
  destruct (updateAllMorphing g5' k5) as [g6 k6],
           (updateAllMorphing g5' k5') as [g6' k6']. simpl in *. by subst.
Qed.

Lemma run_readings c n w1 w2 :
  grid w1 = grid w2 → gen w1 = gen w2 → frameCount w1 = frameCount w2 →
  R (clk w1) (clk w2) →
  grid (run c n w1) = grid (run c n w2) ∧ gen (run c n w1) = gen (run c n w2)
  ∧ frameCount (run c n w1) = frameCount (run c n w2)
  ∧ R (clk (run c n w1)) (clk (run c n w2)).
Proof.
  revert w1 w2. induction n as [|n IH]; intros w1 w2 Hg Hs Hf Hk; simpl; [done|].
  unfold frame.
  destruct (draw_readings c
              (mkWorld (grid w1) (gen w1) (clk w1) (frameCount w1 + 1))
              (mkWorld (grid w2) (gen w2) (clk w2) (frameCount w2 + 1)))
    as (? & ? & ? & ?); simpl; try done; [by rewrite Hf|].
  by apply IH.
Qed.

(** C1, amended: after a reset with a given seed, the states reached by N
    frames, and so the tile snapshots, are a function of the seed, the
    configuration, the grid dimensions, the frame counter at the reset and
    the readings of the clock: two runs that agree on these agree on every
    snapshot, whatever grid, agents and generator state preceded the
    reset. *)
Theorem run_deterministic (c : Controls) (n : nat) (rows cols newSeed : Z)
  (w1 w2 : World) :
  frameCount w1 = frameCount w2 → R (clk w1) (clk w2) →
  snapshot (grid (run c n (reset rows cols newSeed w1)))
  = snapshot (grid (run c n (reset rows cols newSeed w2)))
  ∧ grid (run c n (reset rows cols newSeed w1))
    = grid (run c n (reset rows cols newSeed w2))
  ∧ gen (run c n (reset rows cols newSeed w1))
    = gen (run c n (reset rows cols newSeed w2)).
Proof.
  intros Hf Hk.
  destruct (run_readings c n (reset rows cols newSeed w1)
              (reset rows cols newSeed w2)) as (Hg & Hs & _); try done.
  by rewrite Hg.
Qed.
End Determinism.

Lemma run_deterministic_witness :
  same_readings (@eq (@clock lcgHost))
  ∧ frameCount (startWorld 16) = frameCount arrivalWorld
  ∧ clk (startWorld 16) = clk arrivalWorld
  ∧ snapshot (grid (run controls 15 (reset 3 3 42 (startWorld 16))))
    = snapshot (grid (run controls 15 (reset 3 3 42 arrivalWorld))).
Proof.
  assert (same_readings (@eq (@clock lcgHost))) as HR.
  { intros k1 k2 ->. split; reflexivity. }
  split; [exact HR|]. split; [reflexivity|]. split; [reflexivity|].
  apply (run_deterministic eq HR controls 15 3 3 42 (startWorld 16) arrivalWorld);
    reflexivity.
Defined.

(** Two runs from the same reset, with the same seed and the same
    configuration, that differ only in the clock.  With readings 16 ms and
    1000 ms apart, the morphs started by the evolution pass of frame 15 are
    in flight after that frame in the first run and complete in the second,
    so the levels differ; with readings 16 ms and 4 ms apart the levels
    differ after 28 frames.  Two runs of 2 frames that differ only in the
    frame counter at the reset differ as well. *)
Lemma trace_depends_on_clock :
  Tile.level <$> Grid.tiles (grid (run controls 15 (smallWorld 16)))
    = [0; 1; 0; 1; 1; 1; 0; 0; 1]
  ∧ Tile.level <$> Grid.tiles (grid (run controls 15 (smallWorld 1000)))
    = [0; 2; 0; 2; 2; 2; 0; 0; 2]
  ∧ snapshot (grid (run controls 15 (smallWorld 16)))
    ≠ snapshot (grid (run controls 15 (smallWorld 1000)))
  ∧ Tile.level <$> Grid.tiles (grid (run controls 28 (smallWorld 16)))
    = [0; 2; 1; 2; 2; 2; 0; 1; 2]
  ∧ Tile.level <$> Grid.tiles (grid (run controls 28 (smallWorld 4)))
    = [0; 1; 1; 1; 1; 1; 0; 1; 1]
  ∧ clk (lateWorld 16) = clk (smallWorld 16)
  ∧ snapshot (grid (run controls 2 (smallWorld 16)))
    ≠ snapshot (grid (run controls 2 (lateWorld 16))).
Proof.
  split_and!; by vm_compute.
Qed.

(** * Further properties *)

(** ** The tile array and the neighbourhood *)

Lemma createTiles_length nRows nCols :
  length (createTiles nRows nCols) = (Z.to_nat nRows * Z.to_nat nCols)%nat.
Proof.
  unfold createTiles. rewrite length_join.
  rewrite (sum_list_fmap_same (Z.to_nat nCols)).
  - by rewrite length_fmap, length_seqZ.
  - apply Forall_fmap. apply list.Forall_forall. intros x _. simpl.
    by rewrite length_fmap, length_seqZ.
Qed.

Lemma createTiles_lookup_inv nRows nCols i t :
  createTiles nRows nCols !! i = Some t →
  0 <= Tile.q t < nCols ∧ 0 <= Tile.r t < nRows
  ∧ i = Z.to_nat (Tile.r t * nCols + Tile.q t) ∧ t = newTile (Tile.q t) (Tile.r t).
Proof.
  unfold createTiles. intros Hi.
  apply (join_lookup_Some_same_length (Z.to_nat nCols)) in Hi
    as (j & l & i' & Hj & Hi' & ->).
  2:{ apply Forall_fmap. apply list.Forall_forall. intros x _. simpl.
      by rewrite length_fmap, length_seqZ. }
  rewrite list_lookup_fmap in Hj.
  destruct (seqZ 0 nRows !! j) as [r|] eqn:Hr; [|done].
  apply lookup_seqZ in Hr as [-> Hr]. simpl in Hj. injection Hj as <-.
  rewrite list_lookup_fmap in Hi'.
  destruct (seqZ 0 nCols !! i') as [q|] eqn:Hq; [|done].
  apply lookup_seqZ in Hq as [-> Hq]. simpl in Hi'. injection Hi' as <-.
  simpl. split_and!; try lia. done.
Qed.

Lemma wf_lookup_inv g i t :
  wf_grid g → Grid.tiles g !! i = Some t →
  in_bounds g (Tile.q t) (Tile.r t)
  ∧ i = Z.to_nat (Tile.r t * Grid.nCols g + Tile.q t).
Proof.
  intros Hwf Ht. unfold wf_grid in Hwf.
  pose proof (f_equal (λ l, l !! i) Hwf) as E. simpl in E.
  rewrite !list_lookup_fmap, Ht in E. simpl in E.
  destruct (createTiles _ _ !! i) as [t0|] eqn:H0; [|done].
  simpl in E. injection E as Eq Er.
  apply createTiles_lookup_inv in H0 as (? & ? & ? & _).
  unfold in_bounds. rewrite Eq, Er. done.
Qed.

Lemma wf_length g :
  wf_grid g →
  length (Grid.tiles g) = (Z.to_nat (Grid.nRows g) * Z.to_nat (Grid.nCols g))%nat.
Proof.
  intros Hwf. unfold wf_grid in Hwf.
  apply (f_equal length) in Hwf. rewrite !length_fmap in Hwf.
  by rewrite Hwf, createTiles_length.
Qed.

Lemma wf_getTile (g : Grid.t) (i : nat) (t : Tile.t) :
  wf_grid g → Grid.tiles g !! i = Some t →
  in_bounds g (Tile.q t) (Tile.r t)
  ∧ getTile g (Tile.q t) (Tile.r t) = Some (i, t)
  ∧ (∀ j t', Grid.tiles g !! j = Some t' → coords t' = coords t → j = i).
Proof.
  intros Hwf Ht. destruct (wf_lookup_inv g i t Hwf Ht) as [Hb Hi].
  split; [done|]. split.
  - destruct (getTile_in_bounds g _ _ Hwf Hb) as (t0 & Hg & Ht0 & _).
    rewrite <- Hi in Hg, Ht0. congruence.
  - intros j t' Ht' Hc. destruct (wf_lookup_inv g j t' Hwf Ht') as [_ Hj].
    unfold coords in Hc. injection Hc as Hq Hr. rewrite Hq, Hr in Hj. congruence.
Qed.

Lemma hexDistance_zero_coords a b : hexDistance a b = 0 ↔ coords a = coords b.
Proof.
  rewrite hexDistance_eq. unfold coords. split.
  - intros H. assert (Tile.q a = Tile.q b) as Hq by lia.
    rewrite Hq in *. f_equal; lia.
  - intros [= -> ->]. lia.
Qed.

Lemma direction_complete a b :
  0 <= Tile.q a → hexDistance a b = 1 →
  ∃ d, d ∈ directions (Tile.q a)
       ∧ Tile.q b = Tile.q a + d.1 ∧ Tile.r b = Tile.r a + d.2.
Proof.
  intros Hq Hd. rewrite hexDistance_eq in Hd.
  assert (-1 <= Tile.q a - Tile.q b <= 1
          ∧ -1 <= (Tile.r a - Tile.q a / 2) - (Tile.r b - Tile.q b / 2) <= 1
          ∧ -1 <= (Tile.q b - Tile.q a)
                  + ((Tile.r b - Tile.q b / 2) - (Tile.r a - Tile.q a / 2)) <= 1
          ∧ (Tile.q a ≠ Tile.q b
             ∨ Tile.r a - Tile.q a / 2 ≠ Tile.r b - Tile.q b / 2)) as Hb.
  { revert Hd. generalize (Tile.r a - Tile.q a / 2) (Tile.r b - Tile.q b / 2).
    intros za zb Hd. lia. }
  clear Hd. unfold directions. rewrite isOddCol_mod by done.
  pose proof (Z.div_mod (Tile.q a) 2 ltac:(lia)) as Ea.
  pose proof (Z.mod_pos_bound (Tile.q a) 2 ltac:(lia)) as Ma.
  pose proof (Z.div_mod (Tile.q b) 2 ltac:(lia)) as Eb.
  pose proof (Z.mod_pos_bound (Tile.q b) 2 ltac:(lia)) as Mb.
  revert Hb Ea Ma Eb Mb.
  generalize (Tile.q a / 2) (Tile.q a mod 2) (Tile.q b / 2) (Tile.q b mod 2).
  intros ha ma hb mb Hb Ea Ma Eb Mb.
  destruct (Z.eqb_spec ma 1) as [Ho|He].
  - assert ((Tile.q b = Tile.q a + 1 ∧ Tile.r b = Tile.r a + 0)
            ∨ (Tile.q b = Tile.q a + 1 ∧ Tile.r b = Tile.r a + 1)
            ∨ (Tile.q b = Tile.q a + 0 ∧ Tile.r b = Tile.r a + 1)
            ∨ (Tile.q b = Tile.q a + -1 ∧ Tile.r b = Tile.r a + 1)
            ∨ (Tile.q b = Tile.q a + -1 ∧ Tile.r b = Tile.r a + 0)
            ∨ (Tile.q b = Tile.q a + 0 ∧ Tile.r b = Tile.r a + -1)) as Hc by lia.
    unfold oddDirections.
    destruct Hc as [Hc|[Hc|[Hc|[Hc|[Hc|Hc]]]]];
      [exists (1, 0)|exists (1, 1)|exists (0, 1)|exists (-1, 1)|exists (-1, 0)
      |exists (0, -1)]; (split; [repeat constructor|exact Hc]).
  - assert ((Tile.q b = Tile.q a + 1 ∧ Tile.r b = Tile.r a + -1)
            ∨ (Tile.q b = Tile.q a + 1 ∧ Tile.r b = Tile.r a + 0)
            ∨ (Tile.q b = Tile.q a + 0 ∧ Tile.r b = Tile.r a + 1)
            ∨ (Tile.q b = Tile.q a + -1 ∧ Tile.r b = Tile.r a + 0)
            ∨ (Tile.q b = Tile.q a + -1 ∧ Tile.r b = Tile.r a + -1)
            ∨ (Tile.q b = Tile.q a + 0 ∧ Tile.r b = Tile.r a + -1)) as Hc by lia.
    unfold evenDirections.
    destruct Hc as [Hc|[Hc|[Hc|[Hc|[Hc|Hc]]]]];
      [exists (1, -1)|exists (1, 0)|exists (0, 1)|exists (-1, 0)|exists (-1, -1)
      |exists (0, -1)]; (split; [repeat constructor|exact Hc]).
Qed.

(** X1: on a grid as the constructor lays it out, the hex distance of two
    tiles is zero exactly when they have the same coordinates, which is
    exactly when they are the same tile of the array. *)
Theorem hexDistance_zero (g : Grid.t) (i j : nat) (a b : Tile.t) :
  wf_grid g → Grid.tiles g !! i = Some a → Grid.tiles g !! j = Some b →
  (hexDistance a b = 0 ↔ coords a = coords b) ∧ (hexDistance a b = 0 ↔ i = j).
Proof.
  intros Hwf Ha Hb. split; [apply hexDistance_zero_coords|].
  rewrite hexDistance_zero_coords. split.
  - intros Hc. symmetry.
    by apply (wf_getTile g i a Hwf Ha) with b.
  - intros ->. congruence.
Qed.

Lemma getNeighbors_intro g q r d n :
  d ∈ directions q → getTile g (q + d.1) (r + d.2) = Some n →
  n ∈ getNeighbors g q r.
Proof.
  intros Hd Hg. unfold getNeighbors, neighborSlots.
  apply list_elem_of_omap. exists (Some n). split; [|done].
  apply list_elem_of_fmap. by exists d.
Qed.

Lemma getNeighbors_distance g i j a b :
  wf_grid g → Grid.tiles g !! i = Some a → Grid.tiles g !! j = Some b →
  (j, b) ∈ getNeighbors g (Tile.q a) (Tile.r a) ↔ hexDistance a b = 1.
Proof.
  intros Hwf Ha Hb.
  destruct (wf_getTile g i a Hwf Ha) as ([Hqa _] & _ & _).
  destruct (wf_getTile g j b Hwf Hb) as (_ & Hgb & _).
  split.
  - intros Hn. apply getNeighbors_elem in Hn as (d & Hd & Hg).
    destruct (getTile_coords _ _ _ _ Hwf Hg) as [Hq Hr]. simpl in *.
    apply (direction_distance a b d); [lia|done|done|done].
  - intros Hd. destruct (direction_complete a b) as (d & Hd' & Hq & Hr);
      [lia|done|].
    apply (getNeighbors_intro g _ _ d); [done|]. by rewrite <- Hq, <- Hr.
Qed.

(** X2: [getNeighbors] of a tile returns exactly the tiles of the grid at
    hex distance 1 from it, so adjacency is symmetric: [b] is a neighbour of
    [a] exactly when [a] is a neighbour of [b]. *)
Theorem getNeighbors_exact (g : Grid.t) (i j : nat) (a b : Tile.t) :
  wf_grid g → Grid.tiles g !! i = Some a → Grid.tiles g !! j = Some b →
  ((j, b) ∈ getNeighbors g (Tile.q a) (Tile.r a) ↔ hexDistance a b = 1)
  ∧ ((j, b) ∈ getNeighbors g (Tile.q a) (Tile.r a)
     ↔ (i, a) ∈ getNeighbors g (Tile.q b) (Tile.r b)).
Proof.
  intros Hwf Ha Hb.
  split; [by apply (getNeighbors_distance g i j)|].
  rewrite (getNeighbors_distance g i j a b), (getNeighbors_distance g j i b a) by done.
  by rewrite hexDistance_sym.
Qed.

Lemma directions_NoDup q : NoDup (directions q).
Proof.
  unfold directions. destruct (isOddCol q).
  - by apply (bool_decide_unpack _); vm_compute.
  - by apply (bool_decide_unpack _); vm_compute.
Qed.

Lemma neighbor_coords_sublist g q r ds :
  wf_grid g →
  (λ n : nat * Tile.t, coords n.2)
    <$> omap id ((λ d, getTile g (q + d.1) (r + d.2)) <$> ds)
  `sublist_of` (λ d : Z * Z, (q + d.1, r + d.2)) <$> ds.
Proof.
  intros Hwf. induction ds as [|d ds IH]; csimpl; [done|].
  destruct (getTile g (q + d.1) (r + d.2)) as [n|] eqn:Hg; csimpl.
  - destruct (getTile_coords _ _ _ _ Hwf Hg) as [Hq Hr].
    unfold coords at 1. rewrite Hq, Hr. by apply sublist_skip.
  - by apply sublist_cons.
Qed.

Lemma getNeighbors_NoDup g q r : wf_grid g → NoDup (getNeighbors g q r).
Proof.
  intros Hwf. apply (NoDup_fmap_1 (λ n : nat * Tile.t, coords n.2)).
  eapply sublist_NoDup; [|by apply (neighbor_coords_sublist g q r (directions q))].
  apply NoDup_fmap_2_strong; [|apply directions_NoDup].
  intros [a b] [a' b'] _ _ [= ? ?]. f_equal; lia.
Qed.

Lemma omap_all_present g q r ds :
  wf_grid g → Forall (λ d : Z * Z, in_bounds g (q + d.1) (r + d.2)) ds →
  length (omap id ((λ d, getTile g (q + d.1) (r + d.2)) <$> ds)) = length ds.
Proof.
  intros Hwf. induction 1 as [|d ds Hd _ IH]; csimpl; [done|].
  destruct (getTile_in_bounds g _ _ Hwf Hd) as (t & -> & _). csimpl.
  by rewrite IH.
Qed.

(** X3: the neighbour list holds no tile twice and never the tile at
    [(q, r)] itself; a tile with a full ring around it (not on the first or
    last row or column) has exactly six neighbours. *)
Theorem getNeighbors_distinct (g : Grid.t) (q r : Z) :
  wf_grid g → in_bounds g q r →
  NoDup (getNeighbors g q r)
  ∧ (∀ n, n ∈ getNeighbors g q r → (Tile.q n.2, Tile.r n.2) ≠ (q, r))
  ∧ (1 <= q <= Grid.nCols g - 2 → 1 <= r <= Grid.nRows g - 2 →
     length (getNeighbors g q r) = 6%nat).
Proof.
  intros Hwf Hb. split; [by apply getNeighbors_NoDup|]. split.
  - intros n Hn Heq.
    destruct (getTile_in_bounds g q r Hwf Hb) as (t & Ht & Hl & Hq & Hr).
    apply getNeighbors_elem in Hn as (d & Hd & Hg).
    destruct (getTile_coords _ _ _ _ Hwf Hg) as [Hnq Hnr].
    assert (hexDistance t n.2 = 1) as H1.
    { apply (direction_distance t n.2 d); rewrite ?Hq, ?Hr; try done.
      destruct Hb; lia. }
    assert (hexDistance t n.2 = 0) as H0.
    { apply hexDistance_zero_coords. unfold coords. by rewrite Hq, Hr. }
    lia.
  - intros Hq Hr. unfold getNeighbors, neighborSlots.
    rewrite omap_all_present; [|done|].
    + unfold directions. by destruct (isOddCol q).
    + apply list.Forall_forall. intros d Hd. unfold in_bounds.
      unfold directions in Hd.
      destruct (isOddCol q); unfold oddDirections, evenDirections in Hd;
        repeat (apply elem_of_cons in Hd as [->|Hd]);
        try (by apply elem_of_nil in Hd); simpl; lia.
Qed.

(** X4: [getTile] inverts the array: the tile stored at index [i] carries
    the coordinates [(q, r)] with [i = r * nCols + q], [getTile(q, r)]
    returns that very tile, no other index holds a tile with these
    coordinates, and the array has [nRows * nCols] entries. *)
Theorem getTile_roundtrip (g : Grid.t) (i : nat) (t : Tile.t) :
  wf_grid g → Grid.tiles g !! i = Some t →
  (i < Z.to_nat (Grid.nRows g) * Z.to_nat (Grid.nCols g))%nat
  ∧ i = Z.to_nat (Tile.r t * Grid.nCols g + Tile.q t)
  ∧ getTile g (Tile.q t) (Tile.r t) = Some (i, t)
  ∧ (∀ j t', Grid.tiles g !! j = Some t' → coords t' = coords t → j = i).
Proof.
  intros Hwf Ht. destruct (wf_getTile g i t Hwf Ht) as (_ & Hg & Hu).
  split_and!; try done.
  - rewrite <- wf_length by done. by eapply lookup_lt_Some.
  - by destruct (wf_lookup_inv g i t Hwf Ht).
Qed.

(** ** Tiles within a range *)

Lemma hexDistance_nonneg a b : 0 <= hexDistance a b.
Proof. rewrite hexDistance_eq. lia. Qed.

Lemma indexed_NoDup g : NoDup (indexed g).
Proof.
  apply NoDup_alt. intros i j [k t] Hi Hj. unfold indexed in *.
  rewrite list_lookup_imap in Hi, Hj.
  destruct (Grid.tiles g !! i); destruct (Grid.tiles g !! j); simplify_eq/=.
  done.
Qed.

Lemma elem_of_getTilesInRange g q r range n :
  n ∈ getTilesInRange g q r range ↔
    ∃ center ρ, getTile g q r = Some center ∧ range = Some ρ
                ∧ Grid.tiles g !! n.1 = Some n.2
                ∧ hexDistance center.2 n.2 <= ρ.
Proof.
  unfold getTilesInRange.
  destruct (getTile g q r) as [center|].
  - rewrite list_elem_of_filter, elem_of_indexed. destruct range as [ρ|]; simpl.
    + rewrite Z.leb_le. split.
      * intros [? ?]. by exists center, ρ.
      * intros (c & ρ' & [= <-] & [= <-] & ? & ?). done.
    + split; [by intros [? _]|]. by intros (? & ? & _ & ? & _).
  - split; [by intros ?%elem_of_nil|]. by intros (? & ? & ? & _).
Qed.

(** X5: [getTilesInRange(q, r, range)] returns, without repetition, exactly
    the tiles of the grid within hex distance [range] of the tile at
    [(q, r)]; it holds that tile itself when [range] is not negative, and it
    is empty when [(q, r)] is outside the grid, when [range] is
    [undefined], and when [range] is negative. *)
Theorem getTilesInRange_spec (g : Grid.t) (q r : Z) (range : option Z) :
  (∀ n, n ∈ getTilesInRange g q r range ↔
        ∃ center ρ, getTile g q r = Some center ∧ range = Some ρ
                    ∧ Grid.tiles g !! n.1 = Some n.2
                    ∧ hexDistance center.2 n.2 <= ρ)
  ∧ (∀ center ρ, getTile g q r = Some center → range = Some ρ → 0 <= ρ →
       center ∈ getTilesInRange g q r range)
  ∧ (getTile g q r = None ∨ range = None ∨ (∃ ρ, range = Some ρ ∧ ρ < 0) →
       getTilesInRange g q r range = [])
  ∧ NoDup (getTilesInRange g q r range).
Proof.
  pose proof (elem_of_getTilesInRange g q r range) as Hiff.
  split; [exact Hiff|]. split_and!.
  - intros center ρ Hc -> Hρ. apply Hiff. exists center, ρ.
    split_and!; try done.
    + by apply getTile_Some_inv in Hc as (_ & _ & ?).
    + rewrite hexDistance_refl. done.
  - intros Hcase. apply elem_of_nil_inv. intros n Hn.
    apply Hiff in Hn as (center & ρ & Hc & Hr & _ & Hd).
    destruct Hcase as [?|[?|(ρ' & ? & ?)]]; try congruence.
    pose proof (hexDistance_nonneg center.2 n.2). simplify_eq. lia.
  - unfold getTilesInRange. destruct (getTile g q r); [|constructor].
    apply list.NoDup_filter, indexed_NoDup.
Qed.

(** ** The seed and the edge *)

Lemma getTile_insert g q r i t t' :
  getTile g q r = Some (i, t) →
  getTile (set_tiles (<[i := t']> (Grid.tiles g)) g) q r = Some (i, t').
Proof.
  intros Hc. pose proof (getTile_Some_inv _ _ _ _ Hc) as (_ & Hi & Ht).
  unfold getTile in *. simpl in *.
  destruct (_ || _); [done|]. cbv zeta in *.
  rewrite <- Hi. rewrite list_lookup_insert_eq; [done|].
  by eapply lookup_lt_Some.
Qed.

(** X6: [seedCenter] turns the tile at [(nCols div 2, nRows div 2)] into a
    Crystallized House and touches no other tile and no agent; the centre
    exists on every grid with a positive number of rows and columns, and
    without it the grid is returned unchanged; seeding twice is seeding
    once. *)
Theorem seedCenter_spec (g : Grid.t) :
  (∀ i t, getTile g (Grid.nCols g / 2) (Grid.nRows g / 2) = Some (i, t) →
     Grid.tiles (seedCenter g) !! i = Some (seeded t)
     ∧ ∀ j, j ≠ i → Grid.tiles (seedCenter g) !! j = Grid.tiles g !! j)
  ∧ (wf_grid g → 0 < Grid.nCols g → 0 < Grid.nRows g →
     ∃ i t, getTile g (Grid.nCols g / 2) (Grid.nRows g / 2) = Some (i, t))
  ∧ (Grid.nCols g <= 0 ∨ Grid.nRows g <= 0 → seedCenter g = g)
  ∧ seedCenter (seedCenter g) = seedCenter g
  ∧ Grid.agents (seedCenter g) = Grid.agents g.
Proof.
  split_and!.
  - intros i t Hc. unfold seedCenter. rewrite Hc. simpl.
    pose proof (getTile_Some_inv _ _ _ _ Hc) as (_ & _ & Ht). simpl in Ht.
    split.
    + rewrite list_lookup_insert_eq; [done|]. by eapply lookup_lt_Some.
    + intros j Hj. by apply list_lookup_insert_ne.
  - intros Hwf Hc Hr.
    destruct (getTile_in_bounds g (Grid.nCols g / 2) (Grid.nRows g / 2) Hwf)
      as (t & E & _); [|by eauto].
    unfold in_bounds.
    pose proof (Z.div_mod (Grid.nCols g) 2 ltac:(lia)).
    pose proof (Z.mod_pos_bound (Grid.nCols g) 2 ltac:(lia)).
    pose proof (Z.div_mod (Grid.nRows g) 2 ltac:(lia)).
    pose proof (Z.mod_pos_bound (Grid.nRows g) 2 ltac:(lia)). lia.
  - intros Hd. unfold seedCenter.
    destruct (getTile g _ _) as [c|] eqn:E; [|done].
    apply getTile_Some_inv in E as (E & _). unfold in_bounds in E.
    pose proof (Z.div_mod (Grid.nCols g) 2 ltac:(lia)).
    pose proof (Z.mod_pos_bound (Grid.nCols g) 2 ltac:(lia)).
    pose proof (Z.div_mod (Grid.nRows g) 2 ltac:(lia)).
    pose proof (Z.mod_pos_bound (Grid.nRows g) 2 ltac:(lia)). lia.
  - unfold seedCenter at 2 3.
    destruct (getTile g _ _) as [[i t]|] eqn:E.
    + pose proof (getTile_insert _ _ _ _ _ (seeded t) E) as E'.
      unfold seedCenter. cbn [fst snd]. fold (seeded t).
      change (Grid.nCols (set_tiles _ g)) with (Grid.nCols g).
      change (Grid.nRows (set_tiles _ g)) with (Grid.nRows g).
      rewrite E'. simpl.
      by rewrite list_insert_insert_eq.
    + unfold seedCenter. by rewrite E.
  - unfold seedCenter. by destruct (getTile g _ _).
Qed.

(** X7: the list [_getRandomEdgeTile] chooses from holds exactly the tiles
    of the grid on its first or last row or column. *)
Theorem edgeTiles_exact (g : Grid.t) (e : nat * Tile.t) :
  wf_grid g →
  (e ∈ edgeTiles g ↔
     Grid.tiles g !! e.1 = Some e.2
     ∧ (Tile.q e.2 = 0 ∨ Tile.q e.2 = Grid.nCols g - 1
        ∨ Tile.r e.2 = 0 ∨ Tile.r e.2 = Grid.nRows g - 1)).
Proof.
  intros Hwf. split; [by apply edgeTiles_boundary|].
  intros [Hl Hedge]. destruct e as [i t]. simpl in *.
  destruct (wf_getTile g i t Hwf Hl) as (Hb & Hg & _).
  unfold in_bounds in Hb.
  unfold edgeTiles, edgeSlots. rewrite list_elem_of_omap.
  exists (Some (i, t)). split; [|done].
  rewrite elem_of_app.
  destruct (decide (Tile.r t = 0 ∨ Tile.r t = Grid.nRows g - 1)) as [Hr|Hr].
  - left. apply list_elem_of_bind. exists (Tile.q t). split.
    + destruct Hr as [Hr|Hr]; rewrite Hr in Hg; rewrite Hg;
        repeat constructor.
    + apply elem_of_seqZ. lia.
  - right. apply list_elem_of_bind. exists (Tile.r t). split.
    + assert (Tile.q t = 0 ∨ Tile.q t = Grid.nCols g - 1) as [Hq|Hq] by tauto;
        rewrite Hq in Hg; rewrite Hg; repeat constructor.
    + apply elem_of_seqZ. lia.
Qed.

(** ** Service and competition *)

Lemma serviceSum_foldl tile l acc :
  let f := λ score other,
           if negb (Tile.state other =? STATE_SPACE.CRYSTALLIZED) then score
           else if Tile.level other <? LEVEL.HOUSE then score
           else
             let dist := hexDistance tile other in
             match SERVICE_RANGE (Tile.level other) with
             | Some range => if dist <=? range then score + (range - dist + 1) else score
             | None => score
             end in
  acc <= foldl f acc l
  ∧ (acc < foldl f acc l ↔ ∃ other, other ∈ l ∧ serves tile other).
Proof.
  intros f. revert acc. induction l as [|x l IH]; intros acc; simpl.
  - split; [lia|]. split; [lia|]. by intros (? & ?%elem_of_nil & _).
  - destruct (IH (f acc x)) as [Hle Hiff].
    assert (acc <= f acc x ∧ (acc < f acc x ↔ serves tile x)) as [Hs Hsx].
    { unfold f, serves.
      destruct (Z.eqb_spec (Tile.state x) STATE_SPACE.CRYSTALLIZED) as [Hst|Hst];
        simpl; [|split; [lia|]; split; [lia|tauto]].
      destruct (Z.ltb_spec (Tile.level x) LEVEL.HOUSE) as [Hl|Hl];
        [split; [lia|]; split; [lia|]; intros (_ & ? & _); lia|].
      destruct (SERVICE_RANGE (Tile.level x)) as [ρ|];
        [|split; [lia|]; split; [lia|]; by intros (_ & _ & ? & ? & _)].
      destruct (Z.leb_spec (hexDistance tile x) ρ) as [Hd|Hd].
      - split; [lia|]. split; [|lia]. intros _. split_and!; try done. by exists ρ.
      - split; [lia|]. split; [lia|]. intros (_ & _ & ρ' & [= <-] & ?). lia. }
    split; [lia|]. split.
    + intros Hlt. destruct (decide (acc < f acc x)) as [Hx|Hx].
      * exists x. split; [left|]. by apply Hsx.
      * destruct Hiff as [Hiff _]. destruct Hiff as (o & Ho & Hso); [lia|].
        exists o. split; [by right|done].
    + intros (o & Ho & Hso). apply elem_of_cons in Ho as [->|Ho].
      * apply Hsx in Hso. lia.
      * destruct Hiff as [_ Hiff]. specialize (Hiff (ex_intro _ o (conj Ho Hso))). lia.
Qed.

Lemma serviceSum_pos g tile :
  0 <= serviceSum g tile
  ∧ (0 < serviceSum g tile ↔ ∃ other, other ∈ Grid.tiles g ∧ serves tile other).
Proof. apply serviceSum_foldl. Qed.

(** X8: the sum accumulated by [getServiceScore] is never negative, and it
    is positive exactly when some Crystallized building has the tile within
    its service range; a positive sum is the score.  For a tile of the grid
    the score is always positive: without service it is the inverse of the
    distance to the centre, which is [Infinity] only on the centre tile
    itself. *)
Theorem getServiceScore_spec (g : Grid.t) (i : nat) (t : Tile.t) :
  wf_grid g → Grid.tiles g !! i = Some t →
  0 <= serviceSum g t
  ∧ (0 < serviceSum g t ↔ ∃ other, other ∈ Grid.tiles g ∧ serves t other)
  ∧ (0 < serviceSum g t →
       getServiceScore g t = Finite (inject_Z (serviceSum g t)))
  ∧ match getServiceScore g t with
    | Finite x => (0 < x)%Q
    | Infinity =>
        serviceSum g t = 0
        ∧ coords t = (Grid.nCols g / 2, Grid.nRows g / 2)
    end.
Proof.
  intros Hwf Ht. destruct (serviceSum_pos g t) as [Hge Hiff].
  split; [done|]. split; [done|]. split.
  - intros Hp. unfold getServiceScore.
    destruct (Z.eqb_spec (serviceSum g t) 0); [lia|done].
  - unfold getServiceScore.
    destruct (Z.eqb_spec (serviceSum g t) 0) as [E|E].
    + destruct (wf_getTile g i t Hwf Ht) as ([Hq Hr] & _ & _).
      destruct (getTile_in_bounds g (Grid.nCols g / 2) (Grid.nRows g / 2) Hwf)
        as (c & Hc & _ & Hcq & Hcr).
      { unfold in_bounds.
        pose proof (Z.div_mod (Grid.nCols g) 2 ltac:(lia)).
        pose proof (Z.mod_pos_bound (Grid.nCols g) 2 ltac:(lia)).
        pose proof (Z.div_mod (Grid.nRows g) 2 ltac:(lia)).
        pose proof (Z.mod_pos_bound (Grid.nRows g) 2 ltac:(lia)). lia. }
      rewrite Hc. cbn [snd].
      destruct (Z.eqb_spec (hexDistance t c) 0) as [Hd|Hd].
      * split; [done|]. apply hexDistance_zero_coords in Hd.
        rewrite Hd. unfold coords. by rewrite Hcq, Hcr.
      * pose proof (hexDistance_nonneg t c).
        unfold Qdiv. rewrite Qmult_1_l. apply Qinv_lt_0_compat.
        rewrite <- (Zlt_Qlt 0). lia.
    + rewrite <- (Zlt_Qlt 0). lia.
Qed.

Lemma length_pos_elem {A} (l : list A) : (0 < Z.of_nat (length l)) ↔ ∃ x, x ∈ l.
Proof.
  destruct l as [|x l]; simpl.
  - split; [lia|]. by intros (? & ?%elem_of_nil).
  - split; [|lia]. intros _. exists x. by left.
Qed.

(** X9: a Factory can die from competition exactly when another tile of
    level FACTORY lies within hex distance 4, whatever that tile's state;
    a Factory is served exactly when it cannot die from competition. *)
Theorem factory_competition (g : Grid.t) (i : nat) (t : Tile.t) :
  wf_grid g → Grid.tiles g !! i = Some t → Tile.level t = LEVEL.FACTORY →
  (canDieFromCompetition g (i, t) = true ↔
     ∃ j b, j ≠ i ∧ Grid.tiles g !! j = Some b
            ∧ Tile.level b = LEVEL.FACTORY ∧ hexDistance t b <= 4)
  ∧ isServedBy g (i, t) = negb (canDieFromCompetition g (i, t)).
Proof.
  intros Hwf Ht Hl. split.
  - destruct (wf_getTile g i t Hwf Ht) as (_ & Hg & _).
    unfold canDieFromCompetition. cbn [fst snd]. rewrite Hl.
    change (SERVICE_RANGE LEVEL.FACTORY) with (Some 4).
    change (MAX_COMPETITORS LEVEL.FACTORY) with (Some 0). simpl gtZ_opt.
    rewrite Z.gtb_ltb, Z.ltb_lt, length_pos_elem. split.
    + intros ([j b] & Hx). apply list_elem_of_filter in Hx as [Hp Hx].
      apply elem_of_getTilesInRange in Hx as (c & ρ & Hc & [= <-] & Hb & Hd).
      rewrite Hg in Hc. injection Hc as <-. simpl in *.
      apply Is_true_true, andb_true_iff in Hp as [Hne He].
      apply negb_true_iff, Nat.eqb_neq in Hne. apply Z.eqb_eq in He.
      by exists j, b.
    + intros (j & b & Hne & Hb & Hlb & Hd). exists (j, b).
      apply list_elem_of_filter. split.
      * simpl. apply Is_true_true, andb_true_iff. split.
        -- by apply negb_true_iff, Nat.eqb_neq.
        -- by apply Z.eqb_eq.
      * apply elem_of_getTilesInRange. by exists (i, t), 4.
  - unfold isServedBy. cbn [snd]. by rewrite Hl.
Qed.

(** X10: a tile below FACTORY is served exactly when some other
    Crystallized tile of a strictly higher level has it within that
    level's service range; its own state and the number of its competitors
    play no part. *)
Theorem isServedBy_spec (g : Grid.t) (i : nat) (t : Tile.t) :
  Tile.level t < LEVEL.FACTORY →
  (isServedBy g (i, t) = true ↔
     ∃ j b, j ≠ i ∧ Grid.tiles g !! j = Some b
            ∧ Tile.state b = STATE_SPACE.CRYSTALLIZED
            ∧ Tile.level t < Tile.level b
            ∧ ∃ ρ, SERVICE_RANGE (Tile.level b) = Some ρ ∧ hexDistance t b <= ρ).
Proof.
  intros Hl. unfold isServedBy. cbn [fst snd].
  destruct (Z.geb_spec (Tile.level t) LEVEL.FACTORY) as [?|_]; [lia|].
  rewrite existsb_true_iff. split.
  - intros ([j b] & Hin & Hp). apply elem_of_indexed in Hin. simpl in *.
    apply andb_true_iff in Hp as [Hp Hr]. apply andb_true_iff in Hp as [Hp Hlv].
    apply andb_true_iff in Hp as [Hne Hst].
    apply negb_true_iff, Nat.eqb_neq in Hne. apply Z.eqb_eq in Hst.
    apply negb_true_iff, Z.leb_gt in Hlv.
    exists j, b. split_and!; try done.
    destruct (SERVICE_RANGE (Tile.level b)) as [ρ|]; [|done].
    exists ρ. split; [done|]. by apply Z.leb_le.
  - intros (j & b & Hne & Hb & Hst & Hlv & ρ & Hρ & Hd). exists (j, b). split.
    + by apply elem_of_indexed.
    + simpl. rewrite Hρ. simpl. repeat (apply andb_true_iff; split).
      * by apply negb_true_iff, Nat.eqb_neq.
      * by apply Z.eqb_eq.
      * by apply negb_true_iff, Z.leb_gt.
      * by apply Z.leb_le.
Qed.

(** ** The walk *)

Lemma getNeighbors_lookup g q r n :
  n ∈ getNeighbors g q r → Grid.tiles g !! n.1 = Some n.2.
Proof.
  intros (d & _ & Hg)%getNeighbors_elem.
  by apply getTile_Some_inv in Hg as (_ & _ & ?).
Qed.

Lemma scoreAfter_asym x y : scoreAfter x y = true → scoreAfter y x = false.
Proof.
  destruct x as [x|], y as [y|]; simpl; try done.
  rewrite Qlt_bool_iff. intros Hlt. apply Qlt_bool_false.
  apply Qle_not_lt. by apply Qlt_le_weak.
Qed.

Lemma scoreAfter_cotrans x y z :
  scoreAfter x y = true → scoreAfter x z = true ∨ scoreAfter z y = true.
Proof.
  destruct x as [x|], y as [y|], z as [z|]; simpl; try done; try tauto.
  rewrite !Qlt_bool_iff. intros Hlt.
  destruct (Qlt_le_dec z y) as [?|Hle]; [by right|left].
  by apply Qlt_le_trans with y.
Qed.

Lemma sortBy_head {A} (after : A → A → bool) (l : list A) :
  (∀ x y, after x y = true → after y x = false) →
  (∀ x y z, after x y = true → after x z = true ∨ after z y = true) →
  l ≠ [] →
  ∃ k b, l !! k = Some b ∧ head (sortBy after l) = Some b
         ∧ (∀ y, y ∈ l → after b y = false)
         ∧ (∀ k' y, (k' < k)%nat → l !! k' = Some y → after y b = true).
Proof.
  intros Hasym Hco. induction l as [|x l IH]; [done|]. intros _.
  assert (after x x = false) as Hirr.
  { destruct (after x x) eqn:E; [|done]. by rewrite (Hasym _ _ E) in E. }
  destruct l as [|x' l'].
  - exists 0%nat, x. simpl. split_and!; try done.
    + by intros y ->%list_elem_of_singleton.
    + intros; lia.
  - destruct IH as (k & b & Hk & Hh & Hmax & Hfirst); [done|].
    change (sortBy after (x :: x' :: l'))
      with (insertBy after x (sortBy after (x' :: l'))).
    destruct (sortBy after (x' :: l')) as [|h rest]; [done|].
    simpl in Hh. injection Hh as ->. simpl.
    destruct (after x b) eqn:E.
    + exists (S k), b. split_and!; try done.
      * intros y [->|Hy]%elem_of_cons; [by apply Hasym|by apply Hmax].
      * intros [|k'] y Hlt Hy; simpl in Hy; [by injection Hy as <-|].
        apply (Hfirst k'); [lia|done].
    + exists 0%nat, x. split_and!; try done.
      * intros y [->|Hy]%elem_of_cons; [done|].
        destruct (after x y) eqn:E'; [|done].
        destruct (Hco _ _ b E') as [?|Hby]; [congruence|].
        by rewrite (Hmax y Hy) in Hby.
      * intros; lia.
Qed.

Section Walk.
Context `{Host}.

(** X11: [walk] never changes [alive]; a dead agent and an agent without
    neighbours stay where they are without a sample being drawn; with
    samples in [0, 1), a live agent that has neighbours moves to one of
    them, a tile of the grid at hex distance exactly 1. *)
Theorem walk_spec (c : Controls) (g : Grid.t) (a : Agent.t) (s : rng) :
  UnitGenerator → wf_grid g →
  Agent.alive (walk c g a s).1 = Agent.alive a
  ∧ (Agent.alive a = false → walk c g a s = (a, s))
  ∧ (∀ t, Grid.tiles g !! Agent.tile a = Some t →
       (getNeighbors g (Tile.q t) (Tile.r t) = [] → walk c g a s = (a, s))
       ∧ (Agent.alive a = true → getNeighbors g (Tile.q t) (Tile.r t) ≠ [] →
            ∃ t', Grid.tiles g !! Agent.tile (walk c g a s).1 = Some t'
                  ∧ (Agent.tile (walk c g a s).1, t')
                      ∈ getNeighbors g (Tile.q t) (Tile.r t)
                  ∧ hexDistance t t' = 1)).
Proof.
  intros Hu Hwf. split_and!.
  - unfold walk. destruct (Agent.alive a) eqn:Ha; [|done]. simpl.
    destruct (Grid.tiles g !! Agent.tile a) as [t|]; [|done].
    destruct (length _ =? 0)%nat; [done|].
    destruct (random s) as [u s1]. destruct (Qlt_bool u _).
    + by destruct (sortBy _ _).
    + by destruct (randomChoice _ s1) as [[n|] s2].
  - intros Ha. unfold walk. by rewrite Ha.
  - intros t Ht. split.
    + intros Hn. unfold walk. rewrite Ht, Hn. simpl. by destruct (negb _).
    + intros Ha Hn.
      assert (∃ n, n ∈ getNeighbors g (Tile.q t) (Tile.r t)
                   ∧ Agent.tile (walk c g a s).1 = n.1) as (n & Hin & Hn1).
      { unfold walk. rewrite Ha, Ht. simpl.
        destruct (Nat.eqb_spec (length (getNeighbors g (Tile.q t) (Tile.r t))) 0)
          as [E|_]; [by apply nil_length_inv in E|].
        destruct (random s) as [u s1]. destruct (Qlt_bool u _).
        - destruct (sortBy_head (λ x y : nat * Tile.t * Score, scoreAfter x.2 y.2)
                      ((λ n : nat * Tile.t, (n, getServiceScore g n.2))
                         <$> getNeighbors g (Tile.q t) (Tile.r t)))
            as (k & b & Hk & Hh & _).
          + intros x y. apply scoreAfter_asym.
          + intros x y z. apply scoreAfter_cotrans.
          + by destruct (getNeighbors g (Tile.q t) (Tile.r t)).
          + destruct (sortBy _ _) as [|best rest]; [done|].
            simpl in Hh. injection Hh as ->.
            apply list_elem_of_lookup_2 in Hk.
            apply list_elem_of_fmap in Hk as (n & -> & Hin). by exists n.
        - destruct (randomChoice_unit (getNeighbors g (Tile.q t) (Tile.r t)) s1 Hu Hn)
            as (n & Hc & Hin).
          destruct (randomChoice _ s1) as [o s2]. simpl in Hc. subst o.
          by exists n. }
      destruct n as [j t']. simpl in Hn1. rewrite Hn1.
      pose proof (getNeighbors_lookup _ _ _ _ Hin) as Ht'. simpl in Ht'.
      exists t'. split_and!; try done.
      by apply (getNeighbors_distance g (Agent.tile a) j t t' Hwf Ht Ht').
Qed.

(** X12: when the first sample is below [biasedWalkChance], the agent moves
    to the neighbour with the best service score, the first one in the
    order of [getNeighbors] among equals: no neighbour has a strictly
    better score, and every neighbour before it has a strictly worse one;
    no second sample is drawn. *)
Theorem walk_biased (c : Controls) (g : Grid.t) (a : Agent.t) (s : rng) (t : Tile.t) :
  Agent.alive a = true → Grid.tiles g !! Agent.tile a = Some t →
  getNeighbors g (Tile.q t) (Tile.r t) ≠ [] →
  Qlt_bool (random s).1 (biasedWalkChance c) = true →
  ∃ k best,
    getNeighbors g (Tile.q t) (Tile.r t) !! k = Some best
    ∧ walk c g a s = (Agent.mk best.1 true, (random s).2)
    ∧ (∀ n, n ∈ getNeighbors g (Tile.q t) (Tile.r t) →
         scoreAfter (getServiceScore g best.2) (getServiceScore g n.2) = false)
    ∧ (∀ k' n, (k' < k)%nat → getNeighbors g (Tile.q t) (Tile.r t) !! k' = Some n →
         scoreAfter (getServiceScore g n.2) (getServiceScore g best.2) = true).
Proof.
  intros Ha Ht Hn Hb.
  destruct (sortBy_head (λ x y : nat * Tile.t * Score, scoreAfter x.2 y.2)
              ((λ n : nat * Tile.t, (n, getServiceScore g n.2))
                 <$> getNeighbors g (Tile.q t) (Tile.r t)))
    as (k & b & Hk & Hh & Hmax & Hfirst).
  { intros x y. apply scoreAfter_asym. }
  { intros x y z. apply scoreAfter_cotrans. }
  { by destruct (getNeighbors g (Tile.q t) (Tile.r t)). }
  rewrite list_lookup_fmap in Hk.
  destruct (getNeighbors g (Tile.q t) (Tile.r t) !! k) as [best|] eqn:Hbest;
    [|done].
  simpl in Hk. injection Hk as <-.
  exists k, best. split_and!; try done.
  - unfold walk. rewrite Ha, Ht. simpl.
    destruct (Nat.eqb_spec (length (getNeighbors g (Tile.q t) (Tile.r t))) 0)
      as [E|_]; [by apply nil_length_inv in E|].
    destruct (random s) as [u s1]. simpl in Hb. rewrite Hb.
    destruct (sortBy _ _) as [|h rest]; [done|].
    simpl in Hh. by injection Hh as ->.
  - intros n Hin.
    apply (Hmax (n, getServiceScore g n.2)).
    apply list_elem_of_fmap. by exists n.
  - intros k' n Hlt Hk'.
    apply (Hfirst k' (n, getServiceScore g n.2)); [done|].
    by rewrite list_lookup_fmap, Hk'.
Qed.

End Walk.

(** ** Morphing *)

Lemma Qle_bool_true x y : Qle_bool x y = true ↔ (x <= y)%Q.
Proof. apply Qle_bool_iff. Qed.

Lemma constrain_unit x : (0 <= constrain x 0 1)%Q ∧ (constrain x 0 1 <= 1)%Q.
Proof.
  unfold constrain.
  destruct (Qle_bool x 1) eqn:E1.
  - apply Qle_bool_iff in E1. destruct (Qle_bool 0 x) eqn:E0.
    + apply Qle_bool_iff in E0. done.
    + split; [apply Qle_refl|done].
  - change (Qle_bool 0 1) with true. cbv iota. split; done.
Qed.

Lemma constrain_top x : (1 <= x)%Q → (constrain x 0 1 == 1)%Q.
Proof.
  intros Hx. unfold constrain. destruct (Qle_bool x 1) eqn:E1.
  - apply Qle_bool_iff in E1.
    assert (Qle_bool 0 x = true) as ->.
    { apply Qle_bool_iff. by apply Qle_trans with 1%Q. }
    by apply Qle_antisym.
  - reflexivity.
Qed.

Lemma Qcube_nonneg x : (0 <= x)%Q → (0 <= x * x * x)%Q.
Proof. intros Hx. repeat apply Qmult_le_0_compat; done. Qed.

Lemma Qcube_le_1 x : (0 <= x)%Q → (x <= 1)%Q → (x * x * x <= 1)%Q.
Proof.
  intros H0 H1.
  assert (x * x <= 1)%Q as H2.
  { apply Qle_trans with (1 * x)%Q.
    - apply Qmult_le_compat_r; done.
    - rewrite Qmult_1_l. done. }
  apply Qle_trans with (1 * x)%Q.
  - apply Qmult_le_compat_r; done.
  - rewrite Qmult_1_l. done.
Qed.

Lemma ease_unit p : (0 <= p)%Q → (p <= 1)%Q → (0 <= ease p)%Q ∧ (ease p <= 1)%Q.
Proof.
  intros H0 H1. unfold ease. destruct (Qlt_bool p (1 # 2)) eqn:E.
  - apply Qlt_bool_iff in E. split.
    + rewrite <- !Qmult_assoc. apply Qmult_le_0_compat; [done|].
      rewrite Qmult_assoc. by apply Qcube_nonneg.
    + assert (p * p <= 1 # 4)%Q by nra. nra.
  - apply Qlt_bool_false in E. apply Qnot_lt_le in E.
    set (y := (-2 * p + 2)%Q).
    assert (0 <= y)%Q as Hy0 by (unfold y; lra).
    assert (y <= 1)%Q as Hy1 by (unfold y; lra).
    assert (y ^ 3 == y * y * y)%Q as -> by (simpl; ring).
    pose proof (Qcube_nonneg y Hy0). pose proof (Qcube_le_1 y Hy0 Hy1).
    assert (y * y * y / 2 == (1 # 2) * (y * y * y))%Q as -> by field.
    split; lra.
Qed.

Lemma ease_top p : (p == 1)%Q → (ease p == 1)%Q.
Proof.
  intros Hp. unfold ease.
  assert (Qlt_bool p (1 # 2) = false) as ->.
  { apply Qlt_bool_false. lra. }
  assert ((-2 * p + 2) ^ 3 == (-2 * p + 2) * (-2 * p + 2) * (-2 * p + 2))%Q as ->
    by (simpl; ring).
  rewrite Hp. reflexivity.
Qed.

Section Morph.
Context `{Host}.

Lemma updateMorphing_commit t k :
  Qle_bool 1 (Tile.morphProgress t) = false →
  (0 < Tile.morphDuration t)%Q →
  (Tile.morphDuration t <= (millis k).1 - Tile.morphStartTime t)%Q →
  (updateMorphing t k).2 = (millis k).2
  ∧ Tile.level (updateMorphing t k).1 = Tile.targetLevel t
  ∧ (Tile.morphProgress (updateMorphing t k).1 == 1)%Q
  ∧ Tile.state (updateMorphing t k).1
    = (if Tile.targetLevel t =? LEVEL.EMPTY then STATE_SPACE.EMPTY else Tile.state t).
Proof.
  intros Hp Hd He. unfold updateMorphing. rewrite Hp.
  destruct (millis k) as [now k']. cbn [fst snd] in *.
  set (x := ((now - Tile.morphStartTime t) / Tile.morphDuration t)%Q).
  assert (1 <= x)%Q as Hx.
  { unfold x. apply Qle_shift_div_l; [done|]. by rewrite Qmult_1_l. }
  pose proof (ease_top _ (constrain_top x Hx)) as Hease.
  assert (Qle_bool 1 (ease (constrain x 0 1)) = true) as ->.
  { apply Qle_bool_iff. rewrite Hease. apply Qle_refl. }
  cbv zeta. cbn [fst snd set_morphProgress set_level Tile.targetLevel].
  destruct (Tile.targetLevel t =? LEVEL.EMPTY); done.
Qed.

Lemma updateMorphing_progress t k :
  Qle_bool 1 (Tile.morphProgress t) = false →
  Tile.morphProgress (updateMorphing t k).1
  = ease (constrain (((millis k).1 - Tile.morphStartTime t) / Tile.morphDuration t) 0 1).
Proof.
  intros Hp. unfold updateMorphing. rewrite Hp. destruct (millis k) as [now k'].
  clear Hp. cbv zeta. cbn [fst]. destruct (Qle_bool 1 (ease _)); [|reflexivity].
  destruct (Tile.targetLevel _ =? LEVEL.EMPTY); reflexivity.
Qed.

(** X13: [updateMorphing] leaves a tile that is not morphing untouched and
    does not read the clock; on a morphing tile it reads the clock once and
    stores a progress between 0 and 1; once the morph duration (when
    positive) has elapsed since the morph started, the progress is 1, the
    level becomes the morph target, and the state becomes EMPTY exactly
    when the target is EMPTY.  Coordinates, morph target, duration and
    start time are never changed. *)
Theorem updateMorphing_spec (t : Tile.t) (k : clock) :
  (Qle_bool 1 (Tile.morphProgress t) = true → updateMorphing t k = (t, k))
  ∧ (Qle_bool 1 (Tile.morphProgress t) = false →
       (updateMorphing t k).2 = (millis k).2
       ∧ (0 <= Tile.morphProgress (updateMorphing t k).1)%Q
       ∧ (Tile.morphProgress (updateMorphing t k).1 <= 1)%Q
       ∧ ((0 < Tile.morphDuration t)%Q →
          (Tile.morphDuration t <= (millis k).1 - Tile.morphStartTime t)%Q →
          Tile.level (updateMorphing t k).1 = Tile.targetLevel t
          ∧ (Tile.morphProgress (updateMorphing t k).1 == 1)%Q
          ∧ Tile.state (updateMorphing t k).1
            = (if Tile.targetLevel t =? LEVEL.EMPTY
               then STATE_SPACE.EMPTY else Tile.state t)))
  ∧ coords (updateMorphing t k).1 = coords t
  ∧ Tile.targetLevel (updateMorphing t k).1 = Tile.targetLevel t
  ∧ Tile.morphDuration (updateMorphing t k).1 = Tile.morphDuration t
  ∧ Tile.morphStartTime (updateMorphing t k).1 = Tile.morphStartTime t.
Proof.
  split_and!.
  - intros Hp. unfold updateMorphing. by rewrite Hp.
  - intros Hp. split_and!.
    + unfold updateMorphing. rewrite Hp. destruct (millis k) as [now k'].
      cbv zeta. cbn [fst snd]. destruct (Qle_bool 1 (ease _)); [|done].
      by destruct (Tile.targetLevel _ =? LEVEL.EMPTY).
    + rewrite updateMorphing_progress by done.
      set (x := (((millis k).1 - Tile.morphStartTime t) / Tile.morphDuration t)%Q).
      destruct (constrain_unit x) as [H0 H1].
      by destruct (ease_unit _ H0 H1).
    + rewrite updateMorphing_progress by done.
      set (x := (((millis k).1 - Tile.morphStartTime t) / Tile.morphDuration t)%Q).
      destruct (constrain_unit x) as [H0 H1].
      by destruct (ease_unit _ H0 H1).
    + intros Hd He.
      by destruct (updateMorphing_commit t k Hp Hd He) as (_ & ? & ? & ?).
  - unfold updateMorphing. destruct (Qle_bool 1 (Tile.morphProgress t)); [done|].
    destruct (millis k) as [now k']. cbv zeta. cbn [fst snd].
    destruct (Qle_bool 1 (ease _)); [|done].
    by destruct (Tile.targetLevel _ =? LEVEL.EMPTY).
  - unfold updateMorphing. destruct (Qle_bool 1 (Tile.morphProgress t)); [done|].
    destruct (millis k) as [now k']. cbv zeta. cbn [fst snd].
    destruct (Qle_bool 1 (ease _)); [|done].
    by destruct (Tile.targetLevel _ =? LEVEL.EMPTY).
  - unfold updateMorphing. destruct (Qle_bool 1 (Tile.morphProgress t)); [done|].
    destruct (millis k) as [now k']. cbv zeta. cbn [fst snd].
    destruct (Qle_bool 1 (ease _)); [|done].
    by destruct (Tile.targetLevel _ =? LEVEL.EMPTY).
  - unfold updateMorphing. destruct (Qle_bool 1 (Tile.morphProgress t)); [done|].
    destruct (millis k) as [now k']. cbv zeta. cbn [fst snd].
    destruct (Qle_bool 1 (ease _)); [|done].
    by destruct (Tile.targetLevel _ =? LEVEL.EMPTY).
Qed.

(** X14: a morph to a new level leaves the level as it is when it starts;
    the first [updateMorphing] at least [morphDuration] milliseconds after
    the start sets the level to the new level (and the state to EMPTY when
    the new level is EMPTY), and every later [updateMorphing] changes
    nothing. *)
Theorem morph_roundtrip (newLevel : Z) (t : Tile.t) (k k2 : clock) :
  newLevel ≠ Tile.level t →
  (0 < Tile.morphDuration t)%Q →
  (Tile.morphDuration t <= (millis k2).1 - (millis k).1)%Q →
  Tile.level (setTargetLevel newLevel t k).1 = Tile.level t
  ∧ Tile.level (updateMorphing (setTargetLevel newLevel t k).1 k2).1 = newLevel
  ∧ Tile.state (updateMorphing (setTargetLevel newLevel t k).1 k2).1
    = (if newLevel =? LEVEL.EMPTY then STATE_SPACE.EMPTY else Tile.state t)
  ∧ ∀ k3, updateMorphing (updateMorphing (setTargetLevel newLevel t k).1 k2).1 k3
          = ((updateMorphing (setTargetLevel newLevel t k).1 k2).1, k3).
Proof.
  intros Hne Hd He.
  assert ((setTargetLevel newLevel t k).1 = morphTo newLevel (millis k).1 t) as E.
  { unfold setTargetLevel. destruct (Z.eqb_spec newLevel (Tile.level t)); [done|].
    by destruct (millis k). }
  rewrite E.
  destruct (updateMorphing_commit (morphTo newLevel (millis k).1 t) k2)
    as (_ & Hl & Hp & Hs); try done.
  split; [done|]. split; [done|]. split; [done|].
  intros k3. unfold updateMorphing at 1.
  assert (Qle_bool 1 (Tile.morphProgress
            (updateMorphing (morphTo newLevel (millis k).1 t) k2).1) = true) as ->; [|done].
  apply Qle_bool_iff. rewrite Hp. apply Qle_refl.
Qed.

End Morph.

(** ** The evolution pass *)

Section Evolve.
Context `{Host}.

Lemma foldl_retarget_hit target l acc i t :
  NoDup l → i ∈ l → Grid.tiles acc.1 !! i = Some t →
  ∃ k, Grid.tiles (foldl (retarget target) acc l).1 !! i
       = Some (match target t with
               | Some newLevel => (setTargetLevel newLevel t k).1
               | None => t
               end).
Proof.
  intros Hnd Hi Ht. revert acc Ht Hi.
  induction Hnd as [|x l Hx Hnd IH]; intros acc Ht Hi;
    [by apply elem_of_nil in Hi|].
  simpl. destruct (decide (x = i)) as [->|Hne].
  - exists acc.2. rewrite foldl_retarget_other by done.
    unfold retarget. rewrite Ht. destruct (target t) as [newLevel|]; [|done].
    destruct (setTargetLevel newLevel t acc.2) as [tile' k']. simpl.
    apply list_lookup_insert_eq. by eapply lookup_lt_Some.
  - apply elem_of_cons in Hi as [->|Hi]; [done|].
    apply IH; [|done].
    unfold retarget. destruct (Grid.tiles acc.1 !! x) as [tile|]; [|done].
    destruct (target tile) as [newLevel|]; [|done].
    destruct (setTargetLevel newLevel tile acc.2) as [tile' k']. simpl.
    by rewrite list_lookup_insert_ne.
Qed.

Lemma toEvolve_NoDup c g : NoDup (fst <$> toEvolve c g).
Proof.
  unfold toEvolve. apply NoDup_fmap_2_strong.
  - intros [i a] [j b] Hi Hj. simpl. intros ->.
    apply list_elem_of_filter in Hi as [_ Hi]. apply list_elem_of_filter in Hj as [_ Hj].
    apply elem_of_indexed in Hi, Hj. simpl in *. congruence.
  - apply list.NoDup_filter, indexed_NoDup.
Qed.

Lemma elem_of_toEvolve c g i :
  i ∈ fst <$> toEvolve c g ↔
  ∃ t, Grid.tiles g !! i = Some t
       ∧ Qle_bool 1 (Tile.morphProgress t) && canPromote c g (i, t) = true.
Proof.
  unfold toEvolve. rewrite list_elem_of_fmap. split.
  - intros ([j t] & -> & Hin). apply list_elem_of_filter in Hin as [Hp Hin].
    apply elem_of_indexed in Hin. exists t. split; [done|]. by apply Is_true_true.
  - intros (t & Ht & Hp). exists (i, t). split; [done|].
    apply list_elem_of_filter. split; [by apply Is_true_true|].
    by apply elem_of_indexed.
Qed.

Lemma evolveAll_hit c g k i t :
  Grid.tiles g !! i = Some t →
  Qle_bool 1 (Tile.morphProgress t) && canPromote c g (i, t) = true →
  ∃ now, Grid.tiles (evolveAll c g k).1.1 !! i
         = Some (morphTo (Tile.level t + 1) now t).
Proof.
  intros Ht Hp. unfold evolveAll. cbn [fst].
  destruct (foldl_retarget_hit promoteTarget (fst <$> toEvolve c g) (g, k) i t)
    as [k' Hk'].
  - apply toEvolve_NoDup.
  - apply elem_of_toEvolve. by exists t.
  - done.
  - rewrite Hk'. apply andb_true_iff in Hp as [_ Hp].
    apply (canPromote_iff c g (i, t) Ht) in Hp as (_ & config & Hcfg & _).
    simpl in Hcfg. unfold promoteTarget. rewrite Hcfg. simpl.
    apply EVOLUTION_Some in Hcfg as (_ & -> & _).
    unfold setTargetLevel.
    destruct (Z.eqb_spec (Tile.level t + 1) (Tile.level t)); [lia|].
    destruct (millis k') as [now k'']. by exists now.
Qed.

Lemma evolveAll_miss c g k i t :
  Grid.tiles g !! i = Some t →
  Qle_bool 1 (Tile.morphProgress t) && canPromote c g (i, t) = false →
  Grid.tiles (evolveAll c g k).1.1 !! i = Some t.
Proof.
  intros Ht Hp. unfold evolveAll. cbn [fst].
  rewrite foldl_retarget_other; [done|].
  intros (t' & Ht' & Hp')%elem_of_toEvolve. simpl in *. congruence.
Qed.

(** X15: [evolveAll] decides on the grid as it is before the pass: exactly
    the tiles that are not morphing and can promote start a morph to the
    next level (level, state and coordinates unchanged, progress 0), every
    other tile is left as it is, and the returned count lies between 0 and
    the number of tiles. *)
Theorem evolveAll_exact (c : Controls) (g : Grid.t) (k : clock) (i : nat) (t : Tile.t) :
  Grid.tiles g !! i = Some t →
  (Qle_bool 1 (Tile.morphProgress t) && canPromote c g (i, t) = true →
     ∃ now, Grid.tiles (evolveAll c g k).1.1 !! i
            = Some (morphTo (Tile.level t + 1) now t))
  ∧ (Qle_bool 1 (Tile.morphProgress t) && canPromote c g (i, t) = false →
     Grid.tiles (evolveAll c g k).1.1 !! i = Some t)
  ∧ 0 <= (evolveAll c g k).2 <= Z.of_nat (length (Grid.tiles g)).
Proof.
  intros Ht. split_and!.
  - by apply evolveAll_hit.
  - by apply evolveAll_miss.
  - unfold evolveAll. cbv zeta. cbn [snd]. lia.
  - unfold evolveAll, toEvolve. cbv zeta. cbn [snd].
    apply inj_le. etrans; [apply length_filter|].
    unfold indexed. by rewrite length_imap.
Qed.

End Evolve.

(** ** Coherent tiles *)

Lemma Forall2_Forall_r {A} (R : A → A → Prop) (P : A → Prop) l l' :
  Forall2 R l l' → (∀ x y, R x y → P x → P y) → Forall P l → Forall P l'.
Proof.
  intros HR HP. induction HR as [|x y l l' Hxy _ IH]; [done|].
  intros Hl. inversion Hl as [|? ? Hx Hl']; subst.
  constructor; [by eapply HP|by apply IH].
Qed.

Lemma coherent_newTile q r : coherent (newTile q r).
Proof.
  unfold coherent, tile_dom, newTile, LEVEL.EMPTY, LEVEL.HOUSE, LEVEL.FACTORY,
    STATE_SPACE.EMPTY, STATE_SPACE.CRYSTALLIZED. simpl.
  split_and!; try lia; try done. intros Hn. exfalso. apply Hn. apply Qle_refl.
Qed.

Lemma coherent_step op t t' :
  op ≠ OpEvolve → op ≠ OpDecay → tile_step op t t' → coherent t → coherent t'.
Proof.
  intros He Hd Hstep (Hdom & Hiff & Hm & Hdur).
  destruct Hstep as [op t|t|i t Hs|i t Hs|t config now Hc|t newLevel now Hn
                    |t p Hp Hq|t p Hp Hq Ht|t p Hp Hq Ht];
    try done;
    unfold coherent, tile_dom, LEVEL.EMPTY, LEVEL.HOUSE, LEVEL.FACTORY,
      STATE_SPACE.EMPTY, STATE_SPACE.CANDIDATE, STATE_SPACE.CRYSTALLIZED in *;
    simpl in *; try specialize (Hm Hp);
    split_and!; try lia; try done; try tauto.
Qed.

Lemma coherent_morphTo t newLevel now :
  coherent t → Tile.state t = STATE_SPACE.CRYSTALLIZED →
  LEVEL.EMPTY <= newLevel <= LEVEL.FACTORY →
  coherent (morphTo newLevel now t).
Proof.
  intros (Hdom & Hiff & Hm & Hdur) Hs Hl.
  unfold coherent, tile_dom in *. simpl. split_and!; try done; try tauto.
Qed.

Lemma tile_eq_dec (a b : Tile.t) : {a = b} + {a ≠ b}.
Proof.
  assert (∀ x y : Q, {x = y} + {x ≠ y}) as HQ.
  { decide equality; [apply Pos.eq_dec|apply Z.eq_dec]. }
  decide equality; apply Z.eq_dec.
Defined.

Section Coherence.
Context `{Host}.

Lemma evolveAll_coherent c g k :
  Forall coherent (Grid.tiles g) → Forall coherent (Grid.tiles (evolveAll c g k).1.1).
Proof.
  intros Hg. apply list.Forall_lookup_2. intros i t' Ht'.
  destruct (Forall2_lookup_r _ _ _ _ _ (evolveAll_steps c g k) Ht')
    as (t & Ht & _).
  pose proof (list.Forall_lookup_1 _ _ _ _ Hg Ht) as Hc.
  destruct (Qle_bool 1 (Tile.morphProgress t) && canPromote c g (i, t)) eqn:Hp.
  - destruct (evolveAll_hit c g k i t Ht Hp) as [now Hnow].
    rewrite Hnow in Ht'. injection Ht' as <-.
    apply andb_true_iff in Hp as [_ Hp].
    apply (canPromote_iff c g (i, t) Ht) in Hp as (Hs & config & Hcfg & _).
    simpl in *. apply EVOLUTION_Some in Hcfg as (Hl & _).
    apply coherent_morphTo; [done|done|].
    unfold LEVEL.EMPTY, LEVEL.HOUSE, LEVEL.TOWER, LEVEL.FACTORY in *. lia.
  - rewrite (evolveAll_miss c g k i t Ht Hp) in Ht'. by injection Ht' as <-.
Qed.

Lemma decayPass_coherent c g s k :
  Forall coherent (Grid.tiles g) →
  Forall coherent (Grid.tiles (decayPass c g s k).1.1.1).
Proof.
  intros Hg. apply list.Forall_lookup_2. intros i t' Ht'.
  destruct (Forall2_lookup_r _ _ _ _ _ (decayPass_steps c g s k) Ht')
    as (t & Ht & Hstep).
  pose proof (list.Forall_lookup_1 _ _ _ _ Hg Ht) as Hc.
  destruct (tile_eq_dec t' t) as [->|Hne]; [done|].
  assert (starving g (i, t) = true) as Hst.
  { unfold decayPass in Ht'. destruct (nonEmptyCount g <=? 10).
    - simpl in Ht'. congruence.
    - by apply (decayBody_sound c g s k i t t'). }
  unfold starving in Hst. apply andb_true_iff in Hst as [Hst _].
  apply andb_true_iff in Hst as [Hst _]. apply Z.eqb_eq in Hst. simpl in Hst.
  inversion Hstep as [| | | | |t0 newLevel now Hd| | |]; subst; [done|].
  apply coherent_morphTo; [done|done|].
  rewrite demoteTarget_eq in Hd. injection Hd as <-.
  destruct Hc as ((Hl & _) & _).
  unfold LEVEL.EMPTY, LEVEL.FACTORY in *. lia.
Qed.

Lemma draw_phases (P Q R : Grid.t → Prop) c w :
  (∀ fc g s, P g → P (spawnPhase c fc g s).1) →
  (∀ g s, P g → Q (updateAgents c g s).1) →
  (∀ g, Q g → P (removeDead g)) →
  (∀ fc g k, P g → P (evolvePhase c fc g k).1) →
  (∀ fc g s k, P g → P (decayPhase c fc g s k).1.1) →
  (∀ g k, P g → R (updateAllMorphing g k).1) →
  paused c = false → P (grid w) → R (grid (draw c w)).
Proof.
  intros H1 H2 H3 H4 H5 H6 Hp Hw. unfold draw. rewrite Hp.
  pose proof (H1 (frameCount w) (grid w) (gen w) Hw) as Hg1.
  destruct (spawnPhase c (frameCount w) (grid w) (gen w)) as [g1 s1].
  pose proof (H2 g1 s1 Hg1) as Hg2.
  destruct (updateAgents c g1 s1) as [g2 s2].
  pose proof (H4 (frameCount w) _ (clk w) (H3 g2 Hg2)) as Hg4.
  destruct (evolvePhase c (frameCount w) (removeDead g2) (clk w)) as [g4 k4].
  pose proof (H5 (frameCount w) g4 s2 k4 Hg4) as Hg5.
  destruct (decayPhase c (frameCount w) g4 s2 k4) as [[g5 s5] k5].
  pose proof (H6 g5 k5 Hg5) as Hg6.
  by destruct (updateAllMorphing g5 k5) as [g6 k6].
Qed.

Lemma draw_coherent c w :
  Forall coherent (Grid.tiles (grid w)) →
  Forall coherent (Grid.tiles (grid (draw c w))).
Proof.
  intros Hw. destruct (paused c) eqn:Hp; [unfold draw; by rewrite Hp|].
  apply (draw_phases (λ g, Forall coherent (Grid.tiles g))
           (λ g, Forall coherent (Grid.tiles g))
           (λ g, Forall coherent (Grid.tiles g))); try done.
  - intros fc g s Hg. unfold spawnPhase. destruct (_ && _); [|done].
    pose proof (spawnAgent_tiles g s) as Ht.
    destruct (spawnAgent g s) as [[g' a] s']. simpl in *. by rewrite Ht.
  - intros g s Hg.
    apply (Forall2_Forall_r _ _ _ _ (updateAgents_steps c g s)); [|done].
    intros x y. by apply coherent_step.
  - intros fc g k Hg. unfold evolvePhase. destruct (cadence _ _); [|done].
    by apply evolveAll_coherent.
  - intros fc g s k Hg. unfold decayPhase. destruct (cadence _ _); [|done].
    by apply decayPass_coherent.
  - intros g k Hg.
    apply (Forall2_Forall_r _ _ _ _ (updateAllMorphing_steps g k)); [|done].
    intros x y. by apply coherent_step.
Qed.

Lemma newGrid_coherent rows cols : Forall coherent (Grid.tiles (newGrid rows cols)).
Proof.
  unfold newGrid, createTiles. simpl. apply Forall_join.
  apply list.Forall_fmap, list.Forall_forall. intros r _.
  apply list.Forall_fmap, list.Forall_forall. intros q _.
  apply coherent_newTile.
Qed.

Lemma seedCenter_coherent g :
  Forall coherent (Grid.tiles g) → Forall coherent (Grid.tiles (seedCenter g)).
Proof.
  intros Hg. apply (Forall2_Forall_r _ _ _ _ (seedCenter_steps g)); [|done].
  intros x y. by apply coherent_step.
Qed.

(** X16: coherence of every tile is kept by any number of frames, and holds
    after any number of frames from [setup] or from a reset: a tile has a
    level of HOUSE or more exactly when it is Crystallized, only
    Crystallized tiles morph, levels and targets stay between EMPTY and
    FACTORY, and the morph duration stays 1000. *)
Theorem run_coherent (c : Controls) (n : nat) (w : World) (rows cols newSeed : Z) :
  (Forall coherent (Grid.tiles (grid w)) →
   Forall coherent (Grid.tiles (grid (run c n w))))
  ∧ Forall coherent (Grid.tiles (grid (run c n (reset rows cols newSeed w))))
  ∧ Forall coherent (Grid.tiles (grid (run c n (setup c rows cols (clk w))))).
Proof.
  assert (∀ w, Forall coherent (Grid.tiles (grid w)) →
               Forall coherent (Grid.tiles (grid (run c n w)))) as Hrun.
  { clear w. induction n as [|n IH]; intros w Hw; simpl; [done|].
    apply IH. unfold frame. by apply draw_coherent. }
  split; [apply Hrun|]. split; apply Hrun; simpl;
    apply seedCenter_coherent, newGrid_coherent.
Qed.

End Coherence.

(** ** The agent list *)

Lemma lookupZ_elem {A} (l : list A) i x : lookupZ l i = Some x → x ∈ l.
Proof.
  unfold lookupZ. destruct (i <? 0); [done|]. apply list_elem_of_lookup_2.
Qed.

Section Agents.
Context `{Host}.

Lemma randomChoice_elem {A} (l : list A) s x :
  (randomChoice l s).1 = Some x → x ∈ l.
Proof.
  unfold randomChoice. destruct (random s) as [u s']. simpl. apply lookupZ_elem.
Qed.

Lemma walk_ok c g a s : agent_ok g a → agent_ok g (walk c g a s).1.
Proof.
  intros Ha. unfold walk. destruct (negb (Agent.alive a)); [done|].
  destruct (Grid.tiles g !! Agent.tile a) as [t|]; [|done].
  destruct (Nat.eqb_spec (length (getNeighbors g (Tile.q t) (Tile.r t))) 0)
    as [|Hn]; [done|].
  destruct (random s) as [u s1]. destruct (Qlt_bool u _).
  - destruct (sortBy_head (λ x y : nat * Tile.t * Score, scoreAfter x.2 y.2)
                ((λ n : nat * Tile.t, (n, getServiceScore g n.2))
                   <$> getNeighbors g (Tile.q t) (Tile.r t)))
      as (k & b & Hk & Hh & _).
    + intros x y. apply scoreAfter_asym.
    + intros x y z. apply scoreAfter_cotrans.
    + by destruct (getNeighbors g (Tile.q t) (Tile.r t)).
    + destruct (sortBy _ _) as [|best rest]; [done|].
      simpl in Hh. injection Hh as ->.
      apply list_elem_of_lookup_2 in Hk.
      apply list_elem_of_fmap in Hk as (n & -> & Hin).
      apply getNeighbors_lookup in Hin. unfold agent_ok. simpl.
      by eapply lookup_lt_Some.
  - destruct (randomChoice _ s1) as [[n|] s2] eqn:E; [|done].
    pose proof (randomChoice_elem (getNeighbors g (Tile.q t) (Tile.r t)) s1 n) as Hin.
    rewrite E in Hin. specialize (Hin eq_refl).
    apply getNeighbors_lookup in Hin. unfold agent_ok. simpl.
    by eapply lookup_lt_Some.
Qed.

Lemma aggregate_tile rho g a s :
  Agent.tile (aggregate rho g a s).1.1.2 = Agent.tile a.
Proof.
  unfold aggregate. destruct (negb (Agent.alive a)); [done|].
  destruct (Grid.tiles g !! Agent.tile a) as [t|]; [|done].
  destruct (Tile.state t =? STATE_SPACE.CRYSTALLIZED); [done|].
  destruct (couldBeCandidate g a); [|done].
  destruct (random s) as [u s']. by destruct (Qlt_bool u rho).
Qed.

Lemma agentStep_ok c a g s :
  agent_ok g a →
  agent_ok (agentStep c a (g, s)).2.1 (agentStep c a (g, s)).1
  ∧ length (Grid.tiles (agentStep c a (g, s)).2.1) = length (Grid.tiles g).
Proof.
  intros Ha.
  pose proof (Forall2_length (walk_agentStep_steps c a g s)) as Hlen.
  split; [|done]. unfold agent_ok. rewrite <- Hlen. clear Hlen.
  unfold agentStep. simpl. pose proof (walk_ok c g a s Ha) as Hw.
  destruct (walk c g a s) as [a1 s1].
  pose proof (aggregate_tile (stickingProb c) g a1 s1) as Ht.
  destruct (aggregate _ _ _ _) as [[[g2 a2] s2] b]. simpl in *.
  unfold agent_ok in Hw. by rewrite Ht.
Qed.

Lemma forEach_agentStep_ok c l st :
  Forall (agent_ok st.1) l →
  Forall (agent_ok (forEach (agentStep c) l st).2.1) (forEach (agentStep c) l st).1
  ∧ length (forEach (agentStep c) l st).1 = length l
  ∧ length (Grid.tiles (forEach (agentStep c) l st).2.1) = length (Grid.tiles st.1).
Proof.
  revert st. induction l as [|a l IH]; intros [g s] Hl; simpl; [done|].
  inversion Hl as [|? ? Ha Hl']; subst. simpl in *.
  destruct (agentStep_ok c a g s Ha) as [Hok Hlen].
  destruct (agentStep c a (g, s)) as [a' st1]. simpl in *.
  destruct (IH st1) as (IH1 & IH2 & IH3).
  { eapply list.Forall_impl; [exact Hl'|]. intros x. unfold agent_ok.
    by rewrite Hlen. }
  destruct (forEach (agentStep c) l st1) as [l' st2]. simpl in *.
  split_and!; [|by f_equal|congruence].
  constructor; [|done]. unfold agent_ok in *. congruence.
Qed.

Lemma foldl_retarget_agents target l acc :
  Grid.agents (foldl (retarget target) acc l).1 = Grid.agents acc.1.
Proof.
  revert acc. induction l as [|i l IH]; intros acc; simpl; [done|].
  rewrite IH. unfold retarget.
  destruct (Grid.tiles acc.1 !! i) as [tile|]; [|done].
  destruct (target tile) as [newLevel|]; [|done].
  by destruct (setTargetLevel newLevel tile acc.2).
Qed.

Lemma agents_ok_same c g g' :
  Grid.agents g' = Grid.agents g →
  length (Grid.tiles g') = length (Grid.tiles g) →
  agents_ok c g → agents_ok c g'.
Proof.
  unfold agents_ok, agent_ok. intros -> ->. done.
Qed.

Lemma edgeTiles_lookup g e : e ∈ edgeTiles g → Grid.tiles g !! e.1 = Some e.2.
Proof.
  unfold edgeTiles, edgeSlots. rewrite list_elem_of_omap.
  intros (o & Ho & Heq). unfold id in Heq. subst o.
  assert (∃ q r, getTile g q r = Some e) as (q & r & Hg).
  { apply elem_of_app in Ho as [Ho|Ho];
      apply list_elem_of_bind in Ho as (x & Ho & _);
      repeat (apply elem_of_cons in Ho as [Ho|Ho]);
      try (by apply elem_of_nil in Ho); eauto. }
  by apply getTile_Some_inv in Hg as (_ & _ & ?).
Qed.

Lemma spawnPhase_agents_ok c fc g s :
  agents_ok c g → agents_ok c (spawnPhase c fc g s).1.
Proof.
  intros [Hall Hlen]. unfold spawnPhase.
  destruct (cadence fc (spawnRate c)); simpl; [|done].
  destruct (Z.ltb_spec (Z.of_nat (length (Grid.agents g))) (maxAgents c)) as [Hlt|];
    [|done].
  unfold spawnAgent, _getRandomEdgeTile.
  destruct (randomChoice (edgeTiles g) s) as [[e|] s'] eqn:E; [|done].
  destruct (negb _); [|done]. unfold agents_ok, agent_ok in *. simpl. split.
  - apply Forall_app. split; [done|]. constructor; [|done]. split; [done|].
    pose proof (randomChoice_elem (edgeTiles g) s e) as Hin.
    rewrite E in Hin. specialize (Hin eq_refl).
    apply edgeTiles_lookup in Hin.
    by eapply lookup_lt_Some.
  - rewrite length_app. simpl. lia.
Qed.

Lemma updateAgents_agents_ok c g s :
  agents_ok c g →
  Forall (agent_ok (updateAgents c g s).1) (Grid.agents (updateAgents c g s).1)
  ∧ Z.of_nat (length (Grid.agents (updateAgents c g s).1)) <= Z.max 0 (maxAgents c).
Proof.
  intros [Hall Hlen]. unfold updateAgents.
  destruct (forEach_agentStep_ok c (Grid.agents g) (g, s)) as (H1 & H2 & H3).
  { eapply list.Forall_impl; [exact Hall|]. by intros x [_ ?]. }
  destruct (forEach (agentStep c) (Grid.agents g) (g, s)) as [l' [g' s']].
  simpl in *. split; [done|]. by rewrite H2.
Qed.

Lemma removeDead_agents_ok c g :
  Forall (agent_ok g) (Grid.agents g) →
  Z.of_nat (length (Grid.agents g)) <= Z.max 0 (maxAgents c) →
  agents_ok c (removeDead g).
Proof.
  intros Hall Hlen. unfold agents_ok, removeDead. simpl. split.
  - apply list.Forall_forall. intros a Ha.
    apply list_elem_of_filter in Ha as [Hal Ha]. split.
    + by apply Is_true_true.
    + by apply (list.Forall_forall (agent_ok g) (Grid.agents g)).
  - pose proof (length_filter (λ a, Agent.alive a) (Grid.agents g)). lia.
Qed.

Lemma draw_agents_ok c w : agents_ok c (grid w) → agents_ok c (grid (draw c w)).
Proof.
  intros Hw. destruct (paused c) eqn:Hp; [unfold draw; by rewrite Hp|].
  apply (draw_phases (agents_ok c)
           (λ g, Forall (agent_ok g) (Grid.agents g)
                 ∧ Z.of_nat (length (Grid.agents g)) <= Z.max 0 (maxAgents c))
           (agents_ok c));
    try done.
  - intros fc g s. apply spawnPhase_agents_ok.
  - intros g s. apply updateAgents_agents_ok.
  - intros g [? ?]. by apply removeDead_agents_ok.
  - intros fc g k. unfold evolvePhase. destruct (cadence _ _); [|done].
    apply agents_ok_same.
    + unfold evolveAll. simpl. apply foldl_retarget_agents.
    + symmetry. apply (Forall2_length (evolveAll_steps c g k)).
  - intros fc g s k. unfold decayPhase. destruct (cadence _ _); [|done].
    apply agents_ok_same.
    + unfold decayPass. destruct (nonEmptyCount g <=? 10); [done|].
      unfold decayBody.
      destruct (foldl (decayScan c g) ([], s) (indexed g)) as [toDemote s'].
      pose proof (foldl_retarget_agents demoteTarget toDemote (g, k)) as Ha.
      by destruct (foldl (retarget demoteTarget) (g, k) toDemote) as [g' k'].
    + symmetry. apply (Forall2_length (decayPass_steps c g s k)).
  - intros g k. apply agents_ok_same.
    + unfold updateAllMorphing.
      by destruct (forEach updateMorphing (Grid.tiles g) k) as [ts k'].
    + symmetry. apply (Forall2_length (updateAllMorphing_steps g k)).
Qed.

(** X17: between frames every agent of the list is alive and stands on a
    tile of the grid, and the list holds at most [maxAgents] agents (none
    when [maxAgents] is negative); this is kept by any number of frames and
    holds after any number of frames from [setup] or from a reset. *)
Theorem run_agents (c : Controls) (n : nat) (w : World) (rows cols newSeed : Z) :
  (agents_ok c (grid w) → agents_ok c (grid (run c n w)))
  ∧ agents_ok c (grid (run c n (reset rows cols newSeed w)))
  ∧ agents_ok c (grid (run c n (setup c rows cols (clk w)))).
Proof.
  assert (∀ w, agents_ok c (grid w) → agents_ok c (grid (run c n w))) as Hrun.
  { clear w. induction n as [|n IH]; intros w Hw; simpl; [done|].
    apply IH. unfold frame. by apply draw_agents_ok. }
  assert (agents_ok c (seedCenter (newGrid rows cols))) as Hinit.
  { unfold agents_ok, seedCenter. destruct (getTile _ _ _); simpl; split;
      try constructor; lia. }
  split; [apply Hrun|]. split; by apply Hrun.
Qed.

End Agents.

(** ** The layout and the samples of a decay pass *)

(** X18: [_createTiles] builds [nRows * nCols] tiles in row-major order:
    index [r * nCols + q] holds a fresh tile with coordinates [(q, r)]
    (Empty, level 0, not morphing), and every entry of the array is such a
    tile at such an index. *)
Theorem createTiles_spec (nRows nCols : Z) :
  length (createTiles nRows nCols) = (Z.to_nat nRows * Z.to_nat nCols)%nat
  ∧ (∀ q r, 0 <= q < nCols → 0 <= r < nRows →
       createTiles nRows nCols !! Z.to_nat (r * nCols + q) = Some (newTile q r))
  ∧ (∀ i t, createTiles nRows nCols !! i = Some t →
       0 <= Tile.q t < nCols ∧ 0 <= Tile.r t < nRows
       ∧ i = Z.to_nat (Tile.r t * nCols + Tile.q t)
       ∧ t = newTile (Tile.q t) (Tile.r t))
  ∧ wf_grid (newGrid nRows nCols).
Proof.
  split_and!.
  - apply createTiles_length.
  - intros q r. apply createTiles_lookup.
  - intros i t Ht. by apply createTiles_lookup_inv in Ht as (? & ? & ? & ?).
  - reflexivity.
Qed.

Section Samples.
Context `{Host}.

(** X19: frames never move a tile: the grid keeps its dimensions, and every
    tile its place in the array and its coordinates; after any number of
    frames from a reset the grid has the reset's dimensions and the layout
    of the constructor. *)
Theorem run_layout (c : Controls) (n : nat) (w : World) (rows cols newSeed : Z) :
  (wf_grid (grid w) →
   wf_grid (grid (run c n w)) ∧ dims (grid (run c n w)) = dims (grid w))
  ∧ wf_grid (grid (run c n (reset rows cols newSeed w)))
  ∧ dims (grid (run c n (reset rows cols newSeed w))) = (rows, cols).
Proof.
  assert (∀ w d, dims (grid w) = d → dims (grid (run c n w)) = d) as Hd.
  { intros w0 d. apply (run_invariant (λ g, dims g = d)). congruence. }
  split_and!.
  - intros Hwf. split; [|by apply Hd].
    by apply (run_invariant wf_grid); [apply wf_grid_steps|].
  - apply run_wf.
  - apply Hd. unfold reset. simpl. by rewrite seedCenter_dims.
Qed.

Lemma scan_gen c g l acc :
  (foldl (decayScan c g) acc l).2
  = Nat.iter (length (filter (λ it, starving g it) l)) (λ s, (random s).2) acc.2
  ∧ (length (foldl (decayScan c g) acc l).1
     <= length acc.1 + length (filter (λ it, starving g it) l))%nat.
Proof.
  revert acc. induction l as [|x l IH]; intros acc; [simpl; split; [done|lia]|].
  simpl foldl. destruct (IH (decayScan c g acc x)) as [IH1 IH2].
  rewrite IH1. destruct (starving g x) eqn:Hst.
  - rewrite filter_cons_True by by apply Is_true_true.
    rewrite decayScan_draw in * by done. simpl length. rewrite Nat.iter_succ_r.
    split; [done|]. simpl in IH2. etrans; [exact IH2|].
    destruct (Qlt_bool _ _); [rewrite length_app; simpl|]; lia.
  - rewrite filter_cons_False by (by rewrite Is_true_false).
    rewrite decayScan_idle in * by done. done.
Qed.

(** X20: once more than 10 tiles are non-Empty, a decay pass draws exactly
    one sample for every starving tile (Crystallized, not morphing, not
    served) and none for any other tile; the count it returns is at most
    the number of starving tiles. *)
Theorem decayPass_samples (c : Controls) (g : Grid.t) (s : rng) (k : clock) :
  10 < nonEmptyCount g →
  (decayPass c g s k).1.1.2
  = Nat.iter (length (filter (λ it, starving g it) (indexed g)))
      (λ s, (random s).2) s
  ∧ ∃ n, (decayPass c g s k).2 = Some n
         ∧ 0 <= n <= Z.of_nat (length (filter (λ it, starving g it) (indexed g))).
Proof.
  intros Hn. unfold decayPass.
  destruct (Z.leb_spec (nonEmptyCount g) 10); [lia|].
  unfold decayBody.
  destruct (scan_gen c g (indexed g) ([], s)) as [Hg Hl].
  destruct (foldl (decayScan c g) ([], s) (indexed g)) as [toDemote s'].
  destruct (foldl (retarget demoteTarget) (g, k) toDemote) as [g' k'].
  simpl in *. split; [done|]. eexists. split; [done|]. lia.
Qed.

End Samples.

(** ** A morphing tile within a frame *)

Section Morphing.
Context `{Host}.

Lemma forEach_updateMorphing_lookup l k i t :
  l !! i = Some t →
  ∃ k', (forEach updateMorphing l k).1 !! i = Some (updateMorphing t k').1.
Proof.
  revert k i. induction l as [|x l IH]; intros k i Hi; [done|]. simpl.
  destruct i as [|i]; simpl in Hi.
  - injection Hi as ->. exists k.
    destruct (updateMorphing t k) as [t' k1].
    by destruct (forEach updateMorphing l k1) as [ts k2].
  - destruct (updateMorphing x k) as [x' k1].
    destruct (IH k1 i Hi) as [k' Hk'].
    destruct (forEach updateMorphing l k1) as [ts k2]. simpl in *. by exists k'.
Qed.

Lemma updateAgents_crystallized c g s i t :
  Grid.tiles g !! i = Some t → Tile.state t = STATE_SPACE.CRYSTALLIZED →
  Grid.tiles (updateAgents c g s).1 !! i = Some t.
Proof.
  intros Ht Hs.
  destruct (Forall2_lookup_l _ _ _ _ _ (updateAgents_steps c g s) Ht)
    as (t' & Ht' & Hstep).
  rewrite Ht'. f_equal. by inversion Hstep.
Qed.

Lemma decayPass_morphing c g s k i t :
  Grid.tiles g !! i = Some t → ¬ (1 <= Tile.morphProgress t)%Q →
  Grid.tiles (decayPass c g s k).1.1.1 !! i = Some t.
Proof.
  intros Ht Hp.
  destruct (Forall2_lookup_l _ _ _ _ _ (decayPass_steps c g s k) Ht)
    as (t' & Ht' & _).
  rewrite Ht'. f_equal. destruct (tile_eq_dec t' t) as [|Hne]; [done|].
  exfalso. apply Hp.
  assert (starving g (i, t) = true) as Hst.
  { unfold decayPass in Ht'. destruct (nonEmptyCount g <=? 10).
    - simpl in Ht'. congruence.
    - by apply (decayBody_sound c g s k i t t'). }
  unfold starving in Hst. apply andb_true_iff in Hst as [Hst _].
  apply andb_true_iff in Hst as [_ Hst]. simpl in Hst.
  apply negb_true_iff, Qlt_bool_false in Hst. by apply Qnot_lt_le.
Qed.

(** X23: a Crystallized tile that is morphing is left as it is by the
    agents' step, by the evolution pass and by the decay pass; within a
    frame it is changed only by its own [updateMorphing], so a started
    morph is never retargeted or restarted before it completes. *)
Theorem morphing_tile_frame (c : Controls) (w : World) (i : nat) (t : Tile.t) :
  Grid.tiles (grid w) !! i = Some t →
  Tile.state t = STATE_SPACE.CRYSTALLIZED →
  ¬ (1 <= Tile.morphProgress t)%Q →
  (∀ k, Grid.tiles (evolveAll c (grid w) k).1.1 !! i = Some t)
  ∧ (∀ s k, Grid.tiles (decayPass c (grid w) s k).1.1.1 !! i = Some t)
  ∧ (∀ s, Grid.tiles (updateAgents c (grid w) s).1 !! i = Some t)
  ∧ (paused c = false →
     ∃ k', Grid.tiles (grid (draw c w)) !! i = Some (updateMorphing t k').1).
Proof.
  intros Ht Hs Hp.
  assert (∀ g k, Grid.tiles g !! i = Some t →
                 Grid.tiles (evolveAll c g k).1.1 !! i = Some t) as Hev.
  { intros g k Hg. apply evolveAll_miss; [done|].
    apply andb_false_iff. left. by apply Qle_bool_false. }
  split_and!.
  - intros k. by apply Hev.
  - intros s k. by apply decayPass_morphing.
  - intros s. by apply updateAgents_crystallized.
  - intros Hpa.
    apply (draw_phases (λ g, Grid.tiles g !! i = Some t)
             (λ g, Grid.tiles g !! i = Some t)
             (λ g, ∃ k', Grid.tiles g !! i = Some (updateMorphing t k').1));
      try done.
    + intros fc g s Hg. unfold spawnPhase. destruct (_ && _); [|done].
      pose proof (spawnAgent_tiles g s) as Hsame.
      destruct (spawnAgent g s) as [[g' a] s']. simpl in *. by rewrite Hsame.
    + intros g s Hg. by apply updateAgents_crystallized.
    + intros fc g k Hg. unfold evolvePhase. destruct (cadence _ _); [|done].
      by apply Hev.
    + intros fc g s k Hg. unfold decayPhase. destruct (cadence _ _); [|done].
      by apply decayPass_morphing.
    + intros g k Hg. unfold updateAllMorphing.
      destruct (forEach_updateMorphing_lookup (Grid.tiles g) k i t Hg) as [k' Hk'].
      destruct (forEach updateMorphing (Grid.tiles g) k) as [ts k2].
      simpl in *. by exists k'.
Qed.

End Morphing.

(** ** The evolution pass, twice *)

Lemma same_building_hexDistance a a' b b' :
  same_building a a' → same_building b b' → hexDistance a b = hexDistance a' b'.
Proof.
  intros ([= Hq Hr] & _) ([= Hq' Hr'] & _). unfold hexDistance.
  by rewrite Hq, Hr, Hq', Hr'.
Qed.

Lemma getTile_same g g' q r :
  same_buildings g g' →
  match getTile g q r, getTile g' q r with
  | Some n, Some n' => n.1 = n'.1 ∧ same_building n.2 n'.2
  | None, None => True
  | _, _ => False
  end.
Proof.
  intros [[= Hr Hc] Hall]. unfold getTile. rewrite <- Hr, <- Hc.
  destruct (_ || _); [done|]. cbv zeta.
  set (i := Z.to_nat (r * Grid.nCols g + q)).
  destruct (Grid.tiles g !! i) as [t|] eqn:Ht.
  - destruct (Forall2_lookup_l _ _ _ _ _ Hall Ht) as (t' & -> & Hsame). done.
  - destruct (Grid.tiles g' !! i) as [t'|] eqn:Ht'; [|done].
    destruct (Forall2_lookup_r _ _ _ _ _ Hall Ht') as (t & Ht2 & _). congruence.
Qed.

Lemma lowerNeighbors_same g g' this this' :
  same_buildings g g' → same_building this.2 this'.2 →
  length (lowerNeighbors g this) = length (lowerNeighbors g' this').
Proof.
  intros Hg ([= Hq Hr] & _ & Hl). unfold lowerNeighbors, getNeighbors, neighborSlots.
  rewrite <- Hq, <- Hr, <- Hl.
  induction (directions (Tile.q this.2)) as [|d ds IH]; [done|]. csimpl.
  pose proof (getTile_same g g' (Tile.q this.2 + d.1) (Tile.r this.2 + d.2) Hg) as Hd.
  destruct (getTile g _ _) as [n|], (getTile g' _ _) as [n'|]; try done. simpl.
  destruct Hd as (_ & _ & Hs & Hlv).
  rewrite !filter_cons, <- Hs, <- Hlv.
  destruct (decide _); simpl; by rewrite IH.
Qed.

Lemma inShadow_same c g g' this this' config :
  same_buildings g g' → this.1 = this'.1 → same_building this.2 this'.2 →
  inShadow c g this config = inShadow c g' this' config.
Proof.
  assert (∀ g g' this this', same_buildings g g' → this.1 = this'.1 →
            same_building this.2 this'.2 →
            inShadow c g this config = true → inShadow c g' this' config = true)
    as Himp.
  { clear. intros g g' this this' [_ Hall] Hi Hthis. unfold inShadow.
    rewrite !existsb_true_iff. intros ([j n] & Hin & Hp).
    apply elem_of_indexed in Hin. simpl in Hin.
    destruct (Forall2_lookup_l _ _ _ _ _ Hall Hin) as (n' & Hn' & Hsame).
    exists (j, n'). split; [by apply elem_of_indexed|]. simpl in *.
    rewrite <- Hi, <- (same_building_hexDistance _ _ _ _ Hthis Hsame).
    destruct Hsame as (_ & <- & <-). done. }
  intros Hg Hi Hthis.
  assert (same_buildings g' g) as Hg'.
  { destruct Hg as [Hd Hall]. split; [done|].
    apply Forall2_flip. eapply list.Forall2_impl; [exact Hall|].
    intros x y (? & ? & ?). by split_and!. }
  assert (same_building this'.2 this.2) as Hthis'.
  { destruct Hthis as (? & ? & ?). by split_and!. }
  destruct (inShadow c g this config) eqn:E1, (inShadow c g' this' config) eqn:E2;
    try done.
  - by rewrite (Himp g g' this this' Hg Hi Hthis E1) in E2.
  - by rewrite (Himp g' g this' this Hg' (eq_sym Hi) Hthis' E2) in E1.
Qed.

Lemma canPromote_same c g g' this this' :
  same_buildings g g' → this.1 = this'.1 → same_building this.2 this'.2 →
  canPromote c g this = canPromote c g' this'.
Proof.
  intros Hg Hi Hthis. unfold canPromote.
  rewrite (lowerNeighbors_same g g' this this' Hg Hthis).
  assert (∀ config, inShadow c g this config = inShadow c g' this' config) as Hsh.
  { intros config. by apply inShadow_same. }
  destruct Hthis as (Hc & <- & <-).
  destruct (negb _); [done|]. destruct (EVOLUTION _) as [config|]; [|done].
  by rewrite (Hsh config).
Qed.

Section Idempotence.
Context `{Host}.

Lemma evolveAll_same c g k : same_buildings g (evolveAll c g k).1.1.
Proof.
  split; [symmetry; apply evolveAll_dims|].
  eapply list.Forall2_impl; [apply evolveAll_steps|].
  intros t t' Hstep. inversion Hstep; subst; by split_and!.
Qed.

(** X24: [evolveAll] run again right after [evolveAll] changes nothing,
    does not read the clock and returns 0: the pass only starts morphs,
    [canPromote] gives the same answer on the grid after the pass as
    before it, and the tiles the pass promoted are morphing. *)
Theorem evolveAll_idempotent (c : Controls) (g : Grid.t) (k k' : clock) :
  evolveAll c (evolveAll c g k).1.1 k' = ((evolveAll c g k).1.1, k', 0)
  ∧ (∀ i t t', Grid.tiles g !! i = Some t →
       Grid.tiles (evolveAll c g k).1.1 !! i = Some t' →
       canPromote c (evolveAll c g k).1.1 (i, t') = canPromote c g (i, t)).
Proof.
  assert (∀ i t t', Grid.tiles g !! i = Some t →
       Grid.tiles (evolveAll c g k).1.1 !! i = Some t' →
       canPromote c (evolveAll c g k).1.1 (i, t') = canPromote c g (i, t)) as Hcan.
  { intros i t t' Ht Ht'. symmetry.
    apply canPromote_same; [apply evolveAll_same|done|].
    destruct (evolveAll_same c g k) as [_ Hall].
    by apply (Forall2_lookup_lr _ _ _ _ _ _ Hall Ht Ht'). }
  split; [|exact Hcan].
  assert (toEvolve c (evolveAll c g k).1.1 = []) as Hnil.
  { apply elem_of_nil_inv. intros [i t'] Hin.
    unfold toEvolve in Hin. apply list_elem_of_filter in Hin as [Hp Hin].
    apply elem_of_indexed in Hin. cbn [fst snd] in Hin.
    apply Is_true_true in Hp. cbn [fst snd] in Hp.
    destruct (Forall2_lookup_r _ _ _ _ _ (evolveAll_steps c g k) Hin)
      as (t & Ht & _).
    destruct (Qle_bool 1 (Tile.morphProgress t) && canPromote c g (i, t)) eqn:E.
    - destruct (evolveAll_hit c g k i t Ht E) as [now Hnow].
      rewrite Hnow in Hin. injection Hin as <-. by cbn in Hp.
    - rewrite (evolveAll_miss c g k i t Ht E) in Hin. injection Hin as <-.
      rewrite (Hcan i t t Ht (evolveAll_miss c g k i t Ht E)) in Hp. congruence. }
  unfold evolveAll at 1. cbv zeta. by rewrite Hnil.
Qed.

End Idempotence.

(** ** Code without a caller *)

(** X21: [Agent.promote] never returns [true]; for a live agent on a tile
    that can promote it raises the level by exactly one, at most to
    FACTORY, at once and without a morph, and returns [undefined]; in every
    other case the grid is unchanged; coherence of the tiles is kept. *)
Theorem promote_spec (c : Controls) (g : Grid.t) (a : Agent.t) :
  (promote c g a).2 ≠ Some true
  ∧ (∀ t, Grid.tiles g !! Agent.tile a = Some t → Agent.alive a = true →
          canPromote c g (Agent.tile a, t) = true →
          promote c g a
          = (set_tiles (<[Agent.tile a := set_level (Tile.level t + 1) t]> (Grid.tiles g)) g,
             None)
            ∧ Tile.level t + 1 <= LEVEL.FACTORY)
  ∧ ((∀ t, Grid.tiles g !! Agent.tile a = Some t → Agent.alive a = true →
           canPromote c g (Agent.tile a, t) = false) →
     (promote c g a).1 = g)
  ∧ (Forall coherent (Grid.tiles g) → Forall coherent (Grid.tiles (promote c g a).1)).
Proof.
  assert (∀ t, Grid.tiles g !! Agent.tile a = Some t → Agent.alive a = true →
          canPromote c g (Agent.tile a, t) = true →
          promote c g a
          = (set_tiles (<[Agent.tile a := set_level (Tile.level t + 1) t]> (Grid.tiles g)) g,
             None)
            ∧ Tile.level t + 1 <= LEVEL.FACTORY
            ∧ Tile.state t = STATE_SPACE.CRYSTALLIZED) as Hhit.
  { intros t Ht Ha Hp. unfold promote. rewrite Ha, Ht. simpl.
    pose proof Hp as Hp'.
    apply (canPromote_iff c g (Agent.tile a, t) Ht) in Hp' as (Hs & config & Hcfg & _).
    simpl in *. rewrite Hs, Z.eqb_refl, Hp, Hcfg. simpl.
    apply EVOLUTION_Some in Hcfg as (Hl & -> & _).
    split; [done|]. unfold LEVEL.TOWER, LEVEL.FACTORY in *. split; [lia|done]. }
  split_and!.
  - unfold promote. destruct (negb (Agent.alive a)); [done|].
    destruct (Grid.tiles g !! Agent.tile a) as [t|]; [|done].
    destruct (negb _); [done|]. destruct (canPromote _ _ _); [|done].
    by destruct (EVOLUTION _).
  - intros t Ht Ha Hp. by destruct (Hhit t Ht Ha Hp) as (? & ? & _).
  - intros Hno. unfold promote. destruct (Agent.alive a) eqn:Ha; [|done]. simpl.
    destruct (Grid.tiles g !! Agent.tile a) as [t|] eqn:Ht; [|done].
    destruct (negb _); [done|]. by rewrite (Hno t).
  - intros Hg.
    destruct (Agent.alive a) eqn:Ha; [|by unfold promote; rewrite Ha].
    destruct (Grid.tiles g !! Agent.tile a) as [t|] eqn:Ht;
      [|by unfold promote; rewrite Ha, Ht].
    destruct (canPromote c g (Agent.tile a, t)) eqn:Hp.
    + destruct (Hhit t eq_refl eq_refl Hp) as (-> & Hl & Hs). simpl.
      apply Forall_insert; [done|].
      pose proof (list.Forall_lookup_1 _ _ _ _ Hg Ht) as (Hdom & Hiff & Hm & Hdur).
      unfold coherent, tile_dom, LEVEL.EMPTY, LEVEL.HOUSE, LEVEL.FACTORY in *.
      simpl. apply Hiff in Hs. split_and!; try lia; try done.
    + unfold promote. rewrite Ha, Ht, Hp. simpl. by destruct (negb _).
Qed.

Lemma toInt32_unit u : (0 <= u)%Q → (u < 1)%Q → toInt32 (u * 2) = 0 ∨ toInt32 (u * 2) = 1.
Proof.
  intros H0 H1. unfold toInt32.
  assert (Qle_bool 0 (u * 2) = true) as ->.
  { apply Qle_bool_iff. apply Qmult_le_0_compat; done. }
  pose proof (Qfloor_unit_range u 2 H0 H1 ltac:(lia)) as [Hf0 Hf1].
  change (inject_Z (Z.of_nat 2)) with 2%Q in *.
  change (Z.of_nat 2) with 2 in Hf1.
  set (n := Qfloor (u * 2)) in *.
  assert (n = 0 ∨ n = 1) as Hn by lia.
  destruct Hn as [Hn|Hn]; rewrite Hn; [by left|by right].
Qed.

Section Init.
Context `{Host}.

Lemma forEach_initTile l s :
  UnitGenerator →
  Forall2 (λ t t', ∃ st, (st = STATE_SPACE.EMPTY ∨ st = STATE_SPACE.CANDIDATE)
                         ∧ t' = set_state st t) l (forEach initTile l s).1
  ∧ (forEach initTile l s).2 = Nat.iter (length l) (λ s, (random s).2) s.
Proof.
  intros Hu. revert s. induction l as [|t l IH]; intros s; simpl; [done|].
  unfold initTile at 1 3. destruct (Hu s) as [H0 H1].
  destruct (random s) as [u s1] eqn:E. simpl in *.
  destruct (IH s1) as [IH1 IH2].
  destruct (forEach initTile l s1) as [ts s2]. simpl in *. split.
  - constructor; [|done]. exists (toInt32 (u * 2)). split; [|done].
    by apply toInt32_unit.
  - rewrite IH2. assert (s1 = (random s).2) as -> by (by rewrite E).
    symmetry. exact (Nat.iter_succ_r _ _ _).
Qed.

(** X22: with samples in [0, 1), [Grid.init] sets the state of every tile
    to EMPTY or CANDIDATE, never CRYSTALLIZED, changes no other field, no
    agent and no dimension, and draws exactly one sample per tile. *)
Theorem init_spec (g : Grid.t) (s : rng) :
  UnitGenerator →
  Forall2 (λ t t', ∃ st, (st = STATE_SPACE.EMPTY ∨ st = STATE_SPACE.CANDIDATE)
                         ∧ t' = set_state st t)
    (Grid.tiles g) (Grid.tiles (init g s).1)
  ∧ (init g s).2 = Nat.iter (length (Grid.tiles g)) (λ s, (random s).2) s
  ∧ dims (init g s).1 = dims g
  ∧ Grid.agents (init g s).1 = Grid.agents g.
Proof.
  intros Hu. unfold init.
  destruct (forEach_initTile (Grid.tiles g) s Hu) as [H1 H2].
  by destruct (forEach initTile (Grid.tiles g) s) as [ts s'].
Qed.

End Init.

(** ** Instances on concrete grids *)

Lemma getTile_roundtrip_witness :
  wf_grid (newGrid 3 3)
  ∧ Grid.tiles (newGrid 3 3) !! 5%nat = Some (newTile 2 1)
  ∧ getTile (newGrid 3 3) 2 1 = Some (5%nat, newTile 2 1).
Proof.
  assert (wf_grid (newGrid 3 3)) as Hwf by reflexivity.
  assert (Grid.tiles (newGrid 3 3) !! 5%nat = Some (newTile 2 1)) as Hl
    by reflexivity.
  split; [exact Hwf|]. split; [exact Hl|].
  by destruct (getTile_roundtrip (newGrid 3 3) 5 (newTile 2 1) Hwf Hl)
    as (_ & _ & Hg & _).
Defined.

Lemma hexDistance_zero_witness :
  wf_grid (newGrid 3 3)
  ∧ Grid.tiles (newGrid 3 3) !! 1%nat = Some (newTile 1 0)
  ∧ Grid.tiles (newGrid 3 3) !! 5%nat = Some (newTile 2 1)
  ∧ (hexDistance (newTile 1 0) (newTile 2 1) = 0 ↔ 1%nat = 5%nat).
Proof.
  assert (wf_grid (newGrid 3 3)) as Hwf by reflexivity.
  split; [exact Hwf|]. split; [reflexivity|]. split; [reflexivity|].
  exact (proj2 (hexDistance_zero (newGrid 3 3) 1 5 (newTile 1 0) (newTile 2 1)
                  Hwf eq_refl eq_refl)).
Defined.

Lemma getNeighbors_exact_witness :
  wf_grid (newGrid 3 3)
  ∧ Grid.tiles (newGrid 3 3) !! 4%nat = Some (newTile 1 1)
  ∧ Grid.tiles (newGrid 3 3) !! 1%nat = Some (newTile 1 0)
  ∧ ((1%nat, newTile 1 0) ∈ getNeighbors (newGrid 3 3) 1 1
     ↔ hexDistance (newTile 1 1) (newTile 1 0) = 1).
Proof.
  assert (wf_grid (newGrid 3 3)) as Hwf by reflexivity.
  split; [exact Hwf|]. split; [reflexivity|]. split; [reflexivity|].
  exact (proj1 (getNeighbors_exact (newGrid 3 3) 4 1 (newTile 1 1) (newTile 1 0)
                  Hwf eq_refl eq_refl)).
Defined.

Lemma getNeighbors_distinct_witness :
  wf_grid (newGrid 3 3) ∧ in_bounds (newGrid 3 3) 1 1
  ∧ NoDup (getNeighbors (newGrid 3 3) 1 1)
  ∧ length (getNeighbors (newGrid 3 3) 1 1) = 6%nat.
Proof.
  assert (wf_grid (newGrid 3 3)) as Hwf by reflexivity.
  assert (in_bounds (newGrid 3 3) 1 1) as Hb by (unfold in_bounds; simpl; lia).
  split; [exact Hwf|]. split; [exact Hb|].
  destruct (getNeighbors_distinct (newGrid 3 3) 1 1 Hwf Hb) as (Hnd & _ & Hlen).
  split; [exact Hnd|]. apply Hlen; simpl; lia.
Defined.

Lemma edgeTiles_exact_witness :
  wf_grid (newGrid 3 3)
  ∧ ((4%nat, newTile 1 1) ∈ edgeTiles (newGrid 3 3)
     ↔ Grid.tiles (newGrid 3 3) !! 4%nat = Some (newTile 1 1)
       ∧ (1 = 0 ∨ 1 = 3 - 1 ∨ 1 = 0 ∨ 1 = 3 - 1)).
Proof.
  assert (wf_grid (newGrid 3 3)) as Hwf by reflexivity.
  split; [exact Hwf|].
  exact (edgeTiles_exact (newGrid 3 3) (4%nat, newTile 1 1) Hwf).
Defined.

Lemma getServiceScore_spec_witness :
  wf_grid (seedCenter (newGrid 3 3))
  ∧ Grid.tiles (seedCenter (newGrid 3 3)) !! 1%nat = Some (newTile 1 0)
  ∧ getServiceScore (seedCenter (newGrid 3 3)) (newTile 1 0)
    = Finite (inject_Z (serviceSum (seedCenter (newGrid 3 3)) (newTile 1 0))).
Proof.
  assert (wf_grid (seedCenter (newGrid 3 3))) as Hwf by reflexivity.
  split; [exact Hwf|]. split; [reflexivity|].
  destruct (getServiceScore_spec (seedCenter (newGrid 3 3)) 1 (newTile 1 0)
              Hwf eq_refl) as (_ & _ & Hs & _).
  apply Hs. vm_compute. reflexivity.
Defined.

Lemma factory_competition_witness :
  wf_grid twoFactories
  ∧ Grid.tiles twoFactories !! 0%nat = Some (set_level 4 (set_state 2 (newTile 0 0)))
  ∧ isServedBy twoFactories (0%nat, set_level 4 (set_state 2 (newTile 0 0)))
    = negb (canDieFromCompetition twoFactories
              (0%nat, set_level 4 (set_state 2 (newTile 0 0)))).
Proof.
  assert (wf_grid twoFactories) as Hwf by reflexivity.
  split; [exact Hwf|]. split; [reflexivity|].
  exact (proj2 (factory_competition twoFactories 0
                  (set_level 4 (set_state 2 (newTile 0 0))) Hwf eq_refl eq_refl)).
Defined.

Lemma isServedBy_spec_witness :
  Tile.level (set_level 1 (set_state 2 (newTile 1 1))) < LEVEL.FACTORY
  ∧ (isServedBy threeHouses (4%nat, set_level 1 (set_state 2 (newTile 1 1))) = true
     ↔ ∃ j b, j ≠ 4%nat ∧ Grid.tiles threeHouses !! j = Some b
              ∧ Tile.state b = STATE_SPACE.CRYSTALLIZED
              ∧ 1 < Tile.level b
              ∧ ∃ ρ, SERVICE_RANGE (Tile.level b) = Some ρ
                     ∧ hexDistance (set_level 1 (set_state 2 (newTile 1 1))) b <= ρ).
Proof.
  assert (Tile.level (set_level 1 (set_state 2 (newTile 1 1))) < LEVEL.FACTORY)
    as Hl by (vm_compute; reflexivity).
  split; [exact Hl|].
  exact (isServedBy_spec threeHouses 4 (set_level 1 (set_state 2 (newTile 1 1))) Hl).
Defined.

Lemma walk_spec_witness :
  @UnitGenerator lcgHost ∧ wf_grid (seedCenter (newGrid 3 3))
  ∧ Agent.alive (@walk lcgHost controls (seedCenter (newGrid 3 3))
                   (Agent.mk 1 true) 42).1 = true.
Proof.
  assert (wf_grid (seedCenter (newGrid 3 3))) as Hwf by reflexivity.
  split; [exact lcg_unit|]. split; [exact Hwf|].
  exact (proj1 (@walk_spec lcgHost controls (seedCenter (newGrid 3 3))
                  (Agent.mk 1 true) 42 lcg_unit Hwf)).
Defined.

Lemma walk_biased_witness :
  Grid.tiles (seedCenter (newGrid 3 3)) !! 1%nat = Some (newTile 1 0)
  ∧ Qlt_bool (@random lcgHost 0).1 (biasedWalkChance controls) = true
  ∧ ∃ k best,
      getNeighbors (seedCenter (newGrid 3 3)) 1 0 !! k = Some best
      ∧ @walk lcgHost controls (seedCenter (newGrid 3 3)) (Agent.mk 1 true) 0
        = (Agent.mk best.1 true, (@random lcgHost 0).2).
Proof.
  split; [reflexivity|]. split; [vm_compute; reflexivity|].
  destruct (@walk_biased lcgHost controls (seedCenter (newGrid 3 3))
              (Agent.mk 1 true) 0 (newTile 1 0) eq_refl eq_refl)
    as (k & best & Hk & Hw & _).
  - vm_compute. discriminate.
  - vm_compute. reflexivity.
  - exists k, best. split; [exact Hk|exact Hw].
Defined.

Lemma morph_roundtrip_witness :
  2 ≠ Tile.level (set_level 1 (set_state 2 (newTile 1 1)))
  ∧ (0 < Tile.morphDuration (set_level 1 (set_state 2 (newTile 1 1))))%Q
  ∧ Tile.level
      (@updateMorphing lcgHost
         (@setTargetLevel lcgHost 2 (set_level 1 (set_state 2 (newTile 1 1)))
            (0%Q, 16%Q)).1 (1000%Q, 16%Q)).1 = 2.
Proof.
  assert (2 ≠ Tile.level (set_level 1 (set_state 2 (newTile 1 1)))) as Hne
    by (vm_compute; discriminate).
  assert (0 < Tile.morphDuration (set_level 1 (set_state 2 (newTile 1 1))))%Q
    as Hd by reflexivity.
  split; [exact Hne|]. split; [exact Hd|].
  destruct (@morph_roundtrip lcgHost 2 (set_level 1 (set_state 2 (newTile 1 1)))
              (0%Q, 16%Q) (1000%Q, 16%Q) Hne Hd) as (_ & Hl & _).
  - vm_compute. discriminate.
  - exact Hl.
Defined.

Lemma evolveAll_exact_witness :
  Grid.tiles threeHouses !! 4%nat = Some (set_level 1 (set_state 2 (newTile 1 1)))
  ∧ ∃ now, Grid.tiles (@evolveAll lcgHost controls threeHouses (0%Q, 16%Q)).1.1 !! 4%nat
           = Some (morphTo 2 now (set_level 1 (set_state 2 (newTile 1 1)))).
Proof.
  split; [reflexivity|].
  destruct (@evolveAll_exact lcgHost controls threeHouses (0%Q, 16%Q) 4
              (set_level 1 (set_state 2 (newTile 1 1))) eq_refl) as (Hhit & _).
  apply Hhit. vm_compute. reflexivity.
Defined.

Lemma decayPass_samples_witness :
  10 < nonEmptyCount (houses 11)
  ∧ (@decayPass lcgHost controls (houses 11) 42 (0%Q, 16%Q)).1.1.2
    = Nat.iter (length (filter (λ it, starving (houses 11) it) (indexed (houses 11))))
        (λ s, (@random lcgHost s).2) 42.
Proof.
  assert (10 < nonEmptyCount (houses 11)) as Hn by (vm_compute; reflexivity).
  split; [exact Hn|].
  exact (proj1 (@decayPass_samples lcgHost controls (houses 11) 42 (0%Q, 16%Q) Hn)).
Defined.

Lemma init_spec_witness :
  @UnitGenerator lcgHost
  ∧ (@init lcgHost (newGrid 2 2) 42).2
    = Nat.iter (length (Grid.tiles (newGrid 2 2))) (λ s, (@random lcgHost s).2) 42.
Proof.
  split; [exact lcg_unit|].
  by destruct (@init_spec lcgHost (newGrid 2 2) 42 lcg_unit) as (_ & Hg & _).
Defined.

Lemma morphing_tile_frame_witness :
  Grid.tiles (grid morphingWorld) !! 4%nat = Some (morphTo 2 0 (seeded (newTile 1 1)))
  ∧ ¬ (1 <= Tile.morphProgress (morphTo 2 0 (seeded (newTile 1 1))))%Q
  ∧ ∃ k', Grid.tiles (grid (@draw lcgHost controls morphingWorld)) !! 4%nat
          = Some (@updateMorphing lcgHost (morphTo 2 0 (seeded (newTile 1 1))) k').1.
Proof.
  assert (¬ (1 <= Tile.morphProgress (morphTo 2 0 (seeded (newTile 1 1))))%Q) as Hp
    by (unfold Qle; simpl; lia).
  split; [reflexivity|]. split; [exact Hp|].
  destruct (@morphing_tile_frame lcgHost controls morphingWorld 4
              (morphTo 2 0 (seeded (newTile 1 1))) eq_refl eq_refl Hp)
    as (_ & _ & _ & Hdraw).
  apply Hdraw. reflexivity.
Defined.
